(** * Page-object generator: a shallow embedding of the extraction pipeline

    The development follows the TypeScript sources of the generator:

    - [utils.ts]: [groupBy], [toCamelCase], [sanitizeKey], [escapeString],
      [uniquifyPropertyNames];
    - [constants.ts]: [DEFAULT_CONFIG], [DEFAULT_ELEMENT_TYPES];
    - [filters.ts]: the four built-in filter stages;
    - [selectors.ts]: [buildSelectorString];
    - [PageObjectGenerator.ts]: classifier, selector and property-name
      synthesizers, configuration validation and the orchestrator.

    Conventions.  A JavaScript string is a Rocq [string], read as a sequence
    of code units in the range U+0000..U+00FF.  [undefined] and [null] are
    [None].  A JavaScript object used as a dictionary with fixed, ordinary
    keys (the attribute snapshot) is a [gmap string string]; the object that
    [groupBy] fills with arbitrary keys is modelled with its key order and
    its prototype chain.  A [Set] is a [gset].  Thrown errors are values of a
    sum type, and the browser page is an explicit state threaded through
    every driver call. *)

From Stdlib Require Import ZArith NArith Bool Lia Ascii String Sorted.
From stdpp Require Import base option strings list gmap pretty.

Open Scope string_scope.

(* ================================================================== *)
(** * Part I: definitions                                              *)
(* ================================================================== *)

(** ** JavaScript string primitives *)

Module Js.

Definition code (c : ascii) : N := Ascii.N_of_ascii c.

Definition in_range (lo hi : N) (c : ascii) : bool :=
  ((lo <=? code c) && (code c <=? hi))%N.

(** Regular-expression character classes:
    [\d], [A-Z], [a-z], [a-zA-Z], [a-zA-Z0-9], [\w] and [\s]. *)
Definition is_digit (c : ascii) : bool := in_range 48 57 c.
Definition is_upper (c : ascii) : bool := in_range 65 90 c.
Definition is_lower (c : ascii) : bool := in_range 97 122 c.
Definition is_alpha (c : ascii) : bool := is_upper c || is_lower c.
Definition is_alnum (c : ascii) : bool := is_alpha c || is_digit c.
Definition is_word (c : ascii) : bool := is_alnum c || (code c =? 95)%N.

(** [\s], which is also what [trim] strips: TAB, LF, VT, FF, CR, SPACE
    and, within the modelled range, U+00A0. *)
Definition is_space (c : ascii) : bool :=
  in_range 9 13 c || (code c =? 32)%N || (code c =? 160)%N.

Definition shift_up (c : ascii) : ascii := Ascii.ascii_of_N (code c + 32).
Definition shift_down (c : ascii) : ascii := Ascii.ascii_of_N (code c - 32).

(** [String.prototype.toLowerCase] on one code unit: A-Z and the
    upper-case letters U+00C0..U+00DE (U+00D7 is the multiplication
    sign). *)
Definition lower_char (c : ascii) : ascii :=
  if is_upper c || (in_range 192 222 c && negb (code c =? 215)%N)
  then shift_up c else c.

(** [String.prototype.toUpperCase] on one code unit: a-z and the
    lower-case letters U+00E0..U+00FE (U+00F7 is the division sign);
    U+00DF becomes the two letters SS.  The upper-case forms of U+00B5
    and U+00FF lie outside the modelled range and are left in place;
    the sources only upper-case characters of the class [\w]. *)
Definition upper_char (c : ascii) : string :=
  if is_lower c || (in_range 224 254 c && negb (code c =? 247)%N)
  then String (shift_down c) ""
  else if (code c =? 223)%N then "SS"
  else String c "".

Fixpoint toLowerCase (s : string) : string :=
  match s with
  | "" => ""
  | String c s' => String (lower_char c) (toLowerCase s')
  end.

Fixpoint toUpperCase (s : string) : string :=
  match s with
  | "" => ""
  | String c s' => upper_char c +:+ toUpperCase s'
  end.

(** [s.charAt(0)] and [s.slice(1)]. *)
Definition charAt0 (s : string) : string :=
  match s with "" => "" | String c _ => String c "" end.

Definition slice1 (s : string) : string :=
  match s with "" => "" | String _ s' => s' end.

(** Truthiness of a string: every string but the empty one. *)
Definition truthy (s : string) : bool :=
  match s with "" => false | String _ _ => true end.

(** Truthiness of a possibly [undefined] string. *)
Definition truthy_opt (o : option string) : bool :=
  match o with None => false | Some s => truthy s end.

(** [s.replace(/[class]/g, r)]: every character of the class is replaced
    by [r]. *)
Fixpoint replace_class (p : ascii → bool) (r : string) (s : string) : string :=
  match s with
  | "" => ""
  | String c s' =>
      if p c then r +:+ replace_class p r s'
      else String c (replace_class p r s')
  end.

(** [s.replace(/[class]+/g, r)]: every maximal run of characters of the
    class is replaced by one [r]; [in_run] tells that the preceding
    character belonged to the run being replaced. *)
Fixpoint replace_runs (p : ascii → bool) (r : string) (in_run : bool)
    (s : string) : string :=
  match s with
  | "" => ""
  | String c s' =>
      if p c then
        (if in_run then replace_runs p r true s'
         else r +:+ replace_runs p r true s')
      else String c (replace_runs p r false s')
  end.

(** [s.replace(/^[class]+/, '')]. *)
Fixpoint strip_leading (p : ascii → bool) (s : string) : string :=
  match s with
  | "" => ""
  | String c s' => if p c then strip_leading p s' else s
  end.

(** [s.replace(/^[class]/, '')]: at most one character is removed. *)
Definition strip_first (p : ascii → bool) (s : string) : string :=
  match s with
  | "" => ""
  | String c s' => if p c then s' else s
  end.

Definition trimStart (s : string) : string := strip_leading is_space s.

Definition trimEnd (s : string) : string :=
  String.rev (strip_leading is_space (String.rev s)).

Definition trim (s : string) : string := trimEnd (trimStart s).

(** [s.split(sep)] for a one-character separator: never the empty list,
    and an empty piece between adjacent separators. *)
Fixpoint split (sep : ascii) (s : string) : list string :=
  match s with
  | "" => [""]
  | String c s' =>
      if bool_decide (c = sep) then "" :: split sep s'
      else match split sep s' with
           | w :: ws => String c w :: ws
           | [] => [String c ""]
           end
  end.

(** [pieces.join(sep)]. *)
Fixpoint join (sep : string) (pieces : list string) : string :=
  match pieces with
  | [] => ""
  | [w] => w
  | w :: ws => w +:+ sep +:+ join sep ws
  end.

(** [s.startsWith(p)] and [s.includes(sub)]. *)
Fixpoint startsWith (p s : string) : bool :=
  match p with
  | "" => true
  | String a p' =>
      match s with
      | "" => false
      | String b s' => bool_decide (a = b) && startsWith p' s'
      end
  end.

Fixpoint includes (sub s : string) : bool :=
  startsWith sub s ||
  match s with
  | "" => false
  | String _ s' => includes sub s'
  end.

(** [list.includes(x)] on an array of strings. *)
Definition mem (x : string) (l : list string) : bool := bool_decide (x ∈ l).

(** [a || b] on strings. *)
Definition or_else (a b : string) : string := if truthy a then a else b.

(** [o || b] on a possibly [null] string. *)
Definition or_default (o : option string) (b : string) : string :=
  match o with Some a => or_else a b | None => b end.

(** Template interpolation of a non-negative integer: its decimal
    digits (the counters and indices of the sources stay far below the
    magnitude where JavaScript switches to exponent notation). *)
Definition show (n : nat) : string := pretty n.

(** The double-quote character, for the attribute selectors. *)
Definition dq : string := String (Ascii.ascii_of_N 34) "".

(** Number of characters of [s] in a class: [(s.match(/[class]/g) || []).length]. *)
Fixpoint count_class (p : ascii → bool) (s : string) : nat :=
  match s with
  | "" => 0
  | String c s' => (if p c then 1 else 0) + count_class p s'
  end.

(** [/[A-Z][a-z]/.test(s)]. *)
Fixpoint test_upper_lower (s : string) : bool :=
  match s with
  | String c ((String d _) as s') =>
      (is_upper c && is_lower d) || test_upper_lower s'
  | _ => false
  end.

(** All characters of [s] are in the class [p]. *)
Fixpoint all_chars (p : ascii → bool) (s : string) : bool :=
  match s with
  | "" => true
  | String c s' => p c && all_chars p s'
  end.

(** [s.slice(n)]. *)
Fixpoint drop (n : nat) (s : string) : string :=
  match n, s with
  | S n', String _ s' => drop n' s'
  | _, _ => s
  end.

(** [s.replace(/^pat/, '')] for a literal [pat]. *)
Definition strip_prefix (pat s : string) : string :=
  if startsWith pat s then drop (String.length pat) s else s.

(** [s.replace(pat, r)] for a string [pat]: the first occurrence only. *)
Fixpoint replace_first (pat r s : string) : string :=
  if startsWith pat s then r +:+ drop (String.length pat) s
  else match s with
       | "" => ""
       | String c s' => String c (replace_first pat r s')
       end.

(** [s.replace(/^https?:\/\//, '')]. *)
Definition strip_scheme (s : string) : string :=
  if startsWith "https://" s then drop 8 s
  else if startsWith "http://" s then drop 7 s
  else s.

(** The line feed of the template literals. *)
Definition nl : string := String (Ascii.ascii_of_N 10) "".

End Js.

(** ** [utils.ts] *)

(** The callback of [map] in [toCamelCase]: the first word in lower case,
    every other word with an upper-case initial. *)
Definition camel_word (index : nat) (word : string) : string :=
  match index with
  | 0 => Js.toLowerCase word
  | _ => Js.toUpperCase (Js.charAt0 word) +:+ Js.toLowerCase (Js.slice1 word)
  end.

(** [toCamelCase]: the empty input gives ['element'] at once; otherwise the
    chain of replacements, with ['element'] when nothing is left. *)
Definition toCamelCase (input : string) : string :=
  if negb (Js.truthy input) then "element"
  else
    let s1 := Js.replace_class (λ c, negb (Js.is_word c || Js.is_space c)) " " input in
    let s2 := Js.replace_runs Js.is_space " " false s1 in
    let words := Js.split " " (Js.trim s2) in
    let joined := Js.join "" (imap camel_word words) in
    let s3 := Js.replace_class (λ c, negb (Js.is_word c)) "" joined in
    let s4 := Js.strip_leading Js.is_digit s3 in
    let s5 := Js.strip_first
                (λ c, negb (Js.is_alpha c || (Js.code c =? 95)%N || (Js.code c =? 36)%N))
                s4 in
    Js.or_else s5 "element".

Definition sanitizeKey (input : string) : string :=
  Js.toLowerCase (Js.replace_class (λ c, negb (Js.is_alnum c)) "" input).

(** [escapeString]: every single quote becomes backslash, single quote. *)
Definition escapeString (input : string) : string :=
  Js.replace_class (λ c, (Js.code c =? 39)%N) "\'" input.


(** ** [types.ts] *)

Module ElementSelector.
Record t : Type := mk { selector : string; key : string }.
End ElementSelector.

Module AccessibleElement.
Record t : Type := mk {
  name : string;
  type : string;
  selector : ElementSelector.t;
  tagName : string;
  textContent : string;
  id : string;
  className : string;
  role : string;
  nameAttr : string;
  placeholder : string;
  aria_label : string;
  aria_labelledby : string;
  attributes : gmap string string;
  propertyName : string;
  key : string
}.

(** The object spread [{ ...element, propertyName: p }]. *)
Definition with_propertyName (p : string) (e : t) : t :=
  mk (name e) (type e) (selector e) (tagName e) (textContent e) (id e)
     (className e) (role e) (nameAttr e) (placeholder e) (aria_label e)
     (aria_labelledby e) (attributes e) p (key e).

(** The selector expression [el.selector.selector]. *)
Definition expression (e : t) : string :=
  ElementSelector.selector (selector e).
End AccessibleElement.

Abbreviation AE := AccessibleElement.t.

(** The bound [T extends { propertyName: string }] of
    [uniquifyPropertyNames]: a type with a readable [propertyName] whose
    values can be copied with that field replaced. *)
Class HasPropertyName (T : Type) : Type := {
  getPropertyName : T → string;
  setPropertyName : string → T → T
}.

#[export] Instance AE_HasPropertyName : HasPropertyName AE := {|
  getPropertyName := AccessibleElement.propertyName;
  setPropertyName := AccessibleElement.with_propertyName
|}.

(** Outcome of an operation that may throw. *)
Inductive result (A : Type) : Type :=
| Ok (a : A)
| Err (msg : string).
Arguments Ok {A} a.
Arguments Err {A} msg.

(** ** [utils.ts], continued *)

(** The [while (usedNames.has(uniqueName))] loop of
    [uniquifyPropertyNames].  [fuel] bounds the number of tests of the loop
    condition; [None] means that the bound was reached. *)
Fixpoint unique_name_loop (fuel : nat) (usedNames : gset string)
    (base uniqueName : string) (counter : nat) : option string :=
  match fuel with
  | 0 => None
  | S fuel' =>
      if bool_decide (uniqueName ∈ usedNames)
      then unique_name_loop fuel' usedNames base (base +:+ Js.show counter) (S counter)
      else Some uniqueName
  end.

(** The loop is given one more test of its condition than [usedNames] has
    members.  That bound is never reached (lemma [unique_name_loop_total]
    below), so the value chosen for the unreachable case plays no role. *)
Definition unique_name (usedNames : gset string) (propertyName : string) : string :=
  default propertyName
    (unique_name_loop (S (size usedNames)) usedNames propertyName propertyName 1).

(** The callback of [elements.map], with the closed-over set [usedNames]
    as explicit state. *)
Fixpoint uniquify_from {T} `{HasPropertyName T} (usedNames : gset string)
    (elements : list T) : list T :=
  match elements with
  | [] => []
  | element :: rest =>
      let uniqueName := unique_name usedNames (getPropertyName element) in
      setPropertyName uniqueName element
        :: uniquify_from ({[ uniqueName ]} ∪ usedNames) rest
  end.

Definition uniquifyPropertyNames {T} `{HasPropertyName T} (elements : list T)
  : list T :=
  uniquify_from ∅ elements.

(** *** Plain objects as dictionaries

    [groupBy] accumulates into an object literal [{}].  Three facts about
    such an object matter: a property read falls back to
    [Object.prototype]; own properties are enumerated with the array-index
    keys first, in ascending numeric order, and then the other string keys
    in creation order; and an assignment to a key that is not yet an own
    property creates it last. *)

Module JsObject.

(** Own properties, in creation order. *)
Definition t (V : Type) : Type := list (string * V).

(** Property names that every plain object inherits. *)
Definition prototype_keys : list string :=
  [ "constructor"; "hasOwnProperty"; "isPrototypeOf"; "propertyIsEnumerable";
    "toLocaleString"; "toString"; "valueOf"; "__proto__";
    "__defineGetter__"; "__defineSetter__"; "__lookupGetter__";
    "__lookupSetter__" ].

Fixpoint own {V} (o : t V) (k : string) : option V :=
  match o with
  | [] => None
  | (k', v) :: o' => if bool_decide (k' = k) then Some v else own o' k
  end.

Inductive lookup_result (V : Type) : Type :=
| Own (v : V)
| Inherited
| Missing.
Arguments Own {V} v.
Arguments Inherited {V}.
Arguments Missing {V}.

(** [o[k]]. *)
Definition get {V} (o : t V) (k : string) : lookup_result V :=
  match own o k with
  | Some v => Own v
  | None => if Js.mem k prototype_keys then Inherited else Missing
  end.

(** [o[k] = v] for a key that is an own property or is not inherited. *)
Fixpoint set {V} (o : t V) (k : string) (v : V) : t V :=
  match o with
  | [] => [(k, v)]
  | (k', v') :: o' =>
      if bool_decide (k' = k) then (k, v) :: o' else (k', v') :: set o' k v
  end.

Fixpoint digits_value (acc : N) (s : string) : N :=
  match s with
  | "" => acc
  | String c s' => digits_value (10 * acc + (Js.code c - 48))%N s'
  end.

(** A key is an array index when it is the canonical decimal form of an
    integer below 2^32 - 1. *)
Definition array_index (k : string) : option N :=
  let n := digits_value 0 k in
  if Js.truthy k && Js.all_chars Js.is_digit k
     && bool_decide (pretty n = k) && (n <? 4294967295)%N
  then Some n else None.

Definition is_array_index (k : string) : bool :=
  match array_index k with Some _ => true | None => false end.

(** Insertion of an indexed entry into a list sorted by index. *)
Fixpoint insert_by_index {V} (e : N * V) (l : list (N * V)) : list (N * V) :=
  match l with
  | [] => [e]
  | e' :: l' =>
      if (e.1 <=? e'.1)%N then e :: l else e' :: insert_by_index e l'
  end.

Fixpoint indexed_entries {V} (o : t V) : list (N * V) :=
  match o with
  | [] => []
  | (k, v) :: o' =>
      match array_index k with
      | Some n => insert_by_index (n, v) (indexed_entries o')
      | None => indexed_entries o'
      end
  end.

Fixpoint named_entries {V} (o : t V) : list V :=
  match o with
  | [] => []
  | (k, v) :: o' =>
      if is_array_index k then named_entries o' else v :: named_entries o'
  end.

(** [Object.values(o)]. *)
Definition values {V} (o : t V) : list V :=
  ((indexed_entries o).*2 ++ named_entries o)%list.

(** The entries whose key is not an array index, in creation order. *)
Fixpoint named_pairs {V} (o : t V) : list (string * V) :=
  match o with
  | [] => []
  | (k, v) :: o' =>
      if is_array_index k then named_pairs o' else (k, v) :: named_pairs o'
  end.

(** [Object.entries(o)]: as [Object.values], with the keys; the key of an
    indexed entry is the decimal form of its index. *)
Definition entries {V} (o : t V) : list (string * V) :=
  (((λ e : N * V, (pretty e.1, e.2)) <$> indexed_entries o) ++ named_pairs o)%list.

(** [Object.fromEntries(l)]: the properties are created in the order of
    the list, a later entry replacing the value of an earlier one with the
    same key. *)
Definition fromEntries {V} (l : list (string * V)) : t V :=
  foldl (λ o e, set o e.1 e.2) [] l.

End JsObject.

(** [groupBy]: one step of the [reduce] callback.  An own group is an array,
    hence truthy, and receives the element; a key found only on the
    prototype is truthy too, so no group is created and the call of [push]
    on the inherited value throws. *)
Definition groupBy_step {T} (keyFn : T → string)
    (groups : JsObject.t (list T)) (element : T)
  : result (JsObject.t (list T)) :=
  let key := keyFn element in
  match JsObject.get groups key with
  | JsObject.Missing => Ok (JsObject.set groups key [element])
  | JsObject.Own group => Ok (JsObject.set groups key (group ++ [element])%list)
  | JsObject.Inherited => Err "TypeError: groups[key].push is not a function"
  end.

Fixpoint groupBy_from {T} (keyFn : T → string) (groups : JsObject.t (list T))
    (elements : list T) : result (JsObject.t (list T)) :=
  match elements with
  | [] => Ok groups
  | element :: rest =>
      match groupBy_step keyFn groups element with
      | Ok groups' => groupBy_from keyFn groups' rest
      | Err e => Err e
      end
  end.

Definition groupBy {T} (elements : list T) (keyFn : T → string)
  : result (JsObject.t (list T)) :=
  groupBy_from keyFn [] elements.


(** ** [filters.ts]: the synchronous stages *)

(** [attributes[k] === v]. *)
Definition attr_is (attributes : gmap string string) (k v : string) : bool :=
  bool_decide (attributes !! k = Some v).

(** [attributes[k]?.includes(sub)], read as a condition. *)
Definition attr_includes (attributes : gmap string string) (k sub : string) : bool :=
  match attributes !! k with
  | Some s => Js.includes sub s
  | None => false
  end.

(** [attributes[k]], read as a condition. *)
Definition attr_truthy (attributes : gmap string string) (k : string) : bool :=
  Js.truthy_opt (attributes !! k).

Module DuplicateElementFilter.

Definition enabled : bool := true.

(** [group[0]] is [undefined] for an empty group, and the final [filter]
    discards such entries. *)
Definition filter (elements : list AE) : result (list AE) :=
  match groupBy elements AccessibleElement.expression with
  | Ok grouped => Ok (omap head (JsObject.values grouped))
  | Err e => Err e
  end.

End DuplicateElementFilter.

Module HiddenElementFilter.

Definition enabled : bool := true.

(** The callback of [elements.filter]. *)
Definition keep (element : AE) : bool :=
  let attributes := AccessibleElement.attributes element in
  if attr_is attributes "hidden" ""
     || attr_is attributes "aria-hidden" "true"
     || attr_includes attributes "style" "display: none"
     || attr_includes attributes "style" "visibility: hidden"
     || attr_includes attributes "style" "opacity: 0"
  then false
  else
    let className := Js.or_else (AccessibleElement.className element) "" in
    if Js.includes "hidden" className
       || Js.includes "invisible" className
       || Js.includes "sr-only" className
       || Js.includes "visually-hidden" className
    then false
    else if attr_is attributes "width" "0"
         || attr_is attributes "height" "0"
         || attr_includes attributes "style" "width: 0"
         || attr_includes attributes "style" "height: 0"
    then false
    else if Js.mem (AccessibleElement.tagName element)
              ["script"; "style"; "noscript"; "meta"; "link"; "title"; "head"]
    then false
    else true.

Definition filter (elements : list AE) : list AE :=
  List.filter keep elements.

End HiddenElementFilter.

Module MeaningfulContentFilter.

Definition enabled : bool := true.

(** [isMeaningfulText].  The last test compares the quotient of two
    integers with [0.7]; the text has between 2 and 80 characters there, and
    on that range the comparison of the rounded quotient is the comparison
    [10 * special > 7 * length] of integers. *)
Definition isMeaningfulText (text : string) : bool :=
  let trimmed := Js.trim text in
  let len := String.length trimmed in
  if (len <? 2)%nat then false
  else if Js.includes "{" trimmed && Js.includes "}" trimmed then false
  else if Js.includes ";" trimmed && Js.includes ":" trimmed then false
  else if Js.startsWith "." trimmed || Js.startsWith "#" trimmed then false
  else if Js.includes "function(" trimmed || Js.includes "var " trimmed then false
  else if Js.includes "document." trimmed || Js.includes "window." trimmed then false
  else if (80 <? len)%nat then false
  else if (30 <? len)%nat && negb (Js.includes " " trimmed)
          && Js.test_upper_lower trimmed then false
  else
    let special :=
      Js.count_class (λ c, negb (Js.is_alnum c || Js.is_space c)) trimmed in
    if (7 * len <? 10 * special)%nat then false else true.

Definition hasInteractiveAttributes (element : AE) : bool :=
  let attributes := AccessibleElement.attributes element in
  attr_truthy attributes "onclick"
  || attr_truthy attributes "onfocus"
  || attr_truthy attributes "onblur"
  || attr_truthy attributes "onmouseover"
  || attr_truthy attributes "onmouseenter"
  || attr_truthy attributes "tabindex"
  || attr_is attributes "role" "button"
  || attr_is attributes "role" "link"
  || attr_is attributes "role" "tab"
  || attr_is attributes "role" "menuitem".

Definition isInteractiveElement (element : AE) : bool :=
  let attributes := AccessibleElement.attributes element in
  if Js.mem (AccessibleElement.type element)
       ["button"; "link"; "input"; "select"; "textarea"; "tab"]
  then true
  else if hasInteractiveAttributes element then true
  else if attr_truthy attributes "onclick"
          || attr_truthy attributes "onfocus"
          || attr_truthy attributes "tabindex"
  then true
  else false.

Definition keep (element : AE) : bool :=
  let textContent := AccessibleElement.textContent element in
  let ariaLabel := AccessibleElement.aria_label element in
  let id := AccessibleElement.id element in
  if negb (Js.truthy textContent) && negb (Js.truthy ariaLabel)
     && negb (Js.truthy (AccessibleElement.placeholder element))
     && negb (Js.truthy id)
     && negb (Js.truthy (AccessibleElement.nameAttr element))
  then false
  else if bool_decide (AccessibleElement.tagName element = "div")
          && bool_decide (AccessibleElement.type element = "text")
          && (200 <? String.length textContent)%nat
  then false
  else if Js.truthy textContent && negb (isMeaningfulText textContent)
  then false
  else if Js.includes ".nth(" (AccessibleElement.expression element)
          && negb (Js.truthy id) && negb (Js.truthy ariaLabel)
          && negb (Js.truthy textContent)
  then false
  else if Js.truthy textContent && (50 <? String.length textContent)%nat
          && negb (isInteractiveElement element)
  then false
  else if bool_decide (AccessibleElement.type element = "text")
          && negb (hasInteractiveAttributes element)
          && (30 <? String.length textContent)%nat
  then false
  else true.

Definition filter (elements : list AE) : list AE :=
  List.filter keep elements.

End MeaningfulContentFilter.

(** ** [constants.ts] *)

(** A selector pattern of the element-type table: a tag name [button], a
    tag with its type attribute [input[type=submit]], or a role
    [[role=button]]. *)
Inductive Pattern : Type :=
| Tag (tag : string)
| TagType (tag type : string)
| Role (role : string).

Definition DEFAULT_ELEMENT_TYPES : list (string * list Pattern) :=
  [ ("button", [Tag "button"; TagType "input" "button"; TagType "input" "submit";
                TagType "input" "reset"; Role "button"]);
    ("link", [Tag "a"; Role "link"]);
    ("input", [TagType "input" "text"; TagType "input" "email";
               TagType "input" "password"; TagType "input" "number";
               TagType "input" "tel"; TagType "input" "url";
               TagType "input" "search"]);
    ("checkbox", [TagType "input" "checkbox"; Role "checkbox"]);
    ("radio", [TagType "input" "radio"; Role "radio"]);
    ("select", [Tag "select"; Role "combobox"; Role "listbox"]);
    ("textarea", [Tag "textarea"]);
    ("image", [Tag "img"; Role "img"]);
    ("heading", [Tag "h1"; Tag "h2"; Tag "h3"; Tag "h4"; Tag "h5"; Tag "h6";
                 Role "heading"]);
    ("label", [Tag "label"; Role "label"]);
    ("alert", [Role "alert"; Role "status"; Role "alertdialog"]);
    ("dialog", [Role "dialog"; Role "modal"]);
    ("tab", [Role "tab"; Role "tabpanel"]);
    ("navigation", [Tag "nav"; Role "navigation"]);
    ("main", [Tag "main"; Role "main"]);
    ("aside", [Tag "aside"; Role "complementary"]);
    ("header", [Tag "header"; Role "banner"]);
    ("footer", [Tag "footer"; Role "contentinfo"]);
    ("section", [Tag "section"; Tag "article"]);
    ("text", [Tag "p"; Tag "span"; Tag "div"]) ].

(** The CSS text of a pattern, as the table spells it. *)
Definition pattern_css (p : Pattern) : string :=
  match p with
  | Tag tag => tag
  | TagType tag type => tag +:+ "[type=" +:+ Js.dq +:+ type +:+ Js.dq +:+ "]"
  | Role role => "[role=" +:+ Js.dq +:+ role +:+ Js.dq +:+ "]"
  end.

(** A node with the given tag, role attribute and type attribute matches
    the pattern. *)
Definition matches (p : Pattern) (tagName role type : string) : bool :=
  match p with
  | Tag tag => bool_decide (tagName = tag)
  | TagType tag ty => bool_decide (tagName = tag) && bool_decide (type = ty)
  | Role r => bool_decide (role = r)
  end.

(** ** [PageObjectGenerator.ts]: classifier and synthesizers *)

(** [getElementType].  The three role tests that the source nests under
    [tag === 'div' || tag === 'span'] fall through to the next test when
    none applies, which is what the chain below does. *)
Definition getElementType (tagName role type : string) : string :=
  let tag := Js.toLowerCase tagName in
  let roleNormalized := Js.toLowerCase role in
  let typeNormalized := Js.toLowerCase type in
  let div_or_span := (tag =? "div") || (tag =? "span") in
  if (tag =? "button") || (roleNormalized =? "button")
     || ((tag =? "input") && Js.mem typeNormalized ["button"; "submit"; "reset"])
  then "button"
  else if (tag =? "a") || (roleNormalized =? "link") then "link"
  else if tag =? "input" then
    if Js.mem typeNormalized
         ["checkbox"; "radio"; "file"; "range"; "color"; "date"; "time";
          "datetime-local"; "month"; "week"; "password"; "email"; "tel"; "url"]
    then typeNormalized
    else "input"
  else if (tag =? "select") || (roleNormalized =? "combobox") then "select"
  else if tag =? "textarea" then "textarea"
  else if (tag =? "img") || (roleNormalized =? "img") then "image"
  else if Js.mem tag ["h1"; "h2"; "h3"; "h4"; "h5"; "h6"] then "heading"
  else if (tag =? "label") || (roleNormalized =? "link") then "label"
  else if div_or_span && Js.mem roleNormalized ["alert"; "status"; "alertdialog"]
  then "alert"
  else if div_or_span && Js.mem roleNormalized ["dialog"; "modal"] then "dialog"
  else if div_or_span && (roleNormalized =? "tab") then "tab"
  else if Js.mem tag ["p"; "span"; "div"; "section"; "article"; "main";
                      "aside"; "header"; "footer"; "nav"]
  then "text"
  else Js.or_else tag "generic".

Section Synthesizers.

(** [new URL(s).hostname]; [None] when the constructor throws.  The URL
    parser belongs to the platform. *)
Variable url_hostname : string → option string.

Definition socialDomains : list (string * string) :=
  [ ("instagram.com", "instagram"); ("linkedin.com", "linkedin");
    ("facebook.com", "facebook"); ("twitter.com", "twitter");
    ("x.com", "twitter"); ("youtube.com", "youtube"); ("tiktok.com", "tiktok") ].

(** The body of [generateHrefName] after the loop over the social domains. *)
Definition hrefName_generic (href : string) : string :=
  if Js.startsWith "mailto:" href then "emailLink"
  else if Js.startsWith "tel:" href then "phoneLink"
  else
    match url_hostname (if Js.startsWith "http" href then href
                        else "https://" +:+ href) with
    | Some hostname =>
        let domain := default "" (head (Js.split "." (Js.replace_first "www." "" hostname))) in
        if Js.truthy domain then domain +:+ "Link" else "link"
    | None =>
        let cleanUrl :=
          default "" (head (Js.split "."
            (default "" (head (Js.split "/"
               (Js.strip_prefix "www." (Js.strip_scheme href))))))) in
        if Js.truthy cleanUrl then cleanUrl +:+ "Link" else "link"
    end.

Definition generateHrefName (href : string) : string :=
  match List.find (λ entry, Js.includes entry.1 href) socialDomains with
  | Some entry => entry.2
  | None => hrefName_generic href
  end.

Definition generateHrefKey (href : string) (index : nat) : string :=
  let name := generateHrefName href in
  if name =? "link" then "link_" +:+ Js.show index else name.

Definition generateSelector (tagName role textContent ariaLabel placeholder : string)
    (attributes : gmap string string) (index : nat) : ElementSelector.t :=
  let testId := attributes !! "data-testid" in
  let id := attributes !! "id" in
  let name := attributes !! "name" in
  let type := attributes !! "type" in
  if Js.truthy role && (Js.truthy ariaLabel || Js.truthy textContent) then
    let accessibleName := Js.or_else ariaLabel textContent in
    ElementSelector.mk
      ("getByRole('" +:+ role +:+ "', { name: '" +:+ escapeString accessibleName +:+ "' })")
      (sanitizeKey accessibleName)
  else if Js.mem tagName ["input"; "select"; "textarea"] && Js.truthy ariaLabel then
    ElementSelector.mk
      ("getByLabel('" +:+ escapeString ariaLabel +:+ "')")
      (sanitizeKey ariaLabel)
  else if Js.mem tagName ["input"; "select"; "textarea"] && Js.truthy placeholder then
    ElementSelector.mk
      ("getByPlaceholder('" +:+ escapeString placeholder +:+ "')")
      (sanitizeKey placeholder)
  else if (tagName =? "button")
          || ((tagName =? "input")
              && match type with
                 | Some ty => Js.truthy ty && Js.mem ty ["button"; "submit"; "reset"]
                 | None => false
                 end)
  then
    if Js.truthy textContent then
      ElementSelector.mk
        ("getByRole('button', { name: '" +:+ escapeString textContent +:+ "' })")
        (sanitizeKey textContent)
    else
      ElementSelector.mk "getByRole('button')" ("button_" +:+ Js.show index)
  else if tagName =? "a" then
    if Js.truthy textContent then
      ElementSelector.mk
        ("getByRole('link', { name: '" +:+ escapeString textContent +:+ "' })")
        (sanitizeKey textContent)
    else
      match attributes !! "href" with
      | Some href =>
          if Js.truthy href && negb (href =? "#") && (0 <? String.length href)%nat
          then
            ElementSelector.mk
              ("locator('a[href=" +:+ Js.dq +:+ href +:+ Js.dq +:+ "]')")
              (generateHrefKey href index)
          else
            ElementSelector.mk
              ("locator('a').nth(" +:+ Js.show index +:+ ")")
              ("link_" +:+ Js.show index)
      | None =>
          ElementSelector.mk
            ("locator('a').nth(" +:+ Js.show index +:+ ")")
            ("link_" +:+ Js.show index)
      end
  else if tagName =? "img" then
    match attributes !! "alt" with
    | Some (String _ _ as alt) =>
        ElementSelector.mk
          ("getByAltText('" +:+ escapeString alt +:+ "')") (sanitizeKey alt)
    | _ => ElementSelector.mk "getByRole('img')" ("image_" +:+ Js.show index)
    end
  else if Js.truthy textContent && (0 <? String.length textContent)%nat
          && (String.length textContent <? 100)%nat
  then
    ElementSelector.mk
      ("getByText('" +:+ escapeString textContent +:+ "')") (sanitizeKey textContent)
  else
    match testId, id, name with
    | Some (String _ _ as testId), _, _ =>
        ElementSelector.mk ("getByTestId('" +:+ testId +:+ "')") (sanitizeKey testId)
    | _, Some (String _ _ as id), _ =>
        ElementSelector.mk ("locator('#" +:+ id +:+ "')") (sanitizeKey id)
    | _, _, Some (String _ _ as name) =>
        ElementSelector.mk
          ("locator('[name=" +:+ Js.dq +:+ name +:+ Js.dq +:+ "]')") (sanitizeKey name)
    | _, _, _ =>
        ElementSelector.mk
          ("locator('" +:+ tagName +:+ "').nth(" +:+ Js.show index +:+ ")")
          (tagName +:+ "_" +:+ Js.show index)
    end.

(** [v && v.length > 0 && v.length < 20] on an attribute value. *)
Definition short_value (o : option string) : option string :=
  match o with
  | Some v =>
      if Js.truthy v && (0 <? String.length v)%nat && (String.length v <? 20)%nat
      then Some v else None
  | None => None
  end.

Definition generateFallbackName (elementType tagName : string)
    (attributes : gmap string string) (index : nat) : string :=
  let by_index := elementType +:+ "_" +:+ Js.show index in
  if tagName =? "a" then
    match attributes !! "href" with
    | Some (String _ _ as href) => generateHrefName href
    | _ => by_index
    end
  else if tagName =? "img" then
    match attributes !! "alt", attributes !! "src" with
    | Some (String _ _ as alt), _ => alt
    | _, Some (String _ _ as src) =>
        let filename :=
          default "" (head (Js.split "." (default "" (last (Js.split "/" src))))) in
        if Js.truthy filename then tagName +:+ "_" +:+ filename else by_index
    | _, _ => by_index
    end
  else if Js.mem tagName ["input"; "select"; "textarea"] then
    match attributes !! "type" with
    | Some (String _ _ as type) =>
        if negb (type =? "text") then type +:+ "Input"
        else match short_value (attributes !! "value") with
             | Some value => tagName +:+ "_" +:+ sanitizeKey value
             | None => by_index
             end
    | _ =>
        match short_value (attributes !! "value") with
        | Some value => tagName +:+ "_" +:+ sanitizeKey value
        | None => by_index
        end
    end
  else if tagName =? "button" then
    match short_value (attributes !! "value") with
    | Some value => value
    | None =>
        match attributes !! "type" with
        | Some (String _ _ as type) =>
            if negb (type =? "button") then type +:+ "Button" else by_index
        | _ => by_index
        end
    end
  else by_index.

Definition generatePropertyName (elementType tagName textContent ariaLabel
    placeholder nameAttr id : string) (attributes : gmap string string)
    (index : nat) : string :=
  let name :=
    if Js.truthy ariaLabel && (0 <? String.length ariaLabel)%nat
       && (String.length ariaLabel <? 50)%nat then ariaLabel
    else if Js.truthy nameAttr then nameAttr
    else if Js.truthy placeholder then placeholder
    else if Js.truthy textContent && (0 <? String.length textContent)%nat
            && (String.length textContent <? 50)%nat then textContent
    else if Js.truthy id then id
    else generateFallbackName elementType tagName attributes index in
  Js.or_else (toCamelCase name) ("element" +:+ Js.show index).

(** What [extractElementInfo] reads from one node: [el.tagName], the
    results of the [getAttribute] calls and of [textContent()] ([None] for
    [null] or [undefined]), and the snapshot of [el.attributes]. *)
Record RawNode : Type := {
  el_tagName : option string;
  attr_role : option string;
  read_textContent : option string;
  attr_id : option string;
  attr_class : option string;
  attr_name : option string;
  attr_placeholder : option string;
  attr_aria_label : option string;
  attr_aria_labelledby : option string;
  el_attributes : gmap string string
}.

(** [extractElementInfo], once the reads have succeeded. *)
Definition extractElementInfo (node : RawNode) (index : nat) : AE :=
  let tagName := Js.or_default (Js.toLowerCase <$> el_tagName node) "unknown" in
  let role := Js.or_default (attr_role node) "" in
  let textContent := Js.or_default (Js.trim <$> read_textContent node) "" in
  let id := Js.or_default (attr_id node) "" in
  let className := Js.or_default (attr_class node) "" in
  let nameAttr := Js.or_default (attr_name node) "" in
  let placeholder := Js.or_default (attr_placeholder node) "" in
  let ariaLabel := Js.or_default (attr_aria_label node) "" in
  let ariaLabelledby := Js.or_default (attr_aria_labelledby node) "" in
  let attributes := el_attributes node in
  let elementType :=
    getElementType tagName role (Js.or_default (attributes !! "type") "") in
  let elementSelector :=
    generateSelector tagName role textContent ariaLabel placeholder attributes index in
  let propertyName :=
    generatePropertyName elementType tagName textContent ariaLabel placeholder
      nameAttr id attributes index in
  AccessibleElement.mk propertyName elementType elementSelector tagName
    textContent id className role nameAttr placeholder ariaLabel ariaLabelledby
    attributes propertyName (ElementSelector.key elementSelector).

End Synthesizers.


(** ** The browser page

    The automation driver is a collaborator: each of its calls takes the
    page from one state to the next and either resolves with a value or
    rejects.  Every interaction is recorded in a trace.  A timer that wins
    the race of [executeWithTimeout] is a rejection like any other, decided
    by the driver; the batches of five concurrent reads are joined in index
    order by [Promise.all], and the model performs them one after the
    other. *)

Inductive DomEvent : Type :=
| WaitForLoadState
| QueryAll (selector : string)
| ReadNode (index : nat)
| Locate (selector : ElementSelector.t)
| IsVisible (selector : ElementSelector.t).

Record Driver (St H L : Type) : Type := {
  (** [page.waitForLoadState('domcontentloaded')] *)
  drv_waitForLoadState : St → result unit * St;
  (** [page.locator(selector).all()] *)
  drv_all : string → St → result (list H) * St;
  (** the reads of [extractElementInfo] on one handle *)
  drv_read : H → St → result RawNode * St;
  (** [page.locator(element.selector)] *)
  drv_locator : ElementSelector.t → St → result L * St;
  (** [locator.isVisible()] *)
  drv_isVisible : L → St → result bool * St
}.
Arguments drv_waitForLoadState {St H L} _.
Arguments drv_all {St H L} _.
Arguments drv_read {St H L} _.
Arguments drv_locator {St H L} _.
Arguments drv_isVisible {St H L} _.

Record World (St : Type) : Type := { page : St; trace : list DomEvent }.
Arguments page {St} _.
Arguments trace {St} _.

(** Asynchronous code: a function of the world that returns a value or an
    error, and the next world. *)
Definition M (St A : Type) : Type := World St → result A * World St.

Definition ret {St A} (a : A) : M St A := λ w, (Ok a, w).

Definition throw {St A} (msg : string) : M St A := λ w, (Err msg, w).

Definition bind {St A B} (m : M St A) (k : A → M St B) : M St B :=
  λ w, match m w with
       | (Ok a, w') => k a w'
       | (Err e, w') => (Err e, w')
       end.

Notation "x <<- m ;; k" := (bind m (λ x, k))
  (at level 100, m at next level, right associativity).

(** [try { m } catch (e) { handler(e) }]. *)
Definition try_catch {St A} (m : M St A) (handler : string → M St A) : M St A :=
  λ w, match m w with
       | (Ok a, w') => (Ok a, w')
       | (Err e, w') => handler e w'
       end.

(** One call of the driver, recorded in the trace. *)
Definition call {St A} (ev : DomEvent) (op : St → result A * St) : M St A :=
  λ w, let (r, s') := op (page w) in
       (r, {| page := s'; trace := (trace w ++ [ev])%list |}).

(** An operation that does not touch the page. *)
Definition lift {St A} (r : result A) : M St A := λ w, (r, w).

(** [executeWithTimeout]: a rejection is rethrown as
    ["<operationName> failed: <message>"].  Whether the timer of [timeoutMs]
    milliseconds fires first is part of the outcome of [operation]. *)
Definition executeWithTimeout {St A} (operation : M St A) (timeoutMs : Z)
    (operationName : string) : M St A :=
  try_catch operation (λ message, throw (operationName +:+ " failed: " +:+ message)).

(** ** [types.ts]: filters and configuration *)

Record ElementFilter (St : Type) : Type := {
  filter_name : string;
  filter_description : string;
  filter_enabled : bool;
  filter_sync : list AE → result (list AE);
  filterAsync : option (list AE → M St (list AE))
}.
Arguments filter_name {St} _.
Arguments filter_description {St} _.
Arguments filter_enabled {St} _.
Arguments filter_sync {St} _.
Arguments filterAsync {St} _.

Inductive NamingConvention : Type := camelCase | snake_case | kebab_case.

(** The caller's configuration; every field is optional.  [maxTextLength]
    is a number, modelled for its integer values. *)
Record PageObjectConfig (St : Type) : Type := {
  containerSelector : option string;
  interactiveOnly : option bool;
  maxTextLength : option Z;
  namingConvention : option NamingConvention;
  selectorPriorities : option (list string);
  excludeSelectors : option (list string);
  includeSelectors : option (list string);
  customElementTypes : option (list (string * list string));
  elementTypeMappings : option (list (string * string));
  elementFilters : option (list (ElementFilter St));
  includeHiddenElements : option bool;
  enableRuntimeVisibilityCheck : option bool;
  includeHelpers : option bool
}.
Arguments containerSelector {St} _.
Arguments interactiveOnly {St} _.
Arguments maxTextLength {St} _.
Arguments namingConvention {St} _.
Arguments selectorPriorities {St} _.
Arguments excludeSelectors {St} _.
Arguments includeSelectors {St} _.
Arguments customElementTypes {St} _.
Arguments elementTypeMappings {St} _.
Arguments elementFilters {St} _.
Arguments includeHiddenElements {St} _.
Arguments enableRuntimeVisibilityCheck {St} _.
Arguments includeHelpers {St} _.

(** The configuration [{}]. *)
Definition empty_config {St} : PageObjectConfig St :=
  {| containerSelector := None; interactiveOnly := None; maxTextLength := None;
     namingConvention := None; selectorPriorities := None;
     excludeSelectors := None; includeSelectors := None;
     customElementTypes := None; elementTypeMappings := None;
     elementFilters := None; includeHiddenElements := None;
     enableRuntimeVisibilityCheck := None; includeHelpers := None |}.

(** [Required<PageObjectConfig>], the result of [mergeConfig]. *)
Record MergedConfig (St : Type) : Type := {
  m_containerSelector : string;
  m_interactiveOnly : bool;
  m_maxTextLength : Z;
  m_namingConvention : NamingConvention;
  m_selectorPriorities : list string;
  m_excludeSelectors : list string;
  m_includeSelectors : list string;
  m_customElementTypes : JsObject.t (list string);
  m_elementTypeMappings : list (string * string);
  m_elementFilters : list (ElementFilter St);
  m_includeHiddenElements : bool;
  m_enableRuntimeVisibilityCheck : bool;
  m_includeHelpers : bool
}.
Arguments m_containerSelector {St} _.
Arguments m_interactiveOnly {St} _.
Arguments m_includeSelectors {St} _.
Arguments m_elementFilters {St} _.

Record ValidationResult : Type := {
  vr_type : string;
  vr_message : string;
  vr_suggestion : option string
}.

(** ** [selectors.ts] *)

Definition interactiveSelectors : list string :=
  [ "button"; "a"; "input"; "select"; "textarea";
    pattern_css (Role "button"); pattern_css (Role "link");
    pattern_css (Role "tab"); pattern_css (Role "menuitem");
    pattern_css (Role "combobox"); pattern_css (Role "listbox");
    pattern_css (Role "checkbox"); pattern_css (Role "radio");
    "[onclick]"; "[onfocus]"; "[onblur]"; "[tabindex]"; "[data-testid]";
    "label" ].

Definition defaultSelectors : list string :=
  [ "[role]"; "button"; "a"; "input"; "select"; "textarea"; "img";
    "h1"; "h2"; "h3"; "h4"; "h5"; "h6"; "label"; "p"; "span"; "div";
    "section"; "article"; "main"; "aside"; "header"; "footer"; "nav" ].

Definition buildSelectorString {St} (config : MergedConfig St) : string :=
  let containerSelector := m_containerSelector config in
  let scoped (selectors : list string) :=
    containerSelector +:+ " "
      +:+ Js.join (", " +:+ containerSelector +:+ " ") selectors in
  if (0 <? length (m_includeSelectors config))%nat
  then scoped (m_includeSelectors config)
  else if m_interactiveOnly config then scoped interactiveSelectors
  else scoped defaultSelectors.

(** ** [filters.ts]: the asynchronous stage, and [PageObjectGenerator.ts]:
    the orchestrator *)

Section Orchestrator.

Context {St H L : Type}.
Variable drv : Driver St H L.
Variable url_hostname : string → option string.

(** The body of the [for] loop of [VisibilityFilter.filterAsync]: the
    element is pushed when the check resolves to true and when anything in
    the [try] block throws. *)
Definition visibility_step (visibleElements : list AE) (element : AE)
  : M St (list AE) :=
  let selector := AccessibleElement.selector element in
  try_catch
    (locator <<- call (Locate selector) (drv_locator drv selector) ;;
     isVisible <<- call (IsVisible selector) (drv_isVisible drv locator) ;;
     ret (if isVisible : bool then (visibleElements ++ [element])%list
          else visibleElements))
    (λ _, ret (visibleElements ++ [element])%list).

Fixpoint visibility_loop (elements : list AE) (visibleElements : list AE)
  : M St (list AE) :=
  match elements with
  | [] => ret visibleElements
  | element :: rest =>
      visibleElements' <<- visibility_step visibleElements element ;;
      visibility_loop rest visibleElements'
  end.

Definition VisibilityFilter_filterAsync (enabled : bool) (elements : list AE)
  : M St (list AE) :=
  if negb enabled then ret elements
  else visibility_loop elements [].

Definition VisibilityFilter_filter (elements : list AE) : list AE := elements.

(** The four built-in stages as filter objects. *)
Definition DuplicateElementFilter_new : ElementFilter St :=
  {| filter_name := "DuplicateElementFilter";
     filter_description := "Removes duplicate elements with the same selector";
     filter_enabled := DuplicateElementFilter.enabled;
     filter_sync := DuplicateElementFilter.filter;
     filterAsync := None |}.

Definition HiddenElementFilter_new : ElementFilter St :=
  {| filter_name := "HiddenElementFilter";
     filter_description := "Removes hidden elements unless explicitly included";
     filter_enabled := HiddenElementFilter.enabled;
     filter_sync := λ elements, Ok (HiddenElementFilter.filter elements);
     filterAsync := None |}.

Definition MeaningfulContentFilter_new : ElementFilter St :=
  {| filter_name := "MeaningfulContentFilter";
     filter_description := "Removes elements with no meaningful content";
     filter_enabled := MeaningfulContentFilter.enabled;
     filter_sync := λ elements, Ok (MeaningfulContentFilter.filter elements);
     filterAsync := None |}.

Definition VisibilityFilter_new (enabled : bool) : ElementFilter St :=
  {| filter_name := "VisibilityFilter";
     filter_description :=
       "Removes elements that are not visible on the page (runtime check)";
     filter_enabled := enabled;
     filter_sync := λ elements, Ok (VisibilityFilter_filter elements);
     filterAsync := Some (VisibilityFilter_filterAsync enabled) |}.

Definition mergeConfig (userConfig : PageObjectConfig St) : MergedConfig St :=
  {| m_containerSelector := default "body" (containerSelector userConfig);
     m_interactiveOnly := default true (interactiveOnly userConfig);
     m_maxTextLength := default 100%Z (maxTextLength userConfig);
     m_namingConvention := default camelCase (namingConvention userConfig);
     m_selectorPriorities :=
       default ["role"; "testid"; "label"; "text"; "id"; "css"]
               (selectorPriorities userConfig);
     m_excludeSelectors :=
       (["script"; "style"; "noscript"; "meta"; "link"; "title"; "head"]
          ++ default [] (excludeSelectors userConfig))%list;
     m_includeSelectors := default [] (includeSelectors userConfig);
     m_customElementTypes :=
       foldl (λ o entry, JsObject.set o entry.1 entry.2)
             ((λ entry : string * list Pattern, (entry.1, pattern_css <$> entry.2))
                <$> DEFAULT_ELEMENT_TYPES)
             (default [] (customElementTypes userConfig));
     m_elementTypeMappings := default [] (elementTypeMappings userConfig);
     m_elementFilters :=
       (default [] (elementFilters userConfig)
          ++ [ DuplicateElementFilter_new; HiddenElementFilter_new;
               MeaningfulContentFilter_new;
               VisibilityFilter_new
                 (default false (enableRuntimeVisibilityCheck userConfig)) ])%list;
     m_includeHiddenElements := default false (includeHiddenElements userConfig);
     m_enableRuntimeVisibilityCheck :=
       default false (enableRuntimeVisibilityCheck userConfig);
     m_includeHelpers := default true (includeHelpers userConfig) |}.

(** [validateConfig].  In [config.maxTextLength && config.maxTextLength < 1]
    the left operand is the number itself, which is falsy when it is
    [undefined] and when it is zero. *)
Definition validateConfig (config : PageObjectConfig St) : list ValidationResult :=
  let results : list ValidationResult := [] in
  let results :=
    if match maxTextLength config with
       | Some n => negb (n =? 0)%Z && (n <? 1)%Z
       | None => false
       end
    then (results ++ [ {| vr_type := "error";
                          vr_message := "maxTextLength must be at least 1";
                          vr_suggestion := Some "Set maxTextLength to a value >= 1" |} ])%list
    else results in
  let results :=
    if match selectorPriorities config with
       | Some priorities => (length priorities =? 0)%nat
       | None => false
       end
    then (results ++ [ {| vr_type := "error";
                          vr_message := "selectorPriorities cannot be empty";
                          vr_suggestion :=
                            Some "Provide at least one selector priority or use defaults" |} ])%list
    else results in
  results.

Definition is_error (r : ValidationResult) : bool := vr_type r =? "error".

Definition batchSize : nat := 5.

(** One entry of [batchPromises]: the element record, or [null] when the
    read rejects or times out. *)
Definition process_element (element : H) (globalIndex : nat) : M St (option AE) :=
  try_catch
    (node <<- executeWithTimeout
                (call (ReadNode globalIndex) (drv_read drv element))
                5000 "Element processing" ;;
     ret (Some (extractElementInfo url_hostname node globalIndex)))
    (λ _, ret None).

(** [await Promise.all(batch.map(...))]. *)
Fixpoint process_batch (i batchIndex : nat) (batch : list H)
  : M St (list (option AE)) :=
  match batch with
  | [] => ret []
  | element :: rest =>
      r <<- process_element element (i + batchIndex) ;;
      rs <<- process_batch i (S batchIndex) rest ;;
      ret (r :: rs)
  end.

(** The loop [for (let i = 0; i < elementHandles.length; i += batchSize)],
    by its number of [iterations]. *)
Fixpoint batch_loop (iterations i : nat) (elementHandles : list H)
    (elementDetails : list AE) : M St (list AE) :=
  match iterations with
  | 0 => ret elementDetails
  | S iterations' =>
      let batch := take batchSize (drop i elementHandles) in
      batchResults <<- process_batch i 0 batch ;;
      let validElements := omap Datatypes.id batchResults in
      batch_loop iterations' (i + batchSize) elementHandles
                 (elementDetails ++ validElements)%list
  end.

(** The loop over the synchronous [filter] methods. *)
Fixpoint apply_sync_filters (filters : list (ElementFilter St))
    (filteredElements : list AE) : result (list AE) :=
  match filters with
  | [] => Ok filteredElements
  | filter :: rest =>
      if filter_enabled filter then
        match filter_sync filter filteredElements with
        | Ok filteredElements' => apply_sync_filters rest filteredElements'
        | Err e => Err e
        end
      else apply_sync_filters rest filteredElements
  end.

(** The loop over the [filterAsync] methods. *)
Fixpoint apply_async_filters (filters : list (ElementFilter St))
    (filteredElements : list AE) : M St (list AE) :=
  match filters with
  | [] => ret filteredElements
  | filter :: rest =>
      match filter_enabled filter, filterAsync filter with
      | true, Some run =>
          filteredElements' <<- run filteredElements ;;
          apply_async_filters rest filteredElements'
      | _, _ => apply_async_filters rest filteredElements
      end
  end.

Definition _extractAccessibleElementsInternal (config : PageObjectConfig St)
  : M St (list AE) :=
  let mergedConfig := mergeConfig config in
  let validationResults := validateConfig config in
  if existsb is_error validationResults then
    throw ("Configuration validation failed: "
             +:+ Js.join ", " (vr_message <$> List.filter is_error validationResults))
  else
    let selector := buildSelectorString mergedConfig in
    _ <<- try_catch
            (executeWithTimeout
               (call WaitForLoadState (drv_waitForLoadState drv)) 5000 "Page load")
            (λ _, ret tt) ;;
    elementHandles <<- executeWithTimeout
                         (call (QueryAll selector) (drv_all drv selector))
                         10000 "Element selection" ;;
    elementDetails <<- batch_loop
                         ((length elementHandles + (batchSize - 1)) / batchSize)
                         0 elementHandles [] ;;
    filteredElements <<- lift (apply_sync_filters
                                 (m_elementFilters mergedConfig) elementDetails) ;;
    filteredElements <<- apply_async_filters
                           (m_elementFilters mergedConfig) filteredElements ;;
    ret (uniquifyPropertyNames filteredElements).

(** The public entry point: the whole extraction under the outer timer of
    sixty seconds.  The model has no clock: that timer, which can only turn
    the outcome into a rejection, does not fire here. *)
Definition extractAccessibleElements (config : PageObjectConfig St)
  : M St (list AE) :=
  executeWithTimeout (_extractAccessibleElementsInternal config)
                     60000 "Element extraction".

End Orchestrator.

(** ** [PageObjectGenerator.ts]: code generation *)

(** [generateHelperMethods]: the lines of the [goto] helper and the brace
    that closes the class. *)
Definition generateHelperMethods (pageUrl : string) : list string :=
  [ "    /**";
    "     * Navigates to the page URL and waits for it to load";
    "     * @param url Optional URL to navigate to (defaults to current page URL)";
    "     * @param timeout Maximum time to wait in milliseconds (default: 30 seconds)";
    "     */";
    "    async goto(url?: string, timeout = 30000) {";
    "        await this.page.goto(url || '" +:+ pageUrl +:+ "');";
    "        await this.page.waitForLoadState('networkidle', { timeout });";
    "    }";
    "";
    "}" ].

(** The declaration of one element: its comment and its field. *)
Definition element_property (el : AE) : string :=
  let comment :=
    "/** Locator for " +:+ Js.or_else (AccessibleElement.name el) "unnamed"
      +:+ " " +:+ AccessibleElement.type el +:+ " */" in
  "    " +:+ comment +:+ Js.nl
    +:+ "    readonly " +:+ AccessibleElement.propertyName el +:+ ": Locator;".

(** The block of one element type: a header with the capitalised type and
    the declarations of its elements. *)
Definition type_block (entry : string * list AE) : string :=
  let type := entry.1 in
  let typeHeader :=
    "    // " +:+ Js.toUpperCase (Js.charAt0 type) +:+ Js.slice1 type
      +:+ " Elements" in
  let elementProps := Js.join (Js.nl +:+ Js.nl) (element_property <$> entry.2) in
  typeHeader +:+ Js.nl +:+ elementProps.

(** The line of the constructor that initialises one element. *)
Definition constructor_initializer (el : AE) : string :=
  "        this." +:+ AccessibleElement.propertyName el +:+ " = this.page."
    +:+ AccessibleElement.expression el +:+ ";".

(** The template literal that [generatePageObject] returns, line by
    line. *)
Definition page_object_source (className properties constructorInitializers : string)
    (helpers : list string) : string :=
  Js.join Js.nl
    [ "import { Page, Locator } from '@playwright/test';";
      "";
      "/**";
      " * Auto-generated Page Object for " +:+ className;
      " * Generated by PageObjectGenerator";
      " * @class " +:+ className;
      " */";
      "export class " +:+ className +:+ " {";
      "    private readonly page: Page;";
      "";
      properties;
      "";
      "    /**";
      "     * Creates a new instance of " +:+ className;
      "     * @param page Playwright Page instance";
      "     */";
      "    constructor(page: Page) {";
      "        this.page = page;";
      constructorInitializers;
      "    }";
      "";
      Js.join Js.nl helpers ].

(** [GenerationResult]. *)
Record GenerationResult : Type := {
  pageObjectCode : string;
  gr_elements : list AE;
  elementTypes : JsObject.t nat
}.

Section CodeGeneration.

Context {St H L : Type}.
Variable drv : Driver St H L.
Variable url_hostname : string → option string.

(** [page.url()], a synchronous read of the page. *)
Variable page_url : St → string.

Definition generatePageObject (className : string) (config : PageObjectConfig St)
  : M St string :=
  let includeHelpers := default true (includeHelpers config) in
  elements <<- extractAccessibleElements drv url_hostname config ;;
  pageUrl <<- (λ w, (Ok (page_url (page w)), w)) ;;
  grouped <<- lift (groupBy elements AccessibleElement.type) ;;
  let properties :=
    Js.join (Js.nl +:+ Js.nl) (type_block <$> JsObject.entries grouped) in
  let constructorInitializers :=
    Js.join Js.nl (constructor_initializer <$> elements) in
  let helpers := if includeHelpers then generateHelperMethods pageUrl else [] in
  ret (page_object_source className properties constructorInitializers helpers).

(** [generatePageObjectMetadata]; what it prints on the console is not
    part of the model. *)
Definition generatePageObjectMetadata (pageObjectName : string)
    (config : PageObjectConfig St) : M St GenerationResult :=
  pageObjectCode <<- generatePageObject pageObjectName config ;;
  elements <<- extractAccessibleElements drv url_hostname config ;;
  elementTypes <<- lift (groupBy elements AccessibleElement.type) ;;
  let elementTypeCounts :=
    JsObject.fromEntries
      ((λ entry : string * list AE, (entry.1, length entry.2))
         <$> JsObject.entries elementTypes) in
  ret {| pageObjectCode := pageObjectCode;
         gr_elements := elements;
         elementTypes := elementTypeCounts |}.

End CodeGeneration.

(* ================================================================== *)
(** * Part II: definitions for the statements                          *)
(* ================================================================== *)

(** ** Character classes and identifiers *)

(** The 256 characters. *)
Definition all_ascii : list ascii :=
  (λ n, Ascii.ascii_of_nat n) <$> seq 0 256.

(** The character classes of the statements below. *)
Definition is_lower_or_digit (c : ascii) : bool := Js.is_lower c || Js.is_digit c.

Definition is_ident_start (c : ascii) : bool :=
  Js.is_alpha c || (Js.code c =? 95)%N.

(** A well-formed identifier: a letter or an underscore, followed by
    letters, digits and underscores. *)
Definition is_identifier (s : string) : bool :=
  match s with
  | "" => false
  | String c _ => is_ident_start c && Js.all_chars Js.is_word s
  end.

(** The characters left in the words of an input without letters and
    underscores. *)
Definition is_digit_or_space (c : ascii) : bool := Js.is_digit c || Js.is_space c.

(** The last four steps of the chain, on the joined words. *)
Definition camel_finish (joined : string) : string :=
  Js.or_else
    (Js.strip_first
       (λ c, negb (Js.is_alpha c || (Js.code c =? 95)%N || (Js.code c =? 36)%N))
       (Js.strip_leading Js.is_digit
          (Js.replace_class (λ c, negb (Js.is_word c)) "" joined)))
    "element".

(** The keys that [generateSelector] does not take from [sanitizeKey]. *)
Definition positional_keys (url_hostname : string → option string)
    (tagName : string) (attributes : gmap string string) (index : nat)
  : list string :=
  [ "button_" +:+ Js.show index; "link_" +:+ Js.show index;
    "image_" +:+ Js.show index; tagName +:+ "_" +:+ Js.show index;
    generateHrefKey url_hostname (default "" (attributes !! "href")) index ].

(** ** Documents, elements and configurations used as examples *)

(** A page whose query returns the given nodes, whose reads succeed and on
    which every located element is visible. *)
Definition static_driver (nodes : list RawNode) : Driver unit RawNode unit :=
  {| drv_waitForLoadState := λ s, (Ok tt, s);
     drv_all := λ _ s, (Ok nodes, s);
     drv_read := λ node s, (Ok node, s);
     drv_locator := λ _ s, (Ok tt, s);
     drv_isVisible := λ _ s, (Ok true, s) |}.

(** The world before the first call. *)
Definition fresh_world : World unit := {| page := tt; trace := [] |}.

(** A node that carries only a tag name, a text and attributes; the
    [getAttribute] reads agree with the attribute snapshot. *)
Definition node_of (tagName text : string) (attributes : gmap string string)
  : RawNode :=
  {| el_tagName := Some tagName;
     attr_role := attributes !! "role";
     read_textContent := Some text;
     attr_id := attributes !! "id";
     attr_class := attributes !! "class";
     attr_name := attributes !! "name";
     attr_placeholder := attributes !! "placeholder";
     attr_aria_label := attributes !! "aria-label";
     attr_aria_labelledby := attributes !! "aria-labelledby";
     el_attributes := attributes |}.

(** The node [<input type=email aria-label='Email Address'>]. *)
Definition email_input : RawNode :=
  node_of "INPUT" "" {[ "type" := "email"; "aria-label" := "Email Address" ]}.

(** The element [<div hidden='until-found' id='results'>Results</div>]. *)
Definition hidden_until_found : AE :=
  extractElementInfo (λ _, None)
    (node_of "DIV" "Results" {[ "hidden" := "until-found"; "id" := "results" ]}) 0.

(** An element that stands for its property name alone. *)
Definition named (propertyName : string) : AE :=
  AccessibleElement.mk propertyName "text"
    (ElementSelector.mk ("getByText('" +:+ propertyName +:+ "')") propertyName)
    "span" propertyName "" "" "" "" "" "" "" ∅ propertyName propertyName.

(** An element that stands for its selector expression alone. *)
Definition selected_by (expression label : string) : AE :=
  AccessibleElement.mk label "text" (ElementSelector.mk expression label)
    "span" label "" "" "" "" "" "" "" ∅ label label.

(** An element that stands for its key alone. *)
Definition element_with_key (key : string) : AE :=
  AccessibleElement.mk key "text" (ElementSelector.mk ("getByText('" +:+ key +:+ "')") key)
    "div" key "" "" "" "" "" "" "" ∅ key key.

(** A page on which the element with key [broken] cannot be resolved and
    the element with key [hidden] is reported not visible. *)
Definition flaky_driver : Driver unit RawNode string :=
  {| drv_waitForLoadState := λ s, (Ok tt, s);
     drv_all := λ _ s, (Ok [], s);
     drv_read := λ node s, (Ok node, s);
     drv_locator := λ selector s,
       (if ElementSelector.key selector =? "broken"
        then Err "strict mode violation"
        else Ok (ElementSelector.key selector), s);
     drv_isVisible := λ locator s, (Ok (negb (locator =? "hidden")), s) |}.

(** The configuration [{ maxTextLength: n }]. *)
Definition config_maxTextLength {St} (n : Z) : PageObjectConfig St :=
  {| containerSelector := None; interactiveOnly := None; maxTextLength := Some n;
     namingConvention := None; selectorPriorities := None;
     excludeSelectors := None; includeSelectors := None;
     customElementTypes := None; elementTypeMappings := None;
     elementFilters := None; includeHiddenElements := None;
     enableRuntimeVisibilityCheck := None; includeHelpers := None |}.

(** ** The element-type table against the classifier *)

#[export] Instance Pattern_eq_dec : EqDecision Pattern.
Proof. solve_decision. Defined.

(** The plain node of a pattern: the tag alone, the tag with its type
    attribute, or a [div] that carries the role. *)
Definition plain_triple (p : Pattern) : string * string * string :=
  match p with
  | Tag tag => (tag, "", "")
  | TagType tag type => (tag, "", type)
  | Role role => ("div", role, "")
  end.

(** The classification of the plain node of a pattern. *)
Definition classify_plain (p : Pattern) : string :=
  let '(tag, role, type) := plain_triple p in getElementType tag role type.

(** Table patterns that the classifier does not map to the table's type. *)
Definition unsupported_patterns : list Pattern :=
  [ TagType "input" "email"; TagType "input" "password"; TagType "input" "tel";
    TagType "input" "url"; Role "checkbox"; Role "radio"; Role "listbox";
    Role "heading"; Role "label"; Role "tabpanel";
    Tag "nav"; Role "navigation"; Tag "main"; Role "main";
    Tag "aside"; Role "complementary"; Tag "header"; Role "banner";
    Tag "footer"; Role "contentinfo"; Tag "section"; Tag "article" ].

(** The check of one entry of the table. *)
Definition table_entry_ok (ty : string) (p : Pattern) : bool :=
  bool_decide (p ∈ unsupported_patterns) || (classify_plain p =? ty).

(** ** Traces *)

(** A computation that only adds events to the trace. *)
Definition grows {St A} (m : M St A) : Prop :=
  ∀ w, ∃ events, trace (m w).2 = (trace w ++ events)%list.

(** ** The checks of the runtime-visibility stage *)

(** How the check of one element ends. *)
Inductive Check : Type := Visible | NotVisible | Raised.

#[export] Instance Check_eq_dec : EqDecision Check.
Proof. solve_decision. Defined.

Section VisibilityChecks.

Context {St H L : Type}.
Variable drv : Driver St H L.

(** The check of one element on a page: the selector is resolved, then
    the visibility is queried; an error of either call is [Raised]. *)
Definition check (selector : ElementSelector.t) (s : St) : Check * St :=
  match drv_locator drv selector s with
  | (Err _, s1) => (Raised, s1)
  | (Ok locator, s1) =>
      match drv_isVisible drv locator s1 with
      | (Ok true, s2) => (Visible, s2)
      | (Ok false, s2) => (NotVisible, s2)
      | (Err _, s2) => (Raised, s2)
      end
  end.

(** The checks of the elements of a list, one after the other. *)
Fixpoint checks (elements : list AE) (s : St) : list Check :=
  match elements with
  | [] => []
  | element :: rest =>
      let (c, s') := check (AccessibleElement.selector element) s in
      c :: checks rest s'
  end.

End VisibilityChecks.

(** The elements whose check did not end in [NotVisible]. *)
Fixpoint survivors (elements : list AE) (cs : list Check) : list AE :=
  match elements, cs with
  | element :: rest, c :: cs' =>
      match c with
      | NotVisible => survivors rest cs'
      | _ => element :: survivors rest cs'
      end
  | _, _ => []
  end.

(** ** The frame of [uniquifyPropertyNames] *)

(** Two records agree on every field but [propertyName]. *)
Definition same_but_propertyName (e e' : AE) : Prop :=
  AccessibleElement.name e' = AccessibleElement.name e
  ∧ AccessibleElement.type e' = AccessibleElement.type e
  ∧ AccessibleElement.selector e' = AccessibleElement.selector e
  ∧ AccessibleElement.tagName e' = AccessibleElement.tagName e
  ∧ AccessibleElement.textContent e' = AccessibleElement.textContent e
  ∧ AccessibleElement.id e' = AccessibleElement.id e
  ∧ AccessibleElement.className e' = AccessibleElement.className e
  ∧ AccessibleElement.role e' = AccessibleElement.role e
  ∧ AccessibleElement.nameAttr e' = AccessibleElement.nameAttr e
  ∧ AccessibleElement.placeholder e' = AccessibleElement.placeholder e
  ∧ AccessibleElement.aria_label e' = AccessibleElement.aria_label e
  ∧ AccessibleElement.aria_labelledby e' = AccessibleElement.aria_labelledby e
  ∧ AccessibleElement.attributes e' = AccessibleElement.attributes e
  ∧ AccessibleElement.key e' = AccessibleElement.key e.

(** ** Duplicate removal: ordinary keys and the specification *)

(** A selector expression that behaves as a plain dictionary key: it is
    not an array index and not the name of an inherited property. *)
Definition ordinary_key (k : string) : bool :=
  negb (JsObject.is_array_index k) && negb (Js.mem k JsObject.prototype_keys).

(** The words of the specification: keep an element when its selector
    expression has not been seen on an element before it. *)
Fixpoint first_from (seen : gset string) (elements : list AE) : list AE :=
  match elements with
  | [] => []
  | element :: rest =>
      if bool_decide (AccessibleElement.expression element ∈ seen)
      then first_from seen rest
      else element
             :: first_from ({[ AccessibleElement.expression element ]} ∪ seen) rest
  end.

(** The first element of each distinct selector expression, in the order
    in which the expressions are first seen. *)
Definition first_per_selector (elements : list AE) : list AE :=
  first_from ∅ elements.

(** The invariant of the [reduce]: the own keys are the expressions seen
    so far, none of them is an array index, no group is empty, and the first
    members of the groups, in creation order, are the elements kept by the
    specification. *)
Definition groups_inv (groups : JsObject.t (list AE)) (seen : gset string) : Prop :=
  (∀ k, k ∈ seen ↔ is_Some (JsObject.own groups k))
  ∧ Forall (λ kv : string * list AE,
              JsObject.is_array_index kv.1 = false ∧ kv.2 ≠ []) groups.

(** The first element of the list that has the expression of [e]. *)
Definition first_with (e : AE) (elements : list AE) : option AE :=
  List.find (λ x, bool_decide (AccessibleElement.expression x
                               = AccessibleElement.expression e)) elements.

(** ** Quotes in an escaped string *)

Definition is_quote (c : ascii) : bool := (Js.code c =? 39)%N.

Definition is_backslash (c : ascii) : bool := (Js.code c =? 92)%N.

(** Some single quote of [s] does not stand right after a backslash;
    [after_backslash] tells whether the character before [s] is one. *)
Fixpoint has_bare_quote (after_backslash : bool) (s : string) : bool :=
  match s with
  | "" => false
  | String c s' =>
      (is_quote c && negb after_backslash) || has_bare_quote (is_backslash c) s'
  end.

(** ** Groups *)

(** The elements of a list that have the key [k], in the order of the
    list. *)
Definition members {T} (keyFn : T → string) (k : string) (elements : list T)
  : list T :=
  List.filter (λ e, bool_decide (keyFn e = k)) elements.

(** The group that [groupBy] is expected to hold under the key [k]: none
    when no element has that key. *)
Definition expected_group {T} (keyFn : T → string) (k : string)
    (elements : list T) : option (list T) :=
  match members keyFn k elements with
  | [] => None
  | group => Some group
  end.

(** ** Array-index selector expressions *)

(** The selector expression of the element is an array index. *)
Definition has_index_key (e : AE) : bool :=
  JsObject.is_array_index (AccessibleElement.expression e).

(** The index that the selector expression denotes (zero when it denotes
    none). *)
Definition index_of (e : AE) : N :=
  default 0%N (JsObject.array_index (AccessibleElement.expression e)).

(** The invariant of the accumulator of [groupBy]: its keys are pairwise
    distinct and none of them is the name of an inherited property. *)
Definition groups_ok {T} (groups : JsObject.t (list T)) : Prop :=
  NoDup groups.*1 ∧ ∀ k, k ∈ groups.*1 → k ∉ JsObject.prototype_keys.

(** A group has a first member, and the expression of that member is the
    key of the group. *)
Definition headed (kv : string * list AE) : Prop :=
  ∃ e, head kv.2 = Some e ∧ AccessibleElement.expression e = kv.1.

(** ** Faulted configurations *)

(** [maxTextLength] is given and negative. *)
Definition negative_maxTextLength {St} (config : PageObjectConfig St) : bool :=
  match maxTextLength config with
  | Some n => (n <? 0)%Z
  | None => false
  end.

(** [selectorPriorities] is given and empty. *)
Definition empty_selectorPriorities {St} (config : PageObjectConfig St) : bool :=
  match selectorPriorities config with
  | Some [] => true
  | _ => false
  end.

(** The messages of the faults of a configuration. *)
Definition validation_messages {St} (config : PageObjectConfig St) : list string :=
  ((if negative_maxTextLength config
    then ["maxTextLength must be at least 1"] else [])
   ++ (if empty_selectorPriorities config
       then ["selectorPriorities cannot be empty"] else []))%list.

(** ** More pages *)

(** A page that never reaches its load state and whose query is
    rejected. *)
Definition offline_driver : Driver unit RawNode unit :=
  {| drv_waitForLoadState := λ s, (Err "Timeout 5000ms exceeded", s);
     drv_all := λ _ s, (Err "Target closed", s);
     drv_read := λ node s, (Ok node, s);
     drv_locator := λ _ s, (Ok tt, s);
     drv_isVisible := λ _ s, (Ok true, s) |}.


(** The configuration [{ excludeSelectors: ['button'],
    includeHiddenElements: true, maxTextLength: 5 }]. *)
Definition config_of_ignored_fields {St} : PageObjectConfig St :=
  {| containerSelector := None; interactiveOnly := None; maxTextLength := Some 5%Z;
     namingConvention := Some snake_case; selectorPriorities := Some ["css"];
     excludeSelectors := Some ["button"]; includeSelectors := None;
     customElementTypes := None; elementTypeMappings := None;
     elementFilters := None; includeHiddenElements := Some true;
     enableRuntimeVisibilityCheck := None; includeHelpers := Some false |}.


(** ** The classifier *)

(** The roles that [getElementType] tests for. *)
Definition roles_consulted : list string :=
  [ "button"; "link"; "combobox"; "img"; "alert"; "status"; "alertdialog";
    "dialog"; "modal"; "tab" ].

(** ** Controls without a label *)

(** A button that has neither text nor an [aria-label]. *)
Definition unlabelled_button (e : AE) : bool :=
  (AccessibleElement.tagName e =? "button")%string
  && negb (Js.truthy (AccessibleElement.textContent e))
  && negb (Js.truthy (AccessibleElement.aria_label e)).

(** An image that has neither text nor an [aria-label] nor a non-empty
    [alt]. *)
Definition image_without_alt (e : AE) : bool :=
  (AccessibleElement.tagName e =? "img")%string
  && negb (Js.truthy (AccessibleElement.textContent e))
  && negb (Js.truthy (AccessibleElement.aria_label e))
  && negb (Js.truthy_opt (AccessibleElement.attributes e !! "alt")).

(** The record was made by [extractElementInfo]. *)
Definition extracted (url_hostname : string → option string) (e : AE) : Prop :=
  ∃ node index, e = extractElementInfo url_hostname node index.


(** ** The selectors of the query *)

(** The list of selectors that the query is built from. *)
Definition chosen_selectors {St} (config : MergedConfig St) : list string :=
  match m_includeSelectors config with
  | [] => if m_interactiveOnly config then interactiveSelectors else defaultSelectors
  | includeSelectors => includeSelectors
  end.

(** ** A filter of the caller's own *)

(** A filter whose synchronous part keeps the buttons and whose
    asynchronous part keeps the first element it is given. *)
Definition first_button_filter {St} : ElementFilter St :=
  {| filter_name := "FirstButton";
     filter_description := "Keeps the first button";
     filter_enabled := true;
     filter_sync := λ elements,
       Ok (List.filter (λ e, (AccessibleElement.type e =? "button")%string) elements);
     filterAsync := Some (λ elements, ret (take 1 elements)) |}.

(** The configuration [{ elementFilters: [filter] }]. *)
Definition config_with_filter {St} (filter : ElementFilter St) : PageObjectConfig St :=
  {| containerSelector := None; interactiveOnly := None; maxTextLength := None;
     namingConvention := None; selectorPriorities := None;
     excludeSelectors := None; includeSelectors := None;
     customElementTypes := None; elementTypeMappings := None;
     elementFilters := Some [filter]; includeHiddenElements := None;
     enableRuntimeVisibilityCheck := None; includeHelpers := None |}.

(* ================================================================== *)
(** * Part III: properties                                             *)
(* ================================================================== *)

(** ** Characters and strings *)

Lemma all_ascii_complete (c : ascii) : c ∈ all_ascii.
Proof.
  unfold all_ascii. apply list_elem_of_fmap.
  exists (Ascii.nat_of_ascii c). split.
  - by rewrite Ascii.ascii_nat_embedding.
  - apply elem_of_seq. pose proof (Ascii.nat_ascii_bounded c). lia.
Qed.

(** A property of characters that holds on the 256 of them. *)
Lemma ascii_forall (P : ascii → bool) :
  forallb P all_ascii = true → ∀ c, P c = true.
Proof.
  intros HP c. rewrite forallb_forall in HP.
  apply HP, list_elem_of_In, all_ascii_complete.
Qed.

Ltac by_chars := 
  let c := fresh "c" in
  intros c; revert c;
  match goal with
  | |- ∀ c, @?P c = true => apply (ascii_forall P); vm_compute; reflexivity
  end.

(** Closed decidable goals, such as membership in a literal list. *)
Ltac by_decision := apply (bool_decide_unpack _); vm_compute; exact I.

Lemma all_chars_app (p : ascii → bool) (s t : string) :
  Js.all_chars p (s +:+ t) = Js.all_chars p s && Js.all_chars p t.
Proof.
  induction s as [|c s IH]; simpl; [done|].
  rewrite IH. by rewrite andb_assoc.
Qed.

Lemma all_chars_impl (p q : ascii → bool) (s : string) :
  (∀ c, p c = true → q c = true) →
  Js.all_chars p s = true → Js.all_chars q s = true.
Proof.
  intros Hpq. induction s as [|c s IH]; simpl; [done|].
  rewrite !andb_true_iff. intros [? ?]. auto.
Qed.

Lemma all_chars_strip_leading (p q : ascii → bool) (s : string) :
  Js.all_chars p s = true → Js.all_chars p (Js.strip_leading q s) = true.
Proof.
  induction s as [|c s IH]; simpl; [done|].
  rewrite andb_true_iff. intros [Hc Hs].
  destruct (q c); [auto|]. simpl. by rewrite Hc, Hs.
Qed.

Lemma strip_leading_head (q : ascii → bool) (s : string) (c : ascii) (s' : string) :
  Js.strip_leading q s = String c s' → q c = false.
Proof.
  induction s as [|d s IH]; simpl; [done|].
  destruct (q d) eqn:Hd; [done|]. intros [= -> _]. done.
Qed.

Lemma all_chars_replace_class_delete (p : ascii → bool) (s : string) :
  Js.all_chars p (Js.replace_class (λ c, negb (p c)) "" s) = true.
Proof.
  induction s as [|c s IH]; simpl; [done|].
  destruct (p c) eqn:Hc; simpl; [by rewrite Hc|done].
Qed.

Lemma all_chars_toLowerCase (p q : ascii → bool) (s : string) :
  (∀ c, p c = true → q (Js.lower_char c) = true) →
  Js.all_chars p s = true → Js.all_chars q (Js.toLowerCase s) = true.
Proof.
  intros Hpq. induction s as [|c s IH]; simpl; [done|].
  rewrite !andb_true_iff. intros [? ?]. auto.
Qed.

Lemma toLowerCase_fixed (p : ascii → bool) (s : string) :
  (∀ c, p c = true → Js.lower_char c = c) →
  Js.all_chars p s = true → Js.toLowerCase s = s.
Proof.
  intros Hp. induction s as [|c s IH]; simpl; [done|].
  rewrite andb_true_iff. intros [? ?]. f_equal; auto.
Qed.

Lemma replace_class_fixed (p : ascii → bool) (r s : string) :
  Js.all_chars (λ c, negb (p c)) s = true → Js.replace_class p r s = s.
Proof.
  induction s as [|c s IH]; simpl; [done|].
  rewrite andb_true_iff, negb_true_iff. intros [-> ?]. f_equal; auto.
Qed.

Lemma lower_of_alnum (c : ascii) :
  Js.is_alnum c = true → is_lower_or_digit (Js.lower_char c) = true.
Proof.
  revert c.
  assert (∀ c, implb (Js.is_alnum c) (is_lower_or_digit (Js.lower_char c)) = true)
    as H by by_chars.
  intros c Hc. specialize (H c). by rewrite Hc in H.
Qed.

Lemma lower_of_lower_or_digit (c : ascii) :
  is_lower_or_digit c = true → Js.lower_char c = c.
Proof.
  assert (∀ c, implb (is_lower_or_digit c) (bool_decide (Js.lower_char c = c)) = true)
    as H by by_chars.
  intros Hc. specialize (H c). rewrite Hc in H. by apply bool_decide_eq_true in H.
Qed.

Lemma lower_or_digit_alnum (c : ascii) :
  is_lower_or_digit c = true → negb (negb (Js.is_alnum c)) = true.
Proof.
  assert (∀ c, implb (is_lower_or_digit c) (negb (negb (Js.is_alnum c))) = true)
    as H by by_chars.
  intros Hc. specialize (H c). by rewrite Hc in H.
Qed.

Lemma word_not_digit_start (c : ascii) :
  Js.is_word c = true → Js.is_digit c = false → is_ident_start c = true.
Proof.
  assert (∀ c, implb (Js.is_word c) (implb (negb (Js.is_digit c)) (is_ident_start c)) = true)
    as H by by_chars.
  intros Hw Hd. specialize (H c). by rewrite Hw, Hd in H.
Qed.

(** *** [sanitizeKey] *)

Lemma sanitizeKey_chars (input : string) :
  Js.all_chars is_lower_or_digit (sanitizeKey input) = true.
Proof.
  unfold sanitizeKey.
  apply all_chars_toLowerCase with (p := Js.is_alnum); [apply lower_of_alnum|].
  apply all_chars_replace_class_delete.
Qed.

Lemma sanitizeKey_fixed (s : string) :
  Js.all_chars is_lower_or_digit s = true → sanitizeKey s = s.
Proof.
  intros Hs. unfold sanitizeKey.
  rewrite replace_class_fixed.
  - by apply toLowerCase_fixed with (p := is_lower_or_digit);
      [apply lower_of_lower_or_digit|].
  - revert Hs. apply all_chars_impl, lower_or_digit_alnum.
Qed.

Lemma sanitizeKey_idempotent (s : string) :
  sanitizeKey (sanitizeKey s) = sanitizeKey s.
Proof. apply sanitizeKey_fixed, sanitizeKey_chars. Qed.

(** *** [toCamelCase] *)

Lemma camel_finish_identifier (joined : string) :
  is_identifier (camel_finish joined) = true.
Proof.
  unfold camel_finish.
  pose proof (all_chars_replace_class_delete Js.is_word joined) as Hw.
  apply (all_chars_strip_leading _ Js.is_digit) in Hw.
  destruct (Js.strip_leading Js.is_digit _) as [|c s] eqn:Hs; [done|].
  apply strip_leading_head in Hs.
  pose proof Hw as Hw'. simpl in Hw'. apply andb_true_iff in Hw' as [Hc _].
  pose proof (word_not_digit_start c Hc Hs) as Hstart.
  assert (negb (Js.is_alpha c || (Js.code c =? 95)%N || (Js.code c =? 36)%N) = false)
    as Hkeep.
  { unfold is_ident_start in Hstart. apply negb_false_iff.
    by rewrite Hstart. }
  unfold Js.strip_first. rewrite Hkeep. unfold Js.or_else, Js.truthy.
  unfold is_identifier. by rewrite Hstart, Hw.
Qed.

Lemma toCamelCase_identifier (input : string) :
  is_identifier (toCamelCase input) = true.
Proof.
  unfold toCamelCase. destruct (negb (Js.truthy input)); [done|].
  apply camel_finish_identifier.
Qed.

Lemma all_chars_replace_class (p p0 q : ascii → bool) (r s : string) :
  Js.all_chars q r = true →
  (∀ c, p0 c = true → p c = false → q c = true) →
  Js.all_chars p0 s = true → Js.all_chars q (Js.replace_class p r s) = true.
Proof.
  intros Hr Hq. induction s as [|c s IH]; simpl; [done|].
  rewrite andb_true_iff. intros [Hc Hs].
  destruct (p c) eqn:Hp.
  - rewrite all_chars_app, Hr. auto.
  - simpl. rewrite (Hq c Hc Hp). auto.
Qed.

Lemma all_chars_replace_runs (p q : ascii → bool) (r : string) (b : bool) (s : string) :
  Js.all_chars q r = true →
  Js.all_chars q s = true → Js.all_chars q (Js.replace_runs p r b s) = true.
Proof.
  intros Hr. revert b. induction s as [|c s IH]; intros b; simpl; [done|].
  rewrite andb_true_iff. intros [Hc Hs].
  destruct (p c), b; simpl; rewrite ?all_chars_app, ?Hr, ?Hc; simpl; auto.
Qed.

Lemma all_chars_rev_app (q : ascii → bool) (s t : string) :
  Js.all_chars q (String.rev_app s t) = Js.all_chars q s && Js.all_chars q t.
Proof.
  revert t. induction s as [|c s IH]; intros t; simpl; [done|].
  rewrite IH. simpl. by destruct (q c), (Js.all_chars q s).
Qed.

Lemma all_chars_rev (q : ascii → bool) (s : string) :
  Js.all_chars q (String.rev s) = Js.all_chars q s.
Proof. unfold String.rev. rewrite all_chars_rev_app. simpl. apply andb_true_r. Qed.

Lemma all_chars_trim (q : ascii → bool) (s : string) :
  Js.all_chars q s = true → Js.all_chars q (Js.trim s) = true.
Proof.
  intros Hs. unfold Js.trim, Js.trimEnd, Js.trimStart.
  rewrite all_chars_rev. apply all_chars_strip_leading.
  rewrite all_chars_rev. by apply all_chars_strip_leading.
Qed.

Lemma all_chars_split (q : ascii → bool) (sep : ascii) (s : string) :
  Js.all_chars q s = true → Forall (λ w, Js.all_chars q w = true) (Js.split sep s).
Proof.
  induction s as [|c s IH]; simpl; [by repeat constructor|].
  rewrite andb_true_iff. intros [Hc Hs]. specialize (IH Hs).
  case_bool_decide; [by constructor|].
  destruct (Js.split sep s) as [|w ws]; [repeat constructor; simpl; by rewrite Hc|].
  inversion_clear IH. constructor; [|done]. simpl. by rewrite Hc.
Qed.

Lemma all_chars_join_empty (q : ascii → bool) (ws : list string) :
  Forall (λ w, Js.all_chars q w = true) ws → Js.all_chars q (Js.join "" ws) = true.
Proof.
  induction 1 as [|w ws Hw Hws IH]; simpl; [done|].
  destruct ws; [done|]. rewrite !all_chars_app, Hw. simpl. exact IH.
Qed.

Lemma Forall_imap_chars (q : ascii → bool) (f : nat → string → string)
    (ws : list string) :
  (∀ i w, Js.all_chars q w = true → Js.all_chars q (f i w) = true) →
  Forall (λ w, Js.all_chars q w = true) ws →
  Forall (λ w, Js.all_chars q w = true) (imap f ws).
Proof.
  intros Hf Hws. revert f Hf.
  induction Hws as [|w ws Hw Hws IH]; intros f Hf; simpl; constructor; auto.
  apply IH. intros i. apply Hf.
Qed.

Lemma all_chars_toUpperCase (p q : ascii → bool) (s : string) :
  (∀ c, p c = true → Js.all_chars q (Js.upper_char c) = true) →
  Js.all_chars p s = true → Js.all_chars q (Js.toUpperCase s) = true.
Proof.
  intros Hpq. induction s as [|c s IH]; simpl; [done|].
  rewrite andb_true_iff. intros [? ?]. rewrite all_chars_app, Hpq by done. auto.
Qed.

Lemma camel_word_digit_or_space (i : nat) (w : string) :
  Js.all_chars is_digit_or_space w = true →
  Js.all_chars is_digit_or_space (camel_word i w) = true.
Proof.
  assert (∀ c, is_digit_or_space c = true →
               is_digit_or_space (Js.lower_char c) = true) as Hlow.
  { assert (∀ c, implb (is_digit_or_space c)
                       (is_digit_or_space (Js.lower_char c)) = true) as H by by_chars.
    intros c Hc. specialize (H c). by rewrite Hc in H. }
  assert (∀ c, is_digit_or_space c = true →
               Js.all_chars is_digit_or_space (Js.upper_char c) = true) as Hup.
  { assert (∀ c, implb (is_digit_or_space c)
                       (Js.all_chars is_digit_or_space (Js.upper_char c)) = true)
      as H by by_chars.
    intros c Hc. specialize (H c). by rewrite Hc in H. }
  intros Hw. destruct i as [|i]; simpl.
  - by apply all_chars_toLowerCase with (p := is_digit_or_space).
  - rewrite all_chars_app. apply andb_true_iff. split.
    + apply all_chars_toUpperCase with (p := is_digit_or_space); [done|].
      destruct w; simpl in *; [done|]. apply andb_true_iff in Hw as [-> _]. done.
    + apply all_chars_toLowerCase with (p := is_digit_or_space); [done|].
      destruct w; simpl in *; [done|]. by apply andb_true_iff in Hw as [_ ->].
Qed.

Lemma strip_leading_all (p : ascii → bool) (s : string) :
  Js.all_chars p s = true → Js.strip_leading p s = "".
Proof.
  induction s as [|c s IH]; simpl; [done|].
  rewrite andb_true_iff. intros [-> ?]. auto.
Qed.

(** When the input has no letter and no underscore, nothing valid remains
    and the default is returned. *)
Lemma toCamelCase_nothing_valid (input : string) :
  Js.all_chars (λ c, negb (is_ident_start c)) input = true →
  toCamelCase input = "element".
Proof.
  intros Hin. unfold toCamelCase.
  destruct (negb (Js.truthy input)); [done|].
  match goal with
  | |- context [Js.join "" ?ws] =>
      assert (Js.all_chars is_digit_or_space (Js.join "" ws) = true) as Hj
  end.
  { apply all_chars_join_empty, Forall_imap_chars; [apply camel_word_digit_or_space|].
    apply all_chars_split, all_chars_trim, all_chars_replace_runs; [done|].
    revert Hin. apply all_chars_replace_class; [done|].
    assert (∀ c, implb (negb (is_ident_start c))
                   (implb (negb (negb (Js.is_word c || Js.is_space c)))
                          (is_digit_or_space c)) = true) as H by by_chars.
    intros c Hc Hk. specialize (H c). by rewrite Hc, Hk in H. }
  match goal with
  | |- context [Js.replace_class ?p "" ?j] =>
      assert (Js.all_chars Js.is_digit (Js.replace_class p "" j) = true) as Hd
  end.
  { revert Hj. apply all_chars_replace_class; [done|].
    assert (∀ c, implb (is_digit_or_space c)
                   (implb (negb (negb (Js.is_word c))) (Js.is_digit c)) = true)
      as H by by_chars.
    intros c Hc Hk. specialize (H c). by rewrite Hc, Hk in H. }
  by rewrite (strip_leading_all _ _ Hd).
Qed.

(** *** Property names and selector keys *)

Lemma toCamelCase_truthy (input : string) : Js.truthy (toCamelCase input) = true.
Proof.
  pose proof (toCamelCase_identifier input) as H.
  by destruct (toCamelCase input).
Qed.

Lemma generatePropertyName_toCamelCase (url_hostname : string → option string)
    (elementType tagName textContent ariaLabel placeholder nameAttr id : string)
    (attributes : gmap string string) (index : nat) :
  ∃ name, generatePropertyName url_hostname elementType tagName textContent
            ariaLabel placeholder nameAttr id attributes index = toCamelCase name.
Proof.
  unfold generatePropertyName.
  eexists. unfold Js.or_else. by rewrite toCamelCase_truthy.
Qed.

Lemma generateSelector_key (url_hostname : string → option string)
    (tagName role textContent ariaLabel placeholder : string)
    (attributes : gmap string string) (index : nat) :
  let k := ElementSelector.key
             (generateSelector url_hostname tagName role textContent ariaLabel
                placeholder attributes index) in
  (∃ value, k = sanitizeKey value)
  ∨ k ∈ positional_keys url_hostname tagName attributes index.
Proof.
  unfold generateSelector, positional_keys.
  repeat case_match; simpl;
    first [ left; eexists; reflexivity | right; set_solver ].
Qed.

(** Claim C10, as amended.  [toCamelCase] always returns a well-formed
    identifier (non-empty, made of ASCII letters, digits and underscores,
    starting with a letter or an underscore), and returns ['element'] when
    the input holds no letter and no underscore; [sanitizeKey] returns
    lower-case ASCII letters and digits only and is idempotent; hence every
    property name that [generatePropertyName] produces is a well-formed
    identifier, and every selector key is either a result of [sanitizeKey]
    or one of the positional and href-derived keys, which carry the raw tag
    name or host name. *)
Theorem C10_identifiers_and_keys :
  (∀ input, is_identifier (toCamelCase input) = true)
  ∧ (∀ input, Js.all_chars (λ c, negb (is_ident_start c)) input = true →
              toCamelCase input = "element")
  ∧ (∀ input, Js.all_chars is_lower_or_digit (sanitizeKey input) = true)
  ∧ (∀ s, sanitizeKey (sanitizeKey s) = sanitizeKey s)
  ∧ (∀ url_hostname elementType tagName textContent ariaLabel placeholder
       nameAttr id attributes index,
       is_identifier
         (generatePropertyName url_hostname elementType tagName textContent
            ariaLabel placeholder nameAttr id attributes index) = true)
  ∧ (∀ url_hostname tagName role textContent ariaLabel placeholder attributes index,
       let k := ElementSelector.key
                  (generateSelector url_hostname tagName role textContent
                     ariaLabel placeholder attributes index) in
       Js.all_chars is_lower_or_digit k = true
       ∨ k ∈ positional_keys url_hostname tagName attributes index).
Proof.
  split; [exact toCamelCase_identifier|].
  split; [exact toCamelCase_nothing_valid|].
  split; [exact sanitizeKey_chars|].
  split; [exact sanitizeKey_idempotent|].
  split.
  - intros url elementType tagName textContent ariaLabel placeholder nameAttr
      id attributes index.
    destruct (generatePropertyName_toCamelCase url elementType tagName
                textContent ariaLabel placeholder nameAttr id attributes index)
      as [name ->].
    apply toCamelCase_identifier.
  - intros url tagName role textContent ariaLabel placeholder attributes index k.
    destruct (generateSelector_key url tagName role textContent ariaLabel
                placeholder attributes index) as [[value Hk]|Hk].
    + left. subst k. rewrite Hk. apply sanitizeKey_chars.
    + by right.
Qed.

Lemma C10_identifiers_and_keys_witness :
  Js.all_chars (λ c, negb (is_ident_start c)) "12 + 30 = 42" = true
  ∧ toCamelCase "12 + 30 = 42" = "element".
Proof.
  split; [reflexivity|].
  apply (proj1 (proj2 C10_identifiers_and_keys)). reflexivity.
Defined.

(** The selector key of a custom element without any naming attribute is
    its tag name and its index: the hyphen of the tag name is kept, so the
    key is not made of identifier characters. *)
Lemma C10_counterexample_selector_key :
  ElementSelector.key
    (generateSelector (λ _, None) "my-widget" "" "" "" "" ∅ 0) = "my-widget_0"
  ∧ Js.all_chars Js.is_word "my-widget_0" = false.
Proof. split; reflexivity. Qed.

(** ** The end-to-end scenario of the e-mail input *)

(** Claim C7.  For an [input] node with empty role, type attribute
    [email] and aria-label [Email Address], [getElementType] yields
    ['email'], [generateSelector] takes the label branch and yields the
    expression [getByLabel('Email Address')], [generatePropertyName]
    camel-cases the aria-label into ['emailAddress'], and the extraction of
    a document that holds just this node returns one record with these
    three values. *)
Theorem C7_email_input_scenario :
  getElementType "input" "" "email" = "email"
  ∧ (∀ url_hostname textContent placeholder attributes index,
       generateSelector url_hostname "input" "" textContent "Email Address"
         placeholder attributes index
       = ElementSelector.mk "getByLabel('Email Address')" "emailaddress")
  ∧ (∀ url_hostname elementType tagName textContent placeholder nameAttr id
       attributes index,
       generatePropertyName url_hostname elementType tagName textContent
         "Email Address" placeholder nameAttr id attributes index
       = "emailAddress")
  ∧ (∀ url_hostname index,
       let el := extractElementInfo url_hostname email_input index in
       AccessibleElement.type el = "email"
       ∧ AccessibleElement.expression el = "getByLabel('Email Address')"
       ∧ AccessibleElement.propertyName el = "emailAddress"
       ∧ AccessibleElement.tagName el = "input"
       ∧ AccessibleElement.role el = "")
  ∧ (∃ el w,
       extractAccessibleElements (static_driver [email_input]) (λ _, None)
         empty_config fresh_world = (Ok [el], w)
       ∧ AccessibleElement.type el = "email"
       ∧ AccessibleElement.expression el = "getByLabel('Email Address')"
       ∧ AccessibleElement.propertyName el = "emailAddress").
Proof.
  split; [reflexivity|].
  split; [reflexivity|].
  split; [reflexivity|].
  split.
  - intros url index. vm_compute. tauto.
  - eexists _, _. split; [vm_compute; reflexivity|]. vm_compute. tauto.
Qed.

(** ** Further scenarios of the specification *)

Example toCamelCase_samples :
  toCamelCase "Email Address" = "emailAddress"
  ∧ toCamelCase "" = "element"
  ∧ toCamelCase "  Sign   in! " = "signIn"
  ∧ toCamelCase "2nd-step_done" = "ndStep_done"
  ∧ toCamelCase "42" = "element".
Proof. repeat split; vm_compute; reflexivity. Qed.

Example sanitizeKey_samples :
  sanitizeKey "Sign In!" = "signin" ∧ sanitizeKey "--" = "".
Proof. split; vm_compute; reflexivity. Qed.

(** A button with text, test id and id is located by its role and name:
    the text branch of the button comes before the test-id and id
    branches. *)
Example cascade_prefers_role :
  generateSelector (λ _, None) "button" "" "Submit" "" ""
    {[ "data-testid" := "x"; "id" := "y" ]} 0
  = ElementSelector.mk "getByRole('button', { name: 'Submit' })" "submit".
Proof. vm_compute. reflexivity. Qed.

(** A link without text to a social domain is named after the domain. *)
Example twitter_link_name :
  AccessibleElement.propertyName
    (extractElementInfo (λ _, None)
       (node_of "A" "" {[ "href" := "https://twitter.com/foo" ]}) 0)
  = "twitter".
Proof. vm_compute. reflexivity. Qed.

(** Two identical buttons leave the extraction as one element. *)
Example duplicate_buttons_collapse :
  (extractAccessibleElements
     (static_driver [node_of "BUTTON" "Submit" ∅; node_of "BUTTON" "Submit" ∅])
     (λ _, None) empty_config fresh_world).1
  = Ok [extractElementInfo (λ _, None) (node_of "BUTTON" "Submit" ∅) 0].
Proof. vm_compute. reflexivity. Qed.

(** ** The classifier and the element-type table *)

Lemma table_checked :
  forallb (λ row, forallb (table_entry_ok row.1) row.2) DEFAULT_ELEMENT_TYPES = true.
Proof. vm_compute. reflexivity. Qed.

Lemma getElementType_truthy (tagName role type : string) :
  Js.truthy (getElementType tagName role type) = true.
Proof.
  unfold getElementType.
  repeat match goal with
         | |- Js.truthy (if ?b then _ else _) = true => destruct b eqn:?
         end; try reflexivity.
  - (* a special input type: a member of a list of non-empty literals *)
    match goal with
    | H : Js.mem ?t _ = true |- _ =>
        apply bool_decide_eq_true in H;
        repeat (apply elem_of_cons in H as [->|H]; [reflexivity|]);
        by apply elem_of_nil in H
    end.
  - unfold Js.or_else. by destruct (Js.truthy (Js.toLowerCase tagName)) eqn:Ht.
Qed.

Lemma button_patterns_total (p : Pattern) (tagName role type : string) :
  p ∈ [Tag "button"; TagType "input" "button"; TagType "input" "submit";
       TagType "input" "reset"; Role "button"] →
  matches p tagName role type = true →
  getElementType tagName role type = "button".
Proof.
  intros Hp Hm.
  repeat (apply elem_of_cons in Hp as [->|Hp]);
    [..|by apply elem_of_nil in Hp]; simpl in Hm;
    repeat match goal with
           | H : _ && _ = true |- _ => apply andb_true_iff in H as [? ?]
           | H : bool_decide _ = true |- _ => apply bool_decide_eq_true in H; subst
           end;
    unfold getElementType;
    repeat match goal with
           | |- context [Js.toLowerCase ?x =? "button"] =>
               is_var x; destruct (Js.toLowerCase x =? "button")
           end;
    reflexivity.
Qed.

(** Claim C2, as stated, fails on its first example: the table lists the
    tag [nav] under [navigation], and the classifier answers [text]. *)
Lemma C2_counterexample_nav :
  ("navigation", [Tag "nav"; Role "navigation"]) ∈ DEFAULT_ELEMENT_TYPES
  ∧ matches (Tag "nav") "nav" "" "" = true
  ∧ getElementType "nav" "" "" = "text"
  ∧ "text" ≠ "navigation".
Proof.
  split; [|split; [reflexivity|split; [reflexivity|discriminate]]].
  by_decision.
Qed.

(** Claim C2, as amended.  [getElementType] is total and its answer is
    never the empty string.  Every node that matches a pattern listed under
    [button] is classified [button].  For every other pattern of the table,
    apart from those in [unsupported_patterns], the plain node of the
    pattern receives the type under which the table lists it.  By the
    classifier's own lists, an [input] whose type is [email], [password],
    [tel] or [url] is classified by that type, and the tags [nav], [main],
    [aside], [header], [footer], [section] and [article] are classified
    [text]. *)
Theorem C2_classifier_and_table :
  (∀ tagName role type, getElementType tagName role type ≠ "")
  ∧ (∀ p tagName role type,
       p ∈ [Tag "button"; TagType "input" "button"; TagType "input" "submit";
            TagType "input" "reset"; Role "button"] →
       matches p tagName role type = true →
       getElementType tagName role type = "button")
  ∧ (∀ ty patterns p,
       (ty, patterns) ∈ DEFAULT_ELEMENT_TYPES → p ∈ patterns →
       p ∉ unsupported_patterns →
       classify_plain p = ty)
  ∧ (∀ type, type ∈ ["email"; "password"; "tel"; "url"] →
             getElementType "input" "" type = type)
  ∧ (∀ tag, tag ∈ ["nav"; "main"; "aside"; "header"; "footer"; "section"; "article"] →
            getElementType tag "" "" = "text").
Proof.
  split.
  { intros tagName role type Heq.
    pose proof (getElementType_truthy tagName role type) as H.
    by rewrite Heq in H. }
  split; [exact button_patterns_total|].
  split.
  { intros ty patterns p Hrow Hp Hsup.
    pose proof table_checked as Hall. rewrite forallb_forall in Hall.
    specialize (Hall (ty, patterns)). rewrite <- list_elem_of_In in Hall.
    specialize (Hall Hrow). simpl in Hall. rewrite forallb_forall in Hall.
    specialize (Hall p). rewrite <- list_elem_of_In in Hall.
    specialize (Hall Hp). unfold table_entry_ok in Hall.
    apply orb_true_iff in Hall as [Hbad|Hok].
    - by apply bool_decide_eq_true in Hbad.
    - by apply String.eqb_eq in Hok. }
  split.
  - intros type Ht.
    repeat (apply elem_of_cons in Ht as [->|Ht]; [reflexivity|]).
    by apply elem_of_nil in Ht.
  - intros tag Ht.
    repeat (apply elem_of_cons in Ht as [->|Ht]; [reflexivity|]).
    by apply elem_of_nil in Ht.
Qed.

Lemma C2_classifier_and_table_witness :
  classify_plain (Role "combobox") = "select"
  ∧ getElementType "INPUT" "button" "checkbox" = "button"
  ∧ getElementType "input" "" "tel" = "tel"
  ∧ getElementType "header" "" "" = "text".
Proof.
  destruct C2_classifier_and_table as (_ & Hbutton & Htable & Hinput & Htext).
  split; [|split; [|split]].
  - apply (Htable "select" [Tag "select"; Role "combobox"; Role "listbox"]).
    + by_decision.
    + by_decision.
    + by_decision.
  - apply (Hbutton (Role "button")); [by_decision|reflexivity].
  - apply Hinput. by_decision.
  - apply Htext. by_decision.
Defined.

(** ** The hidden-element stage *)

Lemma List_filter_sublist {A} (f : A → bool) (l : list A) :
  List.filter f l `sublist_of` l.
Proof.
  induction l as [|x l IH]; simpl; [constructor|].
  destruct (f x); by constructor.
Qed.

Lemma HiddenElementFilter_sublist (elements : list AE) :
  HiddenElementFilter.filter elements `sublist_of` elements.
Proof. apply List_filter_sublist. Qed.

Lemma HiddenElementFilter_elem_of (element : AE) (elements : list AE) :
  element ∈ HiddenElementFilter.filter elements
  ↔ element ∈ elements ∧ HiddenElementFilter.keep element = true.
Proof.
  unfold HiddenElementFilter.filter.
  rewrite !list_elem_of_In, filter_In. tauto.
Qed.

Lemma hidden_empty_dropped (element : AE) (elements : list AE) :
  AccessibleElement.attributes element !! "hidden" = Some "" →
  element ∉ HiddenElementFilter.filter elements.
Proof.
  intros Hattr [_ Hkeep]%HiddenElementFilter_elem_of.
  unfold HiddenElementFilter.keep, attr_is in Hkeep.
  rewrite Hattr in Hkeep. by rewrite bool_decide_eq_true_2 in Hkeep.
Qed.

Lemma aria_hidden_true_dropped (element : AE) (elements : list AE) :
  AccessibleElement.attributes element !! "aria-hidden" = Some "true" →
  element ∉ HiddenElementFilter.filter elements.
Proof.
  intros Hattr [_ Hkeep]%HiddenElementFilter_elem_of.
  unfold HiddenElementFilter.keep, attr_is in Hkeep.
  rewrite Hattr in Hkeep.
  rewrite (bool_decide_eq_true_2 (Some "true" = Some "true")) in Hkeep by done.
  by rewrite orb_true_r in Hkeep.
Qed.

(** Claim C4 at an element whose [hidden] attribute has a value: the
    attribute snapshot contains the key [hidden], no other condition of the
    stage applies, and the stage keeps the element; with the empty value
    the same element is dropped. *)
Theorem C4_hidden_with_value_is_kept :
  AccessibleElement.attributes hidden_until_found !! "hidden" = Some "until-found"
  ∧ HiddenElementFilter.filter [hidden_until_found] = [hidden_until_found]
  ∧ HiddenElementFilter.filter
      [extractElementInfo (λ _, None)
         (node_of "DIV" "Results" {[ "hidden" := ""; "id" := "results" ]}) 0] = [].
Proof. split; [|split]; vm_compute; reflexivity. Qed.

(** ** Escaping in the selector synthesizer *)

(** The branches that embed an accessible name, a label, a placeholder, a
    text or an alternative text pass it through [escapeString]. *)
Lemma label_branch_escapes (url_hostname : string → option string)
    (textContent ariaLabel placeholder : string)
    (attributes : gmap string string) (index : nat) :
  Js.truthy ariaLabel = true →
  ElementSelector.selector
    (generateSelector url_hostname "input" "" textContent ariaLabel placeholder
       attributes index)
  = "getByLabel('" +:+ escapeString ariaLabel +:+ "')".
Proof. intros Hl. unfold generateSelector. simpl. by rewrite Hl. Qed.

(** Claim C5 at values that hold a single quote.  The test-id, id, name
    and href branches interpolate the attribute value as it is: the quote
    reaches the expression without the backslash that [escapeString] would
    put before it. *)
Theorem C5_attribute_values_not_escaped :
  escapeString "user's" = "user\'s"
  ∧ ElementSelector.selector
      (generateSelector (λ _, None) "div" "" "" "" ""
         {[ "data-testid" := "user's" ]} 0)
    = "getByTestId('user's')"
  ∧ ElementSelector.selector
      (generateSelector (λ _, None) "div" "" "" "" "" {[ "id" := "user's" ]} 0)
    = "locator('#user's')"
  ∧ ElementSelector.selector
      (generateSelector (λ _, None) "div" "" "" "" "" {[ "name" := "user's" ]} 0)
    = "locator('[name=" +:+ Js.dq +:+ "user's" +:+ Js.dq +:+ "]')"
  ∧ ElementSelector.selector
      (generateSelector (λ _, None) "a" "" "" "" "" {[ "href" := "/user's" ]} 0)
    = "locator('a[href=" +:+ Js.dq +:+ "/user's" +:+ Js.dq +:+ "]')"
  ∧ ElementSelector.selector
      (generateSelector (λ _, None) "div" "" "user's" "" "" ∅ 0)
    = "getByText('user\'s')".
Proof. repeat split; vm_compute; reflexivity. Qed.

(** ** Configuration validation and the first interaction with the page *)

Section Validation.

Context {St H L : Type}.
Variable drv : Driver St H L.
Variable url_hostname : string → option string.

Lemma grows_ret {A} (a : A) : grows (@ret St A a).
Proof. intros w. exists []. simpl. by rewrite app_nil_r. Qed.

Lemma grows_throw {A} (msg : string) : grows (@throw St A msg).
Proof. intros w. exists []. simpl. by rewrite app_nil_r. Qed.

Lemma grows_lift {A} (r : result A) : grows (@lift St A r).
Proof. intros w. exists []. simpl. by rewrite app_nil_r. Qed.

Lemma grows_call {A} (ev : DomEvent) (op : St → result A * St) : grows (call ev op).
Proof. intros w. exists [ev]. unfold call. by destruct (op (page w)). Qed.

Lemma grows_bind {A B} (m : M St A) (k : A → M St B) :
  grows m → (∀ a, grows (k a)) → grows (bind m k).
Proof.
  intros Hm Hk w. unfold bind.
  destruct (Hm w) as [ev1 H1]. destruct (m w) as [[a|e] w1]; simpl in *.
  - destruct (Hk a w1) as [ev2 H2]. exists (ev1 ++ ev2)%list.
    by rewrite H2, H1, app_assoc.
  - by exists ev1.
Qed.

Lemma grows_try_catch {A} (m : M St A) (handler : string → M St A) :
  grows m → (∀ e, grows (handler e)) → grows (try_catch m handler).
Proof.
  intros Hm Hh w. unfold try_catch.
  destruct (Hm w) as [ev1 H1]. destruct (m w) as [[a|e] w1]; simpl in *.
  - by exists ev1.
  - destruct (Hh e w1) as [ev2 H2]. exists (ev1 ++ ev2)%list.
    by rewrite H2, H1, app_assoc.
Qed.

Lemma grows_executeWithTimeout {A} (m : M St A) (timeoutMs : Z)
    (operationName : string) :
  grows m → grows (executeWithTimeout m timeoutMs operationName).
Proof. intros Hm. apply grows_try_catch; [done|]. intros e. apply grows_throw. Qed.

Lemma grows_process_element (element : H) (globalIndex : nat) :
  grows (process_element drv url_hostname element globalIndex).
Proof.
  apply grows_try_catch; [|intros; apply grows_ret].
  apply grows_bind; [|intros; apply grows_ret].
  apply grows_executeWithTimeout, grows_call.
Qed.

Lemma grows_process_batch (i batchIndex : nat) (batch : list H) :
  grows (process_batch drv url_hostname i batchIndex batch).
Proof.
  revert batchIndex. induction batch as [|element rest IH]; intros batchIndex; simpl.
  - apply grows_ret.
  - apply grows_bind; [apply grows_process_element|]. intros r.
    apply grows_bind; [apply IH|]. intros rs. apply grows_ret.
Qed.

Lemma grows_batch_loop (iterations i : nat) (elementHandles : list H)
    (elementDetails : list AE) :
  grows (batch_loop drv url_hostname iterations i elementHandles elementDetails).
Proof.
  revert i elementDetails.
  induction iterations as [|n IH]; intros i elementDetails; simpl.
  - apply grows_ret.
  - apply grows_bind; [apply grows_process_batch|]. intros rs. apply IH.
Qed.

(** A configuration that [validateConfig] faults is rejected with the
    page untouched: no event is recorded and the page state is the one of
    the call. *)
Lemma invalid_config_rejected (config : PageObjectConfig St) (w : World St) :
  existsb is_error (validateConfig config) = true →
  ∃ message,
    extractAccessibleElements drv url_hostname config w = (Err message, w)
    ∧ Js.startsWith "Element extraction failed: Configuration validation failed: "
        message = true.
Proof.
  intros Hbad.
  unfold extractAccessibleElements, _extractAccessibleElementsInternal,
    executeWithTimeout, try_catch, throw.
  rewrite Hbad. eexists. split; [reflexivity|]. vm_compute. reflexivity.
Qed.

Lemma negative_maxTextLength_invalid (config : PageObjectConfig St) (n : Z) :
  maxTextLength config = Some n → (n < 0)%Z →
  existsb is_error (validateConfig config) = true.
Proof.
  intros Hn Hneg. unfold validateConfig. rewrite Hn.
  assert ((n =? 0)%Z = false) as -> by lia.
  assert ((n <? 1)%Z = true) as -> by lia.
  simpl. by destruct (selectorPriorities config) as [[|]|].
Qed.

Lemma empty_selectorPriorities_invalid (config : PageObjectConfig St) :
  selectorPriorities config = Some [] →
  existsb is_error (validateConfig config) = true.
Proof.
  intros Hp. unfold validateConfig. rewrite Hp. simpl.
  destruct (match maxTextLength config with
            | Some n => negb (n =? 0)%Z && (n <? 1)%Z
            | None => false
            end); reflexivity.
Qed.

(** Claim C3 at [maxTextLength = 0].  [validateConfig] reports nothing,
    and on every page the call goes on to interact with the document: the
    wait for the load state is recorded in the trace. *)
Theorem C3_zero_maxTextLength_not_rejected (w : World St) :
  validateConfig (config_maxTextLength (St := St) 0) = []
  ∧ ∃ r w' events,
      extractAccessibleElements drv url_hostname (config_maxTextLength 0) w
        = (r, w')
      ∧ trace w' = (trace w ++ WaitForLoadState :: events)%list.
Proof.
  split; [reflexivity|].
  unfold extractAccessibleElements, _extractAccessibleElementsInternal.
  change (existsb is_error (validateConfig (config_maxTextLength 0))) with false.
  cbv iota.
  set (selector := buildSelectorString _).
  set (rest := λ _ : unit, bind _ _).
  assert (∀ u, grows (rest u)) as Hrest.
  { intros u. unfold rest.
    apply grows_bind; [apply grows_executeWithTimeout, grows_call|].
    intros handles.
    apply grows_bind; [apply grows_batch_loop|]. intros details.
    apply grows_bind; [apply grows_lift|]. intros filtered.
    apply grows_bind; [|intros; apply grows_ret].
    simpl. apply grows_ret. }
  clearbody rest.
  unfold executeWithTimeout, try_catch, bind, call, throw, ret.
  destruct (drv_waitForLoadState drv (page w)) as [[[]|e] s1];
    match goal with
    | |- context [rest tt ?w1] =>
        destruct (Hrest tt w1) as [events Hev];
        destruct (rest tt w1) as [[out|e'] w']; simpl in *;
        eexists _, _, events; (split; [reflexivity|]);
        rewrite Hev; by rewrite <- app_assoc
    end.
Qed.

End Validation.

(** ** The runtime-visibility stage *)

Section Visibility.

Context {St H L : Type}.
Variable drv : Driver St H L.

Lemma visibility_step_spec (visibleElements : list AE) (element : AE) (w : World St) :
  ∃ w', visibility_step drv visibleElements element w
        = (Ok (visibleElements
                ++ survivors [element]
                     [(check drv (AccessibleElement.selector element) (page w)).1])%list,
           w')
      ∧ page w' = (check drv (AccessibleElement.selector element) (page w)).2.
Proof.
  unfold visibility_step, try_catch, bind, call, ret, check. simpl.
  destruct (drv_locator drv _ (page w)) as [[locator|e] s1]; simpl.
  - destruct (drv_isVisible drv locator s1) as [[[]|e] s2]; simpl;
      rewrite ?app_nil_r; eauto.
  - eauto.
Qed.

Lemma visibility_loop_spec (elements visibleElements : list AE) (w : World St) :
  ∃ w', visibility_loop drv elements visibleElements w
        = (Ok (visibleElements ++ survivors elements (checks drv elements (page w)))%list,
           w').
Proof.
  revert visibleElements w.
  induction elements as [|element rest IH]; intros visibleElements w; simpl.
  - exists w. unfold ret. by rewrite app_nil_r.
  - unfold bind.
    destruct (visibility_step_spec visibleElements element w) as (w1 & -> & Hpage).
    destruct (IH (visibleElements
                    ++ survivors [element]
                         [(check drv (AccessibleElement.selector element) (page w)).1])%list
                 w1) as [w' ->].
    exists w'. f_equal. f_equal. rewrite Hpage.
    destruct (check drv (AccessibleElement.selector element) (page w)) as [c s'].
    simpl. rewrite <- app_assoc. by destruct c.
Qed.

Lemma survivors_sublist (elements : list AE) (cs : list Check) :
  survivors elements cs `sublist_of` elements.
Proof.
  revert cs. induction elements as [|element rest IH]; intros [|c cs]; simpl;
    try apply sublist_nil_l.
  destruct c; by constructor.
Qed.

Lemma survivors_kept (elements : list AE) (cs : list Check) (i : nat)
    (element : AE) (c : Check) :
  elements !! i = Some element → cs !! i = Some c → c ≠ NotVisible →
  element ∈ survivors elements cs.
Proof.
  revert cs i. induction elements as [|e rest IH]; intros [|c' cs] [|i]; simpl;
    try done.
  - intros [= ->] [= ->] Hc. destruct c; [left|done|left].
  - intros He Hc Hne. specialize (IH cs i He Hc Hne).
    destruct c'; [by right|done|by right].
Qed.

Lemma survivors_length (elements : list AE) (cs : list Check) :
  length cs = length elements →
  length (survivors elements cs)
  = length (List.filter (λ c, negb (bool_decide (c = NotVisible))) cs).
Proof.
  revert cs. induction elements as [|e rest IH]; intros [|c cs]; simpl; try done.
  intros [= Hlen]. specialize (IH cs Hlen). destruct c; simpl; lia.
Qed.

Lemma checks_length (elements : list AE) (s : St) :
  length (checks drv elements s) = length elements.
Proof.
  revert s. induction elements as [|e rest IH]; intros s; simpl; [done|].
  destruct (check drv _ s). simpl. by rewrite IH.
Qed.

End Visibility.

(** Claim C8.  With the stage disabled the input list is returned as it
    is and the page is not touched.  With the stage enabled the call
    resolves, and its result consists of the elements whose check did not
    end in not-visible, in their original order: an element whose selector
    resolution or visibility query raises is kept, and an element reported
    not visible is dropped. *)
Theorem C8_visibility_filter {St H L : Type} (drv : Driver St H L)
    (elements : list AE) (w : World St) :
  VisibilityFilter_filterAsync drv false elements w = (Ok elements, w)
  ∧ ∃ out w',
      VisibilityFilter_filterAsync drv true elements w = (Ok out, w')
      ∧ out = survivors elements (checks drv elements (page w))
      ∧ out `sublist_of` elements
      ∧ (∀ i element,
           elements !! i = Some element →
           checks drv elements (page w) !! i = Some Raised →
           element ∈ out)
      ∧ (∀ i element,
           elements !! i = Some element →
           checks drv elements (page w) !! i = Some Visible →
           element ∈ out)
      ∧ length out
        = length (List.filter (λ c, negb (bool_decide (c = NotVisible)))
                    (checks drv elements (page w)))
      ∧ (∀ element c,
           elements = [element] →
           checks drv elements (page w) = [c] →
           out = if bool_decide (c = NotVisible) then [] else [element]).
Proof.
  split; [reflexivity|].
  unfold VisibilityFilter_filterAsync. simpl.
  destruct (visibility_loop_spec drv elements [] w) as [w' Hrun].
  eexists _, w'. split; [exact Hrun|]. simpl.
  split; [reflexivity|].
  split; [apply survivors_sublist|].
  split; [intros i element He Hc; by eapply survivors_kept|].
  split; [intros i element He Hc; by eapply survivors_kept|].
  split; [apply survivors_length, checks_length|].
  intros element c -> Hc. rewrite Hc. by destruct c.
Qed.

Example flaky_page_run :
  VisibilityFilter_filterAsync flaky_driver true
    [element_with_key "shown"; element_with_key "hidden"; element_with_key "broken"]
    fresh_world
  = (Ok [element_with_key "shown"; element_with_key "broken"],
     {| page := tt;
        trace := [ Locate (ElementSelector.mk "getByText('shown')" "shown");
                   IsVisible (ElementSelector.mk "getByText('shown')" "shown");
                   Locate (ElementSelector.mk "getByText('hidden')" "hidden");
                   IsVisible (ElementSelector.mk "getByText('hidden')" "hidden");
                   Locate (ElementSelector.mk "getByText('broken')" "broken") ] |}).
Proof. vm_compute. reflexivity. Qed.

Lemma C8_visibility_filter_witness :
  ∃ out w',
    VisibilityFilter_filterAsync flaky_driver true
      [element_with_key "shown"; element_with_key "hidden"; element_with_key "broken"]
      fresh_world = (Ok out, w')
    ∧ element_with_key "broken" ∈ out
    ∧ element_with_key "shown" ∈ out.
Proof.
  destruct (C8_visibility_filter flaky_driver
              [element_with_key "shown"; element_with_key "hidden";
               element_with_key "broken"] fresh_world)
    as (_ & out & w' & Hrun & _ & _ & Hraised & Hvisible & _).
  exists out, w'. split; [exact Hrun|]. split.
  - apply (Hraised 2); vm_compute; reflexivity.
  - apply (Hvisible 0); vm_compute; reflexivity.
Defined.

(** ** Unique property names *)

Open Scope nat_scope.

Lemma pretty_N_go_length (x : N) (s : string) :
  String.length s ≤ String.length (pretty_N_go x s).
Proof.
  revert s. induction (N.lt_wf_0 x) as [x _ IH]; intros s.
  destruct (decide (x = 0)%N) as [->|Hx]; [by rewrite pretty_N_go_0|].
  rewrite pretty_N_go_step by lia.
  etrans; [|apply IH; apply N.div_lt; lia]. simpl. lia.
Qed.

Lemma show_nonempty (n : nat) : Js.show n ≠ "".
Proof.
  unfold Js.show, pretty, pretty_nat, pretty, pretty_N.
  case_decide; [done|].
  intros Heq.
  pose proof (pretty_N_go_step (N.of_nat n) "" ltac:(lia)) as Hstep.
  pose proof (pretty_N_go_length (N.of_nat n `div` 10)
                (String (pretty_N_char (N.of_nat n `mod` 10)) "")) as Hlen.
  rewrite <- Hstep, Heq in Hlen. simpl in Hlen. lia.
Qed.

Lemma suffixed_inj (base : string) (j k : nat) :
  base +:+ Js.show j = base +:+ Js.show k → j = k.
Proof. intros Heq%(inj (String.append base)). by apply (inj pretty) in Heq. Qed.

Lemma suffixed_ne_base (base : string) (k : nat) : base ≠ base +:+ Js.show k.
Proof.
  intros Heq. apply (show_nonempty k).
  apply (inj (String.append base)). rewrite <- Heq.
  clear. induction base as [|c base IH]; [done|].
  change (String c base = String c (base +:+ "")). by f_equal.
Qed.

(** What the loop returns, when it returns. *)
Lemma unique_name_loop_spec (fuel : nat) (usedNames : gset string)
    (base uniqueName : string) (counter : nat) (r : string) :
  unique_name_loop fuel usedNames base uniqueName counter = Some r →
  (r ∉ usedNames)
  ∧ (((uniqueName ∉ usedNames) ∧ r = uniqueName)
     ∨ (uniqueName ∈ usedNames
        ∧ ∃ k, counter ≤ k ∧ r = base +:+ Js.show k
               ∧ ∀ j, counter ≤ j < k → base +:+ Js.show j ∈ usedNames)).
Proof.
  revert uniqueName counter.
  induction fuel as [|fuel IH]; intros uniqueName counter; simpl; [done|].
  case_bool_decide as Hused.
  - intros Hr. destruct (IH _ _ Hr) as [Hfresh Hcases].
    split; [done|]. right. split; [done|].
    destruct Hcases as [[_ ->]|[Hin (k & Hk & -> & Hbelow)]].
    + exists counter. split; [lia|]. split; [done|]. intros j ?. lia.
    + exists k. split; [lia|]. split; [done|].
      intros j Hj. destruct (decide (j = counter)) as [->|]; [done|].
      apply Hbelow. lia.
  - intros [= <-]. split; [done|]. by left.
Qed.

(** The loop returns within one more test than [usedNames] has members:
    the names it tests are pairwise different, so that each failed test
    accounts for a member of its own. *)
Lemma unique_name_loop_returns (fuel : nat) (usedNames remaining : gset string)
    (base uniqueName : string) (counter : nat) :
  (uniqueName ∈ usedNames → uniqueName ∈ remaining) →
  (∀ k, counter ≤ k → base +:+ Js.show k ∈ usedNames →
        base +:+ Js.show k ∈ remaining) →
  (∀ k, counter ≤ k → uniqueName ≠ base +:+ Js.show k) →
  size remaining < fuel →
  is_Some (unique_name_loop fuel usedNames base uniqueName counter).
Proof.
  revert remaining uniqueName counter.
  induction fuel as [|fuel IH]; intros remaining uniqueName counter
    Hcur Hnext Hdiff Hsize; [lia|].
  simpl. case_bool_decide as Hused; [|by eexists].
  apply (IH (remaining ∖ {[ uniqueName ]})).
  - intros Hin. apply elem_of_difference. split; [apply Hnext; [lia|done]|].
    rewrite elem_of_singleton. intros Heq. by apply (Hdiff counter).
  - intros k Hk Hin. apply elem_of_difference. split; [apply Hnext; [lia|done]|].
    rewrite elem_of_singleton. intros Heq. apply (Hdiff k); [lia|done].
  - intros k Hk Heq%suffixed_inj. lia.
  - assert (size (remaining ∖ {[ uniqueName ]}) = size remaining - 1) as ->.
    { rewrite size_difference by (apply singleton_subseteq_l; auto).
      by rewrite size_singleton. }
    assert (0 < size remaining); [|lia].
    assert (size remaining ≠ 0); [|lia].
    apply size_non_empty_iff. intros Hempty.
    specialize (Hcur Hused). rewrite Hempty in Hcur. by apply elem_of_empty in Hcur.
Qed.

Lemma unique_name_loop_total (usedNames : gset string) (propertyName : string) :
  is_Some (unique_name_loop (S (size usedNames)) usedNames
             propertyName propertyName 1).
Proof.
  apply (unique_name_loop_returns _ usedNames usedNames); auto.
  intros k _. apply suffixed_ne_base.
Qed.

(** More tests than needed do not change the result. *)
Lemma unique_name_loop_more_fuel (fuel fuel' : nat) (usedNames : gset string)
    (base uniqueName : string) (counter : nat) (r : string) :
  unique_name_loop fuel usedNames base uniqueName counter = Some r →
  fuel ≤ fuel' →
  unique_name_loop fuel' usedNames base uniqueName counter = Some r.
Proof.
  revert fuel' uniqueName counter.
  induction fuel as [|fuel IH]; intros fuel' uniqueName counter; simpl; [done|].
  intros Hr Hle. destruct fuel' as [|fuel']; [lia|]. simpl.
  case_bool_decide; [|done]. apply IH; [done|lia].
Qed.

Lemma unique_name_spec (usedNames : gset string) (propertyName : string) :
  let r := unique_name usedNames propertyName in
  (r ∉ usedNames)
  ∧ (propertyName ∉ usedNames → r = propertyName)
  ∧ (propertyName ∈ usedNames →
     ∃ k, 1 ≤ k ∧ r = propertyName +:+ Js.show k
          ∧ ∀ j, 1 ≤ j < k → propertyName +:+ Js.show j ∈ usedNames).
Proof.
  unfold unique_name.
  destruct (unique_name_loop_total usedNames propertyName) as [r Hr].
  rewrite Hr. simpl.
  destruct (unique_name_loop_spec _ _ _ _ _ _ Hr) as [Hfresh Hcases].
  split; [done|]. split.
  - intros Hout. by destruct Hcases as [[_ ->]|[? _]].
  - intros Hin. by destruct Hcases as [[? _]|[_ ?]].
Qed.

Section Uniquify.

Context {T : Type} `{HasPropertyName T}.

(** Reading the property name of a copy made with a new name gives that
    name. *)
Hypothesis get_set :
  ∀ (p : string) (e : T), getPropertyName (setPropertyName p e) = p.

Lemma uniquify_from_length (usedNames : gset string) (elements : list T) :
  length (uniquify_from usedNames elements) = length elements.
Proof.
  revert usedNames. induction elements as [|e rest IH]; intros usedNames; simpl;
    [done|]. by rewrite IH.
Qed.

(** The element at index [i] is renamed against the names in use at the
    start and the names given to the elements before it. *)
Lemma uniquify_from_lookup (usedNames : gset string) (elements : list T)
    (i : nat) (e : T) :
  elements !! i = Some e →
  uniquify_from usedNames elements !! i
  = Some (setPropertyName
            (unique_name
               (usedNames
                  ∪ list_to_set (getPropertyName
                                   <$> take i (uniquify_from usedNames elements)))
               (getPropertyName e))
            e).
Proof.
  revert usedNames i.
  induction elements as [|e0 rest IH]; intros usedNames [|i]; simpl; try done.
  - intros [= ->]. by rewrite (right_id_L ∅ (∪)).
  - intros He. rewrite (IH _ _ He). do 3 f_equal.
    rewrite get_set. apply set_eq. intros x.
    rewrite !elem_of_union. tauto.
Qed.

Lemma uniquify_from_fresh (usedNames : gset string) (elements : list T) :
  NoDup (getPropertyName <$> uniquify_from usedNames elements)
  ∧ ∀ n, n ∈ getPropertyName <$> uniquify_from usedNames elements →
         n ∉ usedNames.
Proof.
  revert usedNames. induction elements as [|e rest IH]; intros usedNames; simpl.
  - split; [constructor|]. intros n Hn. by apply elem_of_nil in Hn.
  - rewrite get_set.
    destruct (unique_name_spec usedNames (getPropertyName e)) as [Hfresh _].
    destruct (IH ({[ unique_name usedNames (getPropertyName e) ]} ∪ usedNames))
      as [Hnodup Hout].
    split.
    + constructor; [|done]. intros Hin. apply Hout in Hin.
      apply Hin, elem_of_union. left. by apply elem_of_singleton.
    + intros n [->|Hin]%elem_of_cons; [done|]. apply Hout in Hin.
      intros Hn. apply Hin, elem_of_union. by right.
Qed.

End Uniquify.

Lemma AE_get_set (p : string) (e : AE) :
  getPropertyName (setPropertyName p e) = p.
Proof. reflexivity. Qed.

(** The result of a bind that resolves. *)
Lemma bind_Ok {St A B} (m : M St A) (k : A → M St B) (w w' : World St) (b : B) :
  bind m k w = (Ok b, w') →
  ∃ a w1, m w = (Ok a, w1) ∧ k a w1 = (Ok b, w').
Proof.
  unfold bind. destruct (m w) as [[a|e] w1]; [|done]. intros Hk. by exists a, w1.
Qed.

(** Whatever the page and the filters do, a list returned by the extraction
    is a result of [uniquifyPropertyNames]. *)
Lemma extraction_is_uniquified {St H L} (drv : Driver St H L)
    (url_hostname : string → option string) (config : PageObjectConfig St)
    (w w' : World St) (out : list AE) :
  extractAccessibleElements drv url_hostname config w = (Ok out, w') →
  ∃ filteredElements, out = uniquifyPropertyNames filteredElements.
Proof.
  unfold extractAccessibleElements, executeWithTimeout, try_catch.
  destruct (_extractAccessibleElementsInternal drv url_hostname config w)
    as [[out'|e] w1] eqn:Hrun; [|done].
  intros [= <- <-]. revert Hrun.
  unfold _extractAccessibleElementsInternal.
  destruct (existsb is_error (validateConfig config)); [done|].
  intros (_ & w2 & _ & Hrun)%bind_Ok.
  apply bind_Ok in Hrun as (handles & w3 & _ & Hrun).
  apply bind_Ok in Hrun as (details & w4 & _ & Hrun).
  apply bind_Ok in Hrun as (filtered & w5 & _ & Hrun).
  apply bind_Ok in Hrun as (filtered' & w6 & _ & Hrun).
  injection Hrun as <- _. by exists filtered'.
Qed.

(** Claim C1, as stated, requires the first element that carries a raw name
    to keep it.  In the list [a], [a], [a1] the second element takes the name
    [a1], so that the third, the first to carry the raw name [a1], becomes
    [a11]. *)
Lemma C1_counterexample_first_carrier :
  AccessibleElement.propertyName
    <$> uniquifyPropertyNames [named "a"; named "a"; named "a1"]
  = ["a"; "a1"; "a11"]
  ∧ AccessibleElement.propertyName
      <$> (uniquifyPropertyNames [named "a"; named "a"; named "a1"] !! 2)
    ≠ Some "a1".
Proof. split; vm_compute; [reflexivity|discriminate]. Qed.

(** Claim C1, as amended.  For every list, the loop of
    [uniquifyPropertyNames] returns within its bound, and the result has the
    length and the elements of the input, in the same order, with pairwise
    distinct property names.  An element keeps the bare form of its raw name
    when no element before it was given that name (so the first element of
    the list always does); otherwise it receives the raw name followed by
    the smallest positive integer for which the suffixed name was not given
    to an element before it.  Consequently a list returned by
    [extractAccessibleElements] never holds two elements with the same
    property name. *)
Theorem C1_unique_property_names :
  (∀ (T : Type) (HT : HasPropertyName T),
     (∀ (p : string) (e : T), getPropertyName (setPropertyName p e) = p) →
     ∀ elements : list T,
       let out := uniquifyPropertyNames elements in
       (∀ usedNames propertyName,
          is_Some (unique_name_loop (S (size usedNames)) usedNames
                     propertyName propertyName 1))
       ∧ length out = length elements
       ∧ (∀ i element, elements !! i = Some element →
            ∃ p, out !! i = Some (setPropertyName p element))
       ∧ NoDup (getPropertyName <$> out)
       ∧ (∀ i element element',
            elements !! i = Some element → out !! i = Some element' →
            let earlier : gset string :=
              list_to_set (getPropertyName <$> take i out) in
            let raw := getPropertyName element in
            (raw ∉ earlier → getPropertyName element' = raw)
            ∧ (raw ∈ earlier →
               ∃ k, 1 ≤ k
                    ∧ getPropertyName element' = raw +:+ Js.show k
                    ∧ (raw +:+ Js.show k ∉ earlier)
                    ∧ ∀ j, 1 ≤ j < k → raw +:+ Js.show j ∈ earlier)))
  ∧ (∀ (St H L : Type) (drv : Driver St H L) url_hostname
       (config : PageObjectConfig St) (w w' : World St) (out : list AE),
       extractAccessibleElements drv url_hostname config w = (Ok out, w') →
       NoDup (AccessibleElement.propertyName <$> out)).
Proof.
  split.
  - intros T HT get_set elements out.
    split; [apply unique_name_loop_total|].
    split; [apply uniquify_from_length|].
    split.
    { intros i element He. eexists.
      unfold out, uniquifyPropertyNames.
      by rewrite (uniquify_from_lookup get_set _ _ _ _ He). }
    split; [apply (uniquify_from_fresh get_set)|].
    intros i element element' He He' earlier raw.
    unfold out, uniquifyPropertyNames in He'.
    rewrite (uniquify_from_lookup get_set _ _ _ _ He) in He'.
    rewrite (left_id_L ∅ (∪)) in He'. injection He' as <-.
    rewrite get_set. fold out earlier raw.
    destruct (unique_name_spec earlier raw) as (Hfresh & Hbare & Hsuffix).
    split; [exact Hbare|].
    intros Hin. destruct (Hsuffix Hin) as (k & Hk & Hr & Hbelow).
    exists k. split; [done|]. split; [done|]. split; [by rewrite <- Hr|done].
  - intros St H L drv url config w w' out Hrun.
    destruct (extraction_is_uniquified _ _ _ _ _ _ Hrun) as [filtered ->].
    apply (uniquify_from_fresh (T := AE) AE_get_set).
Qed.

Lemma C1_unique_property_names_witness :
  (let out := uniquifyPropertyNames [named "a"; named "a"; named "a1"; named "a"] in
   NoDup (AccessibleElement.propertyName <$> out)
   ∧ ∃ k, 1 ≤ k
          ∧ AccessibleElement.propertyName <$> (out !! 3) = Some ("a" +:+ Js.show k))
  ∧ ∃ out w',
      extractAccessibleElements
        (static_driver [node_of "BUTTON" "Save" ∅; node_of "A" "Save" ∅])
        (λ _, None) empty_config fresh_world = (Ok out, w')
      ∧ NoDup (AccessibleElement.propertyName <$> out).
Proof.
  destruct C1_unique_property_names as [Hlist Hextract].
  split.
  - destruct (Hlist AE AE_HasPropertyName ltac:(intros p e; reflexivity)
                [named "a"; named "a"; named "a1"; named "a"])
      as (_ & _ & _ & Hnodup & Hrule).
    split; [exact Hnodup|].
    destruct (Hrule 3 (named "a")
                (AccessibleElement.with_propertyName "a2" (named "a"))
                eq_refl ltac:(vm_compute; reflexivity)) as [_ Hsuffix].
    destruct Hsuffix as (k & Hk & Hname & _).
    { by_decision. }
    exists k. split; [exact Hk|]. simpl in Hname. rewrite <- Hname.
    vm_compute. reflexivity.
  - pose (run := extractAccessibleElements
                   (static_driver [node_of "BUTTON" "Save" ∅; node_of "A" "Save" ∅])
                   (λ _, None) empty_config fresh_world).
    assert (run = (Ok (match run.1 with Ok out => out | Err _ => [] end), run.2))
      as Hrun by (vm_compute; reflexivity).
    eexists _, _. split; [exact Hrun|].
    exact (Hextract _ _ _ _ _ _ _ _ _ Hrun).
Defined.

(** ** The frame of [uniquifyPropertyNames] *)

Lemma uniquify_from_frame (usedNames : gset string) (elements : list AE) :
  Forall2 same_but_propertyName elements (uniquify_from usedNames elements).
Proof.
  revert usedNames. induction elements as [|e rest IH]; intros usedNames; simpl;
    constructor; [|apply IH].
  repeat split.
Qed.

(** Claim C9.  For every list, the result of [uniquifyPropertyNames] is the
    input list, position by position, up to the field [propertyName]: all
    fourteen other fields are those of the input element.  The field [name]
    in particular is not updated: of two elements extracted with the property
    name [save], the second leaves with the property name [save1] and the
    name [save]. *)
Theorem C9_only_propertyName_changes :
  (∀ elements : list AE,
     Forall2 same_but_propertyName elements (uniquifyPropertyNames elements))
  ∧ ∃ element',
      uniquifyPropertyNames [named "save"; named "save"] !! 1 = Some element'
      ∧ AccessibleElement.name (named "save")
        = AccessibleElement.propertyName (named "save")
      ∧ AccessibleElement.name element' = "save"
      ∧ AccessibleElement.propertyName element' = "save1".
Proof.
  split; [intros elements; apply uniquify_from_frame|].
  eexists. split; [vm_compute; reflexivity|]. repeat split.
Qed.

(** ** Duplicate removal *)

Section JsObjectFacts.

Context {V : Type}.
Implicit Types (o : JsObject.t V) (k : string) (v : V).

Lemma own_set o k v k' :
  JsObject.own (JsObject.set o k v) k'
  = if bool_decide (k = k') then Some v else JsObject.own o k'.
Proof.
  induction o as [|[k0 v0] o IH]; simpl.
  - by repeat case_bool_decide.
  - destruct (bool_decide (k0 = k)) eqn:Hk; simpl.
    + apply bool_decide_eq_true in Hk as ->. by repeat case_bool_decide.
    + apply bool_decide_eq_false in Hk. rewrite IH.
      repeat case_bool_decide; congruence.
Qed.

Lemma set_fresh o k v :
  JsObject.own o k = None → JsObject.set o k v = (o ++ [(k, v)])%list.
Proof.
  induction o as [|[k0 v0] o IH]; simpl; [done|].
  case_bool_decide; [done|]. intros Hown. by rewrite IH.
Qed.

Lemma set_Forall (P : string * V → Prop) o k v :
  Forall P o → P (k, v) → Forall P (JsObject.set o k v).
Proof.
  intros Ho Hkv. induction Ho as [|[k0 v0] o H0 Ho IH]; simpl.
  - by repeat constructor.
  - case_bool_decide; by constructor.
Qed.

(** Without array-index keys the values are enumerated in creation
    order. *)
Lemma values_creation_order o :
  Forall (λ kv, JsObject.is_array_index kv.1 = false) o →
  JsObject.values o = o.*2.
Proof.
  unfold JsObject.values. intros Ho.
  assert (JsObject.indexed_entries o = [] ∧ JsObject.named_entries o = o.*2)
    as [-> ->]; [|done].
  induction Ho as [|[k v] o Hk Ho [IH1 IH2]]; simpl in *; [done|].
  unfold JsObject.is_array_index in *.
  destruct (JsObject.array_index k); [done|]. by rewrite IH1, IH2.
Qed.

End JsObjectFacts.

Lemma heads_set_existing (o : JsObject.t (list AE)) (k : string)
    (group : list AE) (element : AE) :
  JsObject.own o k = Some group → group ≠ [] →
  omap head (JsObject.set o k (group ++ [element])%list).*2 = omap head o.*2.
Proof.
  intros Hown Hne. induction o as [|[k0 g0] o IH]; simpl in *; [done|].
  case_bool_decide; simpl.
  - injection Hown as ->. by destruct group.
  - specialize (IH Hown). destruct (head g0); [f_equal|]; exact IH.
Qed.

Lemma groupBy_from_spec (elements : list AE) (groups : JsObject.t (list AE))
    (seen : gset string) :
  groups_inv groups seen →
  Forall (λ e, ordinary_key (AccessibleElement.expression e) = true) elements →
  ∃ groups',
    groupBy_from AccessibleElement.expression groups elements = Ok groups'
    ∧ Forall (λ kv : string * list AE, JsObject.is_array_index kv.1 = false) groups'
    ∧ omap head groups'.*2 = (omap head groups.*2 ++ first_from seen elements)%list.
Proof.
  intros Hinv Hord. revert groups seen Hinv.
  induction Hord as [|e rest He Hrest IH]; intros groups seen [Hseen Hwf]; simpl.
  - exists groups. split; [done|]. split; [|by rewrite app_nil_r].
    eapply Forall_impl; [exact Hwf|]. by intros kv [? _].
  - apply andb_true_iff in He as [Hidx Hproto].
    apply negb_true_iff in Hidx, Hproto.
    unfold groupBy_step, JsObject.get.
    destruct (JsObject.own groups (AccessibleElement.expression e))
      as [group|] eqn:Hown.
    + assert (AccessibleElement.expression e ∈ seen) as Hin
        by (apply Hseen; by rewrite Hown).
      rewrite bool_decide_eq_true_2 by done.
      assert (group ≠ []) as Hne.
      { clear -Hwf Hown. induction Hwf as [|[k g] o [_ Hg] _ IHo]; simpl in *;
          [done|]. case_bool_decide; [by injection Hown as <-|auto]. }
      destruct (IH (JsObject.set groups (AccessibleElement.expression e)
                      (group ++ [e])%list) seen) as (groups' & Hrun & Hidx' & Hheads).
      { split.
        - intros k. rewrite own_set. case_bool_decide as Hk; [|apply Hseen].
          subst k. split; [by eexists|done].
        - apply set_Forall; [done|]. split; [done|]. by destruct group. }
      exists groups'. split; [done|]. split; [done|].
      by rewrite Hheads, heads_set_existing.
    + rewrite Hproto.
      assert (AccessibleElement.expression e ∉ seen) as Hout.
      { intros Hin%Hseen. rewrite Hown in Hin. by destruct Hin. }
      rewrite bool_decide_eq_false_2 by done.
      destruct (IH (JsObject.set groups (AccessibleElement.expression e) [e])
                   ({[ AccessibleElement.expression e ]} ∪ seen))
        as (groups' & Hrun & Hidx' & Hheads).
      { split.
        - intros k. rewrite own_set, elem_of_union, elem_of_singleton, Hseen.
          case_bool_decide;
            [|split; [intros [Heq|?]; [by subst|done]|by right]].
          split; [by eexists|by left].
        - apply set_Forall; [done|]. by split. }
      exists groups'. split; [done|]. split; [done|].
      rewrite Hheads, set_fresh by done.
      rewrite fmap_app, omap_app. simpl. by rewrite <- app_assoc.
Qed.

Lemma filter_spec (elements : list AE) :
  Forall (λ e, ordinary_key (AccessibleElement.expression e) = true) elements →
  DuplicateElementFilter.filter elements = Ok (first_per_selector elements).
Proof.
  intros Hord. unfold DuplicateElementFilter.filter, groupBy.
  destruct (groupBy_from_spec elements [] ∅) as (groups' & -> & Hidx & Hheads);
    [|done|].
  { split; [|constructor]. intros k. simpl.
    split; [by intros ?%elem_of_empty|by intros [? ?]]. }
  by rewrite values_creation_order, Hheads.
Qed.

(** *** The specification function *)

Lemma first_from_sublist (seen : gset string) (elements : list AE) :
  first_from seen elements `sublist_of` elements.
Proof.
  revert seen. induction elements as [|e rest IH]; intros seen; simpl;
    [constructor|].
  case_bool_decide; by constructor.
Qed.

Lemma first_from_fresh (seen : gset string) (elements : list AE) :
  NoDup (AccessibleElement.expression <$> first_from seen elements)
  ∧ ∀ e, e ∈ first_from seen elements → AccessibleElement.expression e ∉ seen.
Proof.
  revert seen. induction elements as [|e rest IH]; intros seen; simpl.
  - split; [constructor|]. intros e He. by apply elem_of_nil in He.
  - case_bool_decide as Hseen; [apply IH|].
    destruct (IH ({[ AccessibleElement.expression e ]} ∪ seen)) as [Hnodup Hout].
    split.
    + simpl. constructor; [|done].
      intros (e' & Heq & Hin)%list_elem_of_fmap. apply Hout in Hin.
      apply Hin, elem_of_union. left. by apply elem_of_singleton.
    + intros e' [->|Hin]%elem_of_cons; [done|]. apply Hout in Hin.
      intros Hs. apply Hin, elem_of_union. by right.
Qed.

Lemma first_from_covers (seen : gset string) (elements : list AE) (e : AE) :
  e ∈ elements →
  AccessibleElement.expression e ∈ seen
  ∨ AccessibleElement.expression e
      ∈ AccessibleElement.expression <$> first_from seen elements.
Proof.
  revert seen. induction elements as [|e0 rest IH]; intros seen He;
    [by apply elem_of_nil in He|].
  simpl. apply elem_of_cons in He as [->|He].
  - case_bool_decide; [by left|]. right. simpl. left.
  - case_bool_decide as Hseen; [by apply IH|].
    destruct (IH ({[ AccessibleElement.expression e0 ]} ∪ seen) He) as [Hin|Hin].
    + apply elem_of_union in Hin as [->%elem_of_singleton|Hin]; [|by left].
      right. simpl. left.
    + right. simpl. by right.
Qed.

Lemma first_from_first (seen : gset string) (elements : list AE) (e : AE) :
  e ∈ first_from seen elements → first_with e elements = Some e.
Proof.
  revert seen. induction elements as [|e0 rest IH]; intros seen; simpl;
    [by intros ?%elem_of_nil|].
  case_bool_decide as Hseen.
  - intros He. pose proof (proj2 (first_from_fresh seen rest) e He) as Hfresh.
    rewrite bool_decide_eq_false_2 by congruence. by eapply IH.
  - intros [->|He]%elem_of_cons; [by rewrite bool_decide_eq_true_2|].
    pose proof (proj2 (first_from_fresh _ rest) e He) as Hfresh.
    rewrite bool_decide_eq_false_2; [by eapply IH|].
    intros Heq. apply Hfresh, elem_of_union. left. by apply elem_of_singleton.
Qed.

(** Every expression that [generateSelector] produces is an ordinary
    key: it begins with [getBy] or with [locator(]. *)
Lemma ordinary_g (s : string) : ordinary_key (String "g" s) = true.
Proof.
  unfold ordinary_key. apply andb_true_iff. split; [reflexivity|].
  apply negb_true_iff, bool_decide_eq_false. unfold JsObject.prototype_keys.
  intros Hin. repeat (apply elem_of_cons in Hin as [Heq|Hin]; [discriminate|]).
  by apply elem_of_nil in Hin.
Qed.

Lemma ordinary_l (s : string) : ordinary_key (String "l" s) = true.
Proof.
  unfold ordinary_key. apply andb_true_iff. split; [reflexivity|].
  apply negb_true_iff, bool_decide_eq_false. unfold JsObject.prototype_keys.
  intros Hin. repeat (apply elem_of_cons in Hin as [Heq|Hin]; [discriminate|]).
  by apply elem_of_nil in Hin.
Qed.

Lemma generateSelector_ordinary (url_hostname : string → option string)
    (tagName role textContent ariaLabel placeholder : string)
    (attributes : gmap string string) (index : nat) :
  ordinary_key
    (ElementSelector.selector
       (generateSelector url_hostname tagName role textContent ariaLabel
          placeholder attributes index)) = true.
Proof.
  unfold generateSelector.
  repeat case_match; simpl; first [apply ordinary_g | apply ordinary_l].
Qed.

(** Claim C6, as stated, fails on expressions that are not ordinary keys.
    The entry of the expression [1] is enumerated before the entry of
    [getByText('Save')], which was seen first; and an expression that names
    an inherited property, such as [toString], makes the grouping throw. *)
Lemma C6_counterexample_key_order :
  DuplicateElementFilter.filter
    [selected_by "getByText('Save')" "save"; selected_by "1" "one"]
  = Ok [selected_by "1" "one"; selected_by "getByText('Save')" "save"]
  ∧ first_per_selector
      [selected_by "getByText('Save')" "save"; selected_by "1" "one"]
    = [selected_by "getByText('Save')" "save"; selected_by "1" "one"]
  ∧ DuplicateElementFilter.filter [selected_by "toString" "text"]
    = Err "TypeError: groups[key].push is not a function".
Proof. repeat split; vm_compute; reflexivity. Qed.

(** Claim C6, as amended.  For every input list whose selector expressions
    are ordinary keys (neither an array index nor the name of an inherited
    property), as every expression that [generateSelector] produces is,
    [DuplicateElementFilter.filter] returns the elements whose expression
    was not seen on an element before them: a subsequence of the input, with
    pairwise distinct expressions, that has every expression of the input,
    each on the first input element that has it.  Two elements with the same
    expression collapse to the first of them. *)
Theorem C6_duplicate_filter :
  (∀ elements : list AE,
     Forall (λ e, ordinary_key (AccessibleElement.expression e) = true) elements →
     let out := first_per_selector elements in
     DuplicateElementFilter.filter elements = Ok out
     ∧ out `sublist_of` elements
     ∧ NoDup (AccessibleElement.expression <$> out)
     ∧ (∀ e, e ∈ elements →
             AccessibleElement.expression e ∈ AccessibleElement.expression <$> out)
     ∧ (∀ e, e ∈ out → first_with e elements = Some e))
  ∧ (∀ a b : AE,
       ordinary_key (AccessibleElement.expression a) = true →
       AccessibleElement.expression b = AccessibleElement.expression a →
       DuplicateElementFilter.filter [a; b] = Ok [a])
  ∧ (∀ url_hostname tagName role textContent ariaLabel placeholder attributes index,
       ordinary_key
         (ElementSelector.selector
            (generateSelector url_hostname tagName role textContent ariaLabel
               placeholder attributes index)) = true).
Proof.
  split; [|split; [|exact generateSelector_ordinary]].
  - intros elements Hord out.
    split; [by apply filter_spec|].
    split; [apply first_from_sublist|].
    split; [apply first_from_fresh|].
    split; [|intros e; apply first_from_first].
    intros e He. destruct (first_from_covers ∅ elements e He) as [Hin|Hin]; [|done].
    by apply elem_of_empty in Hin.
  - intros a b Ha Hb. rewrite filter_spec.
    + unfold first_per_selector. simpl.
      rewrite bool_decide_eq_false_2 by apply not_elem_of_empty.
      rewrite bool_decide_eq_true_2; [done|].
      rewrite Hb. apply elem_of_union. left. by apply elem_of_singleton.
    + repeat constructor; [done|by rewrite Hb].
Qed.

Lemma C6_duplicate_filter_witness :
  DuplicateElementFilter.filter
    [ extractElementInfo (λ _, None) (node_of "BUTTON" "Submit" ∅) 0;
      extractElementInfo (λ _, None) (node_of "BUTTON" "Submit" ∅) 1 ]
  = Ok [ extractElementInfo (λ _, None) (node_of "BUTTON" "Submit" ∅) 0 ].
Proof.
  apply (proj1 (proj2 C6_duplicate_filter)); vm_compute; reflexivity.
Defined.

(* ================================================================== *)
(** * Part IV: further properties of the code                          *)
(* ================================================================== *)

(** ** String utilities *)

Lemma append_nil_r (s : string) : s +:+ "" = s.
Proof.
  induction s as [|c s IH]; [done|].
  change (String c (s +:+ "") = String c s). by rewrite IH.
Qed.

Lemma append_assoc (s t u : string) : (s +:+ t) +:+ u = s +:+ (t +:+ u).
Proof.
  induction s as [|c s IH]; [done|].
  change (String c ((s +:+ t) +:+ u) = String c (s +:+ (t +:+ u))). by rewrite IH.
Qed.

Lemma append_cons (c : ascii) (s t : string) :
  String c s +:+ t = String c (s +:+ t).
Proof. reflexivity. Qed.

Lemma length_append (s t : string) :
  String.length (s +:+ t) = String.length s + String.length t.
Proof.
  induction s as [|c s IH]; [done|].
  rewrite append_cons. simpl. by rewrite IH.
Qed.

Lemma replace_class_app (p : ascii → bool) (r s t : string) :
  Js.replace_class p r (s +:+ t)
  = Js.replace_class p r s +:+ Js.replace_class p r t.
Proof.
  induction s as [|c s IH]; [done|].
  rewrite append_cons. simpl. rewrite IH.
  destruct (p c); [by rewrite append_assoc|done].
Qed.

Lemma toLowerCase_app (s t : string) :
  Js.toLowerCase (s +:+ t) = Js.toLowerCase s +:+ Js.toLowerCase t.
Proof.
  induction s as [|c s IH]; [done|].
  rewrite append_cons. simpl. by rewrite IH.
Qed.

Lemma length_toLowerCase (s : string) :
  String.length (Js.toLowerCase s) = String.length s.
Proof. induction s as [|c s IH]; simpl; [done|]. by rewrite IH. Qed.

Lemma length_replace_class (p : ascii → bool) (r s : string) :
  String.length (Js.replace_class p r s) + Js.count_class p s
  = String.length s + String.length r * Js.count_class p s.
Proof.
  induction s as [|c s IH]; simpl; [lia|].
  destruct (p c); simpl; rewrite ?length_append; lia.
Qed.

Lemma count_class_zero (p : ascii → bool) (s : string) :
  Js.count_class p s = 0 ↔ Js.all_chars (λ c, negb (p c)) s = true.
Proof.
  induction s as [|c s IH]; simpl; [done|].
  destruct (p c); simpl; [split; [lia|done]|]. exact IH.
Qed.

Lemma count_class_complement (p : ascii → bool) (s : string) :
  Js.count_class p s + Js.count_class (λ c, negb (p c)) s = String.length s.
Proof. induction s as [|c s IH]; simpl; [done|]. destruct (p c); simpl; lia. Qed.

Lemma escapeString_no_bare_quote (b : bool) (s : string) :
  has_bare_quote b (escapeString s) = false.
Proof.
  revert b. induction s as [|c s IH]; intros b; [done|].
  unfold escapeString in *. simpl.
  destruct (Js.code c =? 39)%N eqn:Hc.
  - change (has_bare_quote b (String "\" (String "'" (Js.replace_class
              (λ c, (Js.code c =? 39)%N) "\'" s))) = false).
    simpl. apply IH.
  - simpl. unfold is_quote. rewrite Hc. simpl. apply IH.
Qed.

(** Property X1.  [escapeString] works character by character, so it
    distributes over concatenation; it adds one character per single quote
    and changes nothing else, so it is the identity exactly on the strings
    without a single quote; and in its result every single quote stands
    right after a backslash. *)
Theorem X1_escapeString :
  (∀ s t, escapeString (s +:+ t) = escapeString s +:+ escapeString t)
  ∧ (∀ s, String.length (escapeString s)
          = String.length s + Js.count_class is_quote s)
  ∧ (∀ s, escapeString s = s ↔ Js.count_class is_quote s = 0)
  ∧ (∀ s, has_bare_quote false (escapeString s) = false).
Proof.
  assert (∀ s, String.length (escapeString s)
               = String.length s + Js.count_class is_quote s) as Hlen.
  { intros s. unfold escapeString.
    pose proof (length_replace_class is_quote "\'" s) as H.
    change (String.length "\'") with 2 in H.
    change (λ c, (Js.code c =? 39)%N) with is_quote. lia. }
  split; [intros s t; apply replace_class_app|].
  split; [exact Hlen|].
  split; [|intros s; apply escapeString_no_bare_quote].
  intros s. split.
  - intros Heq. pose proof (Hlen s) as H. rewrite Heq in H. lia.
  - intros H0%count_class_zero. by apply replace_class_fixed.
Qed.

Lemma X1_escapeString_witness : escapeString "Sign in" = "Sign in".
Proof. apply (proj1 (proj2 (proj2 X1_escapeString))). reflexivity. Defined.

(** Property X2.  [sanitizeKey] distributes over concatenation; its result
    has as many characters as the input has ASCII letters and digits, so it
    is never longer than the input, and it is empty exactly when the input
    has no ASCII letter or digit. *)
Theorem X2_sanitizeKey :
  (∀ s t, sanitizeKey (s +:+ t) = sanitizeKey s +:+ sanitizeKey t)
  ∧ (∀ s, String.length (sanitizeKey s) = Js.count_class Js.is_alnum s)
  ∧ (∀ s, String.length (sanitizeKey s) ≤ String.length s)
  ∧ (∀ s, sanitizeKey s = "" ↔ Js.count_class Js.is_alnum s = 0).
Proof.
  assert (∀ s, String.length (sanitizeKey s) = Js.count_class Js.is_alnum s)
    as Hlen.
  { intros s. unfold sanitizeKey. rewrite length_toLowerCase.
    pose proof (length_replace_class (λ c, negb (Js.is_alnum c)) "" s) as H.
    pose proof (count_class_complement Js.is_alnum s) as Hc.
    simpl in H. lia. }
  split.
  { intros s t. unfold sanitizeKey. by rewrite replace_class_app, toLowerCase_app. }
  split; [exact Hlen|].
  split.
  { intros s. rewrite Hlen.
    pose proof (count_class_complement Js.is_alnum s). lia. }
  intros s. rewrite <- Hlen. split; [by intros ->|].
  by destruct (sanitizeKey s).
Qed.

Lemma X2_sanitizeKey_witness : sanitizeKey "--- !" = "".
Proof. apply (proj2 (proj2 (proj2 X2_sanitizeKey))). reflexivity. Defined.

(** ** [toCamelCase] on its own results *)

Lemma rev_app_rev_app (s t u : string) :
  String.rev_app (String.rev_app s t) u = String.rev_app t (s +:+ u).
Proof.
  revert t. induction s as [|c s IH]; intros t; [done|].
  simpl. by rewrite IH.
Qed.

Lemma rev_involutive (s : string) : String.rev (String.rev s) = s.
Proof. unfold String.rev. rewrite rev_app_rev_app. simpl. apply append_nil_r. Qed.

Lemma strip_leading_none (p : ascii → bool) (s : string) :
  Js.all_chars (λ c, negb (p c)) s = true → Js.strip_leading p s = s.
Proof.
  destruct s as [|c s]; simpl; [done|].
  rewrite andb_true_iff, negb_true_iff. by intros [-> _].
Qed.

Lemma replace_runs_none (p : ascii → bool) (r : string) (b : bool) (s : string) :
  Js.all_chars (λ c, negb (p c)) s = true → Js.replace_runs p r b s = s.
Proof.
  revert b. induction s as [|c s IH]; intros b; simpl; [done|].
  rewrite andb_true_iff, negb_true_iff. intros [-> Hs]. by rewrite IH.
Qed.

Lemma trim_none (s : string) :
  Js.all_chars (λ c, negb (Js.is_space c)) s = true → Js.trim s = s.
Proof.
  intros Hs. unfold Js.trim, Js.trimEnd, Js.trimStart.
  rewrite (strip_leading_none _ s Hs).
  rewrite strip_leading_none by by rewrite all_chars_rev.
  apply rev_involutive.
Qed.

Lemma split_none (sep : ascii) (s : string) :
  Js.all_chars (λ c, negb (bool_decide (c = sep))) s = true →
  Js.split sep s = [s].
Proof.
  induction s as [|c s IH]; simpl; [done|].
  rewrite andb_true_iff, negb_true_iff. intros [-> Hs]. by rewrite IH.
Qed.

Lemma lower_of_word (c : ascii) :
  Js.is_word c = true → Js.is_word (Js.lower_char c) = true.
Proof.
  assert (∀ c, implb (Js.is_word c) (Js.is_word (Js.lower_char c)) = true)
    as H by by_chars.
  intros Hc. specialize (H c). by rewrite Hc in H.
Qed.

Lemma lower_of_ident_start (c : ascii) :
  is_ident_start c = true → is_ident_start (Js.lower_char c) = true.
Proof.
  assert (∀ c, implb (is_ident_start c) (is_ident_start (Js.lower_char c)) = true)
    as H by by_chars.
  intros Hc. specialize (H c). by rewrite Hc in H.
Qed.

Lemma ident_start_not_digit (c : ascii) :
  is_ident_start c = true → Js.is_digit c = false.
Proof.
  assert (∀ c, implb (is_ident_start c) (negb (Js.is_digit c)) = true)
    as H by by_chars.
  intros Hc. specialize (H c). rewrite Hc in H. by apply negb_true_iff in H.
Qed.

Lemma lower_char_idempotent (c : ascii) :
  Js.lower_char (Js.lower_char c) = Js.lower_char c.
Proof.
  assert (∀ c, bool_decide (Js.lower_char (Js.lower_char c) = Js.lower_char c)
               = true) as H by by_chars.
  specialize (H c). by apply bool_decide_eq_true in H.
Qed.

Lemma toLowerCase_idempotent (s : string) :
  Js.toLowerCase (Js.toLowerCase s) = Js.toLowerCase s.
Proof.
  induction s as [|c s IH]; simpl; [done|].
  by rewrite lower_char_idempotent, IH.
Qed.

Lemma toLowerCase_identifier (s : string) :
  is_identifier s = true → is_identifier (Js.toLowerCase s) = true.
Proof.
  destruct s as [|c s]; [done|]. unfold is_identifier.
  intros [Hc Hs]%andb_true_iff.
  change (is_ident_start (Js.lower_char c)
          && Js.all_chars Js.is_word (Js.toLowerCase (String c s)) = true).
  apply andb_true_iff. split; [by apply lower_of_ident_start|].
  revert Hs. apply all_chars_toLowerCase, lower_of_word.
Qed.

Lemma toCamelCase_of_identifier (s : string) :
  is_identifier s = true → toCamelCase s = Js.toLowerCase s.
Proof.
  intros Hid. pose proof (toLowerCase_identifier s Hid) as Hlow.
  destruct s as [|c s]; [done|].
  unfold is_identifier in Hid. apply andb_true_iff in Hid as [Hc Hs].
  unfold toCamelCase. change (negb (Js.truthy (String c s))) with false. cbv iota.
  rewrite (replace_class_fixed _ " " (String c s)).
  2:{ revert Hs. apply all_chars_impl. intros d Hd.
      by rewrite Hd. }
  assert (Js.all_chars (λ d, negb (Js.is_space d)) (String c s) = true) as Hnospace.
  { revert Hs. apply all_chars_impl.
    assert (∀ d, implb (Js.is_word d) (negb (Js.is_space d)) = true) as H by by_chars.
    intros d Hd. specialize (H d). by rewrite Hd in H. }
  rewrite replace_runs_none by done.
  rewrite trim_none by done.
  rewrite split_none.
  2:{ revert Hnospace. apply all_chars_impl. intros d Hd.
      apply negb_true_iff, bool_decide_eq_false. intros ->. done. }
  change (Js.join "" (imap camel_word [String c s])) with (Js.toLowerCase (String c s)).
  rewrite replace_class_fixed.
  2:{ unfold is_identifier in Hlow. apply andb_true_iff in Hlow as [_ Hw].
      revert Hw. apply all_chars_impl. intros d Hd. by rewrite Hd. }
  simpl. rewrite (ident_start_not_digit _ (lower_of_ident_start _ Hc)).
  pose proof (lower_of_ident_start _ Hc) as Hstart.
  unfold is_ident_start in Hstart. unfold Js.strip_first.
  rewrite Hstart. reflexivity.
Qed.

(** Property X3.  A well-formed identifier is a single word for
    [toCamelCase], which therefore returns it in lower case.  As every
    result of [toCamelCase] is such an identifier, a second application
    lowers the capitals that the first one made, and from then on nothing
    changes: [toCamelCase] is not idempotent, its square is. *)
Theorem X3_toCamelCase_twice :
  (∀ s, is_identifier s = true → toCamelCase s = Js.toLowerCase s)
  ∧ (∀ input, toCamelCase (toCamelCase input) = Js.toLowerCase (toCamelCase input))
  ∧ (∀ input, toCamelCase (toCamelCase (toCamelCase input))
              = toCamelCase (toCamelCase input))
  ∧ toCamelCase (toCamelCase "Email Address") ≠ toCamelCase "Email Address".
Proof.
  split; [exact toCamelCase_of_identifier|].
  assert (∀ input, toCamelCase (toCamelCase input)
                   = Js.toLowerCase (toCamelCase input)) as Htwice.
  { intros input. apply toCamelCase_of_identifier, toCamelCase_identifier. }
  split; [exact Htwice|]. split.
  - intros input. rewrite (Htwice input).
    rewrite toCamelCase_of_identifier
      by apply toLowerCase_identifier, toCamelCase_identifier.
    apply toLowerCase_idempotent.
  - vm_compute. discriminate.
Qed.

Lemma X3_toCamelCase_twice_witness :
  toCamelCase "signIn_2" = "signin_2".
Proof. apply (proj1 X3_toCamelCase_twice). reflexivity. Defined.

(** ** [uniquifyPropertyNames] on distinct names *)

Lemma unique_name_fresh (usedNames : gset string) (propertyName : string) :
  propertyName ∉ usedNames → unique_name usedNames propertyName = propertyName.
Proof. intros Hout. by apply unique_name_spec. Qed.

Lemma uniquify_from_distinct (usedNames : gset string) (elements : list AE) :
  NoDup (AccessibleElement.propertyName <$> elements) →
  (∀ e, e ∈ elements → AccessibleElement.propertyName e ∉ usedNames) →
  uniquify_from usedNames elements = elements.
Proof.
  revert usedNames. induction elements as [|e rest IH]; intros usedNames Hnd Hout;
    [done|].
  simpl. apply NoDup_cons in Hnd as [Hhead Hnd].
  rewrite unique_name_fresh by (apply Hout; left).
  f_equal; [by destruct e|].
  apply IH; [done|]. intros e' He'.
  rewrite elem_of_union, elem_of_singleton. intros [Heq|Hin].
  - apply Hhead. rewrite <- Heq. apply list_elem_of_fmap. by exists e'.
  - revert Hin. apply Hout. by right.
Qed.

(** Property X4.  A list whose property names are already pairwise distinct
    is returned unchanged, so that [uniquifyPropertyNames] is idempotent. *)
Theorem X4_uniquify_idempotent :
  (∀ elements : list AE,
     NoDup (AccessibleElement.propertyName <$> elements) →
     uniquifyPropertyNames elements = elements)
  ∧ (∀ elements : list AE,
       uniquifyPropertyNames (uniquifyPropertyNames elements)
       = uniquifyPropertyNames elements).
Proof.
  assert (∀ elements : list AE,
            NoDup (AccessibleElement.propertyName <$> elements) →
            uniquifyPropertyNames elements = elements) as Hid.
  { intros elements Hnd. apply uniquify_from_distinct; [done|].
    intros e _. apply not_elem_of_empty. }
  split; [exact Hid|].
  intros elements. apply Hid.
  apply (uniquify_from_fresh (T := AE) AE_get_set).
Qed.

Lemma X4_uniquify_idempotent_witness :
  uniquifyPropertyNames [named "save"; named "cancel"]
  = [named "save"; named "cancel"].
Proof.
  apply (proj1 X4_uniquify_idempotent).
  apply (bool_decide_unpack _). vm_compute. exact I.
Defined.

(** ** [groupBy] *)

Section GroupBy.

Context {T : Type}.
Variable keyFn : T → string.

Lemma own_None_iff {V} (o : JsObject.t V) (k : string) :
  JsObject.own o k = None ↔ k ∉ o.*1.
Proof.
  induction o as [|[k0 v0] o IH]; simpl.
  - split; [intros _; apply not_elem_of_nil|done].
  - rewrite not_elem_of_cons. case_bool_decide as Hk.
    + split; [done|]. intros [Hne _]. by destruct Hne.
    + rewrite IH. split; [by intros ?; split|by intros [_ ?]].
Qed.

Lemma set_keys_existing {V} (o : JsObject.t V) (k : string) (v0 v : V) :
  JsObject.own o k = Some v0 → (JsObject.set o k v).*1 = o.*1.
Proof.
  induction o as [|[k1 v1] o IH]; simpl; [done|].
  case_bool_decide as Hk; simpl; [by subst|]. intros Hown. f_equal. exact (IH Hown).
Qed.

Lemma groupBy_step_ok (groups : JsObject.t (list T)) (element : T) :
  groups_ok groups →
  keyFn element ∉ JsObject.prototype_keys →
  ∃ groups',
    groupBy_step keyFn groups element = Ok groups'
    ∧ groups_ok groups'
    ∧ ∀ k, JsObject.own groups' k
           = if bool_decide (keyFn element = k)
             then Some (default [] (JsObject.own groups k) ++ [element])%list
             else JsObject.own groups k.
Proof.
  intros [Hnd Hkeys] Hproto. unfold groupBy_step, JsObject.get.
  destruct (JsObject.own groups (keyFn element)) as [group|] eqn:Hown.
  - eexists. split; [done|]. split.
    + unfold groups_ok. by rewrite (set_keys_existing _ _ group).
    + intros k. rewrite own_set. case_bool_decide; [subst k; by rewrite Hown|done].
  - unfold Js.mem. rewrite bool_decide_eq_false_2 by done.
    eexists. split; [done|]. split.
    + unfold groups_ok. rewrite set_fresh by done. rewrite fmap_app. simpl.
      split.
      * apply NoDup_app. split; [done|]. split; [|apply NoDup_singleton].
        intros k Hk ->%list_elem_of_singleton. by apply own_None_iff in Hown.
      * intros k [Hk | ->%list_elem_of_singleton]%elem_of_app; auto.
    + intros k. rewrite own_set. case_bool_decide; [subst k; by rewrite Hown|done].
Qed.

Lemma groupBy_from_ok (elements : list T) (groups : JsObject.t (list T)) :
  groups_ok groups →
  Forall (λ e, keyFn e ∉ JsObject.prototype_keys) elements →
  ∃ groups',
    groupBy_from keyFn groups elements = Ok groups'
    ∧ groups_ok groups'
    ∧ ∀ k, JsObject.own groups' k
           = match JsObject.own groups k with
             | Some group => Some (group ++ members keyFn k elements)%list
             | None => expected_group keyFn k elements
             end.
Proof.
  intros Hok Hall. revert groups Hok.
  induction Hall as [|e rest He Hrest IH]; intros groups Hok; simpl.
  - exists groups. split; [done|]. split; [done|]. intros k.
    unfold expected_group. simpl. destruct (JsObject.own groups k); [|done].
    by rewrite app_nil_r.
  - destruct (groupBy_step_ok groups e Hok He) as (g1 & -> & Hok1 & Hown1).
    destruct (IH g1 Hok1) as (g' & Hrun & Hok' & Hown').
    exists g'. split; [done|]. split; [done|]. intros k.
    rewrite Hown', Hown1. unfold expected_group, members. simpl.
    case_bool_decide as Hk.
    + destruct (JsObject.own groups k); simpl; [by rewrite <- app_assoc|done].
    + done.
Qed.

Lemma groupBy_from_throws (elements : list T) (groups : JsObject.t (list T)) :
  groups_ok groups →
  Exists (λ e, keyFn e ∈ JsObject.prototype_keys) elements →
  groupBy_from keyFn groups elements
  = Err "TypeError: groups[key].push is not a function".
Proof.
  intros Hok Hex. revert groups Hok.
  induction elements as [|e rest IH]; intros groups Hok; [by inversion Hex|].
  simpl. destruct (decide (keyFn e ∈ JsObject.prototype_keys)) as [Hin|Hout].
  - unfold groupBy_step, JsObject.get.
    assert (JsObject.own groups (keyFn e) = None) as ->.
    { apply own_None_iff. intros Hk. by apply (proj2 Hok) in Hk. }
    unfold Js.mem. by rewrite bool_decide_eq_true_2.
  - destruct (groupBy_step_ok groups e Hok Hout) as (g1 & -> & Hok1 & _).
    apply IH; [|done]. by inversion Hex.
Qed.

End GroupBy.

(** Property X5.  [groupBy] throws exactly when the key of some element is
    the name of a property that plain objects inherit ([constructor],
    [toString], ...), and the error is the [TypeError] of the call of
    [push].  Otherwise the object it returns has pairwise distinct keys, and
    its entry for a key is the list of the elements with that key, in the
    order of the input; a key that no element has is absent. *)
Theorem X5_groupBy {T : Type} (elements : list T) (keyFn : T → string) :
  (∀ msg, groupBy elements keyFn = Err msg ↔
          msg = "TypeError: groups[key].push is not a function"
          ∧ ∃ e, e ∈ elements ∧ keyFn e ∈ JsObject.prototype_keys)
  ∧ (∀ groups, groupBy elements keyFn = Ok groups →
       NoDup groups.*1
       ∧ ∀ k, JsObject.own groups k = expected_group keyFn k elements).
Proof.
  assert (groups_ok (T := T) []) as Hok0.
  { split; [constructor|]. intros k Hk. by apply elem_of_nil in Hk. }
  destruct (decide (Exists (λ e, keyFn e ∈ JsObject.prototype_keys) elements))
    as [Hex|Hall].
  - pose proof (groupBy_from_throws keyFn elements [] Hok0 Hex) as Hrun.
    unfold groupBy. rewrite Hrun. split.
    + intros msg. split.
      * intros [= <-]. split; [done|]. by apply Exists_exists in Hex.
      * by intros [-> _].
    + intros groups [=].
  - apply not_Exists_Forall in Hall; [|intros e; apply _].
    destruct (groupBy_from_ok keyFn elements [] Hok0 Hall)
      as (groups' & Hrun & [Hnd _] & Hown).
    unfold groupBy. rewrite Hrun. split.
    + intros msg. split; [done|]. intros [_ (e & He & Hin)].
      rewrite Forall_forall in Hall. by destruct (Hall e He).
    + intros groups [= <-]. split; [done|]. intros k. by rewrite Hown.
Qed.

Lemma X5_groupBy_witness :
  JsObject.own [("b", ["b"; "b"]); ("1", ["1"])] "b" = Some ["b"; "b"]
  ∧ JsObject.own [("b", ["b"; "b"]); ("1", ["1"])] "c" = None.
Proof.
  destruct (X5_groupBy ["b"; "1"; "b"] (λ s, s)) as [_ Hgroups].
  destruct (Hgroups [("b", ["b"; "b"]); ("1", ["1"])]) as [_ Hown].
  { vm_compute. reflexivity. }
  split; [exact (Hown "b")|exact (Hown "c")].
Defined.

(** ** Duplicate removal on arbitrary selector expressions *)

Lemma own_headed (groups : JsObject.t (list AE)) (k : string) (group : list AE) :
  Forall headed groups → JsObject.own groups k = Some group →
  ∃ e, head group = Some e ∧ AccessibleElement.expression e = k.
Proof.
  intros Hall. induction Hall as [|[k0 g0] o H0 Ho IH]; simpl; [done|].
  case_bool_decide as Hk; [|done]. intros [= <-]. by subst.
Qed.

Lemma groupBy_from_heads (elements : list AE) (groups : JsObject.t (list AE))
    (seen : gset string) :
  (∀ k, k ∈ seen ↔ is_Some (JsObject.own groups k)) →
  Forall headed groups →
  Forall (λ e, AccessibleElement.expression e ∉ JsObject.prototype_keys) elements →
  ∃ groups',
    groupBy_from AccessibleElement.expression groups elements = Ok groups'
    ∧ Forall headed groups'
    ∧ omap head groups'.*2 = (omap head groups.*2 ++ first_from seen elements)%list.
Proof.
  intros Hseen Hhead Hall. revert groups seen Hseen Hhead.
  induction Hall as [|e rest He Hrest IH]; intros groups seen Hseen Hhead; simpl.
  - exists groups. split; [done|]. split; [done|]. by rewrite app_nil_r.
  - unfold groupBy_step, JsObject.get.
    destruct (JsObject.own groups (AccessibleElement.expression e))
      as [group|] eqn:Hown.
    + assert (AccessibleElement.expression e ∈ seen) as Hin
        by (apply Hseen; by rewrite Hown).
      rewrite bool_decide_eq_true_2 by done.
      destruct (own_headed _ _ _ Hhead Hown) as (e0 & He0 & Hexp).
      assert (group ≠ []) as Hne by (by destruct group).
      destruct (IH (JsObject.set groups (AccessibleElement.expression e)
                      (group ++ [e])%list) seen) as (groups' & Hrun & Hh' & Hheads).
      { intros k. rewrite own_set. case_bool_decide as Hk; [|apply Hseen].
        subst k. split; [by eexists|done]. }
      { apply set_Forall; [done|]. exists e0. split; [|done].
        by destruct group. }
      exists groups'. split; [done|]. split; [done|].
      by rewrite Hheads, heads_set_existing.
    + unfold Js.mem. rewrite bool_decide_eq_false_2 by done.
      assert (AccessibleElement.expression e ∉ seen) as Hout.
      { intros Hin%Hseen. rewrite Hown in Hin. by destruct Hin. }
      rewrite bool_decide_eq_false_2 by done.
      destruct (IH (JsObject.set groups (AccessibleElement.expression e) [e])
                   ({[ AccessibleElement.expression e ]} ∪ seen))
        as (groups' & Hrun & Hh' & Hheads).
      { intros k. rewrite own_set, elem_of_union, elem_of_singleton, Hseen.
        case_bool_decide;
          [|split; [intros [Heq|?]; [by subst|done]|by right]].
        split; [by eexists|by left]. }
      { apply set_Forall; [done|]. by exists e. }
      exists groups'. split; [done|]. split; [done|].
      rewrite Hheads, set_fresh by done.
      rewrite fmap_app, omap_app. simpl. by rewrite <- app_assoc.
Qed.

Lemma filter_partition_Permutation {A} (p : A → bool) (l : list A) :
  (List.filter p l ++ List.filter (λ x, negb (p x)) l)%list ≡ₚ l.
Proof.
  induction l as [|x l IH]; simpl; [done|].
  destruct (p x); simpl; [by constructor|].
  rewrite <- Permutation_middle. by constructor.
Qed.

Lemma insert_by_index_Permutation {V} (e : N * V) (l : list (N * V)) :
  JsObject.insert_by_index e l ≡ₚ e :: l.
Proof.
  induction l as [|e' l IH]; simpl; [done|].
  destruct (e.1 <=? e'.1)%N; [done|]. rewrite IH. apply Permutation_swap.
Qed.

Lemma insert_by_index_sorted {V} (e : N * V) (l : list (N * V)) :
  StronglySorted (λ a b : N * V, (a.1 ≤ b.1)%N) l →
  StronglySorted (λ a b : N * V, (a.1 ≤ b.1)%N) (JsObject.insert_by_index e l).
Proof.
  induction 1 as [|e' l Hl IH Hle]; simpl; [by repeat constructor|].
  destruct (e.1 <=? e'.1)%N eqn:Hcmp.
  - apply N.leb_le in Hcmp. constructor; [by constructor|].
    constructor; [done|]. eapply Forall_impl; [exact Hle|].
    intros x Hx. simpl in *. lia.
  - apply N.leb_gt in Hcmp. constructor; [done|].
    rewrite insert_by_index_Permutation. constructor; [lia|done].
Qed.

Lemma indexed_entries_sorted {V} (o : JsObject.t V) :
  StronglySorted (λ a b : N * V, (a.1 ≤ b.1)%N) (JsObject.indexed_entries o).
Proof.
  induction o as [|[k v] o IH]; simpl; [constructor|].
  destruct (JsObject.array_index k); [by apply insert_by_index_sorted|done].
Qed.

(** The first members of the indexed groups carry the indices. *)
Lemma indexed_entries_headed (groups : JsObject.t (list AE)) :
  Forall headed groups →
  Forall (λ ne : N * list AE,
            ∃ e, head ne.2 = Some e
                 ∧ JsObject.array_index (AccessibleElement.expression e) = Some ne.1)
         (JsObject.indexed_entries groups).
Proof.
  induction 1 as [|[k g] o (e & He & Hexp) Ho IH]; simpl; [constructor|].
  destruct (JsObject.array_index k) as [n|] eqn:Hk; [|done].
  rewrite insert_by_index_Permutation. constructor; [|done].
  exists e. simpl in *. split; [done|]. by rewrite Hexp.
Qed.

Lemma indexed_heads_Permutation (groups : JsObject.t (list AE)) :
  Forall headed groups →
  omap head (JsObject.indexed_entries groups).*2
  ≡ₚ List.filter has_index_key (omap head groups.*2).
Proof.
  induction 1 as [|[k g] o (e & He & Hexp) Ho IH]; simpl; [done|].
  simpl in He, Hexp. rewrite He. simpl.
  unfold has_index_key at 1, JsObject.is_array_index. rewrite Hexp.
  destruct (JsObject.array_index k) as [n|] eqn:Hk; [|done].
  rewrite insert_by_index_Permutation. simpl. rewrite He. by constructor.
Qed.

Lemma named_heads (groups : JsObject.t (list AE)) :
  Forall headed groups →
  omap head (JsObject.named_entries groups)
  = List.filter (λ e, negb (has_index_key e)) (omap head groups.*2).
Proof.
  induction 1 as [|[k g] o (e & He & Hexp) Ho IH]; simpl; [done|].
  simpl in He, Hexp. rewrite He. simpl.
  unfold has_index_key at 1. rewrite Hexp.
  destruct (JsObject.is_array_index k); simpl; [done|]. rewrite He. by f_equal.
Qed.

Lemma indexed_heads_sorted (l : list (N * list AE)) :
  StronglySorted (λ a b : N * list AE, (a.1 ≤ b.1)%N) l →
  Forall (λ ne : N * list AE,
            ∃ e, head ne.2 = Some e
                 ∧ JsObject.array_index (AccessibleElement.expression e) = Some ne.1) l →
  StronglySorted (λ a b, (index_of a ≤ index_of b)%N) (omap head l.*2)
  ∧ Forall (λ e, has_index_key e = true) (omap head l.*2)
  ∧ index_of <$> omap head l.*2 = l.*1.
Proof.
  induction 1 as [|[n g] l Hl IH Hle]; intros Hall; simpl.
  - by repeat constructor.
  - inversion_clear Hall as [|? ? (e & He & Hidx) Hall'].
    simpl in He, Hidx. rewrite He.
    destruct (IH Hall') as (Hs & Hk & Hmap).
    assert (index_of e = n) as Hn by (unfold index_of; by rewrite Hidx).
    split; [|split].
    + constructor; [done|]. apply Forall_forall. intros e' He'.
      assert (index_of e' ∈ l.*1) as Hin.
      { rewrite <- Hmap. apply list_elem_of_fmap. by exists e'. }
      apply list_elem_of_fmap in Hin as (ne & Heq & Hne).
      rewrite Forall_forall in Hle. specialize (Hle ne Hne). simpl in Hle.
      rewrite Hn, Heq. lia.
    + constructor; [|done]. unfold has_index_key, JsObject.is_array_index.
      by rewrite Hidx.
    + change (index_of e :: (index_of <$> omap head l.*2) = n :: l.*1).
      by rewrite Hn, Hmap.
Qed.

(** Property X6.  [DuplicateElementFilter.filter] on every input.  It throws
    exactly when some selector expression is the name of an inherited
    property.  Otherwise its result is made of the first elements of the
    distinct expressions: first those whose expression is an array index, by
    ascending index, then all the others in the order in which their
    expressions are first seen.  The result is thus always a permutation of
    the first occurrences. *)
Theorem X6_duplicate_filter_every_input (elements : list AE) :
  (∀ msg, DuplicateElementFilter.filter elements = Err msg ↔
          msg = "TypeError: groups[key].push is not a function"
          ∧ ∃ e, e ∈ elements
                 ∧ AccessibleElement.expression e ∈ JsObject.prototype_keys)
  ∧ (∀ out, DuplicateElementFilter.filter elements = Ok out →
       out ≡ₚ first_per_selector elements
       ∧ ∃ indexed,
           out = (indexed
                  ++ List.filter (λ e, negb (has_index_key e))
                       (first_per_selector elements))%list
           ∧ indexed ≡ₚ List.filter has_index_key (first_per_selector elements)
           ∧ StronglySorted (λ a b, (index_of a ≤ index_of b)%N) indexed).
Proof.
  assert (groups_ok (T := AE) []) as Hok0.
  { split; [constructor|]. intros k Hk. by apply elem_of_nil in Hk. }
  unfold DuplicateElementFilter.filter, groupBy.
  destruct (decide (Exists (λ e, AccessibleElement.expression e
                                 ∈ JsObject.prototype_keys) elements))
    as [Hex|Hall].
  - rewrite (groupBy_from_throws _ elements [] Hok0 Hex). split.
    + intros msg. split.
      * intros [= <-]. split; [done|]. by apply Exists_exists in Hex.
      * by intros [-> _].
    + intros out [=].
  - apply not_Exists_Forall in Hall; [|intros e; apply _].
    destruct (groupBy_from_heads elements [] ∅) as (groups & -> & Hhead & Hheads);
      [|constructor|done|].
    { intros k. simpl. split; [by intros ?%elem_of_empty|by intros [? ?]]. }
    simpl in Hheads. split.
    + intros msg. split; [done|]. intros [_ (e & He & Hin)].
      rewrite Forall_forall in Hall. by destruct (Hall e He).
    + intros out [= <-]. unfold JsObject.values.
      rewrite omap_app, named_heads, Hheads by done.
      pose proof (indexed_heads_Permutation groups Hhead) as Hperm.
      rewrite Hheads in Hperm.
      destruct (indexed_heads_sorted _ (indexed_entries_sorted groups)
                  (indexed_entries_headed groups Hhead)) as (Hsorted & _ & _).
      split.
      * rewrite Hperm. apply filter_partition_Permutation.
      * by eexists.
Qed.

Lemma X6_duplicate_filter_every_input_witness :
  ∃ indexed,
    [selected_by "7" "seven"; selected_by "getByText('Save')" "save"]
    = (indexed
       ++ List.filter (λ e, negb (has_index_key e))
            (first_per_selector
               [selected_by "getByText('Save')" "save"; selected_by "7" "seven";
                selected_by "getByText('Save')" "again"]))%list.
Proof.
  destruct (X6_duplicate_filter_every_input
              [selected_by "getByText('Save')" "save"; selected_by "7" "seven";
               selected_by "getByText('Save')" "again"]) as [_ Hout].
  destruct (Hout [selected_by "7" "seven"; selected_by "getByText('Save')" "save"])
    as (_ & indexed & Heq & _).
  { vm_compute. reflexivity. }
  by exists indexed.
Defined.

(** ** The hidden-element stage: substring tests *)

Lemma startsWith_app (p s : string) : Js.startsWith p (p +:+ s) = true.
Proof.
  induction p as [|c p IH]; [done|].
  rewrite append_cons. simpl. by rewrite bool_decide_eq_true_2, IH.
Qed.

Lemma includes_infix (sub prefix suffix : string) :
  Js.includes sub (prefix +:+ sub +:+ suffix) = true.
Proof.
  induction prefix as [|c prefix IH].
  - change ("" +:+ sub +:+ suffix) with (sub +:+ suffix).
    destruct (sub +:+ suffix) eqn:Heq; simpl; rewrite <- Heq, startsWith_app; done.
  - rewrite append_cons. simpl. rewrite IH. apply orb_true_r.
Qed.

Lemma HiddenElementFilter_keep_style (element : AE) (pattern prefix suffix : string) :
  pattern ∈ ["display: none"; "visibility: hidden"; "opacity: 0";
             "width: 0"; "height: 0"] →
  AccessibleElement.attributes element !! "style"
    = Some (prefix +:+ pattern +:+ suffix) →
  HiddenElementFilter.keep element = false.
Proof.
  intros Hp Hstyle. unfold HiddenElementFilter.keep, attr_includes.
  rewrite Hstyle.
  repeat (apply elem_of_cons in Hp as [->|Hp];
          [rewrite includes_infix, ?orb_true_r;
           repeat (match goal with
                   | |- (if ?b then _ else _) = false =>
                       let E := fresh in destruct b eqn:E; [done|]
                   end);
           by rewrite ?orb_true_r in *|]).
  by apply elem_of_nil in Hp.
Qed.

Lemma HiddenElementFilter_keep_class (element : AE) (marker prefix suffix : string) :
  marker ∈ ["hidden"; "invisible"; "sr-only"] →
  AccessibleElement.className element = prefix +:+ marker +:+ suffix →
  HiddenElementFilter.keep element = false.
Proof.
  intros Hm Hclass. unfold HiddenElementFilter.keep.
  destruct (_ || _ || _ || _ || _); [done|].
  assert (Js.or_else (AccessibleElement.className element) ""
          = AccessibleElement.className element) as ->.
  { unfold Js.or_else. by destruct (AccessibleElement.className element). }
  rewrite Hclass.
  repeat (apply elem_of_cons in Hm as [->|Hm];
          [by rewrite includes_infix, ?orb_true_r|]).
  by apply elem_of_nil in Hm.
Qed.

(** Property X7.  The class and style tests of [HiddenElementFilter] are
    substring tests.  An element is dropped as soon as its class attribute
    contains [hidden], [invisible] or [sr-only] anywhere, as in the utility
    class [overflow-hidden], and as soon as its inline style contains one of
    the five patterns anywhere, so that [line-height: 0.8] counts as
    [height: 0] and [opacity: 0.5] as [opacity: 0]. *)
Theorem X7_hidden_filter_substrings (elements : list AE) (element : AE) :
  (∀ marker prefix suffix,
     marker ∈ ["hidden"; "invisible"; "sr-only"] →
     AccessibleElement.className element = prefix +:+ marker +:+ suffix →
     element ∉ HiddenElementFilter.filter elements)
  ∧ (∀ pattern prefix suffix,
       pattern ∈ ["display: none"; "visibility: hidden"; "opacity: 0";
                  "width: 0"; "height: 0"] →
       AccessibleElement.attributes element !! "style"
         = Some (prefix +:+ pattern +:+ suffix) →
       element ∉ HiddenElementFilter.filter elements).
Proof.
  split.
  - intros marker prefix suffix Hm Hclass [_ Hkeep]%HiddenElementFilter_elem_of.
    by rewrite (HiddenElementFilter_keep_class _ _ _ _ Hm Hclass) in Hkeep.
  - intros pattern prefix suffix Hp Hstyle [_ Hkeep]%HiddenElementFilter_elem_of.
    by rewrite (HiddenElementFilter_keep_style _ _ _ _ Hp Hstyle) in Hkeep.
Qed.

Lemma X7_hidden_filter_substrings_witness :
  HiddenElementFilter.filter
    [ extractElementInfo (λ _, None)
        (node_of "DIV" "Gallery" {[ "class" := "relative overflow-hidden" ]}) 0;
      extractElementInfo (λ _, None)
        (node_of "BUTTON" "Buy" {[ "style" := "line-height: 0.8" ]}) 1 ]
  = [].
Proof.
  pose (card := extractElementInfo (λ _, None)
        (node_of "DIV" "Gallery" {[ "class" := "relative overflow-hidden" ]}) 0).
  pose (buy := extractElementInfo (λ _, None)
        (node_of "BUTTON" "Buy" {[ "style" := "line-height: 0.8" ]}) 1).
  pose proof (proj1 (X7_hidden_filter_substrings [card; buy] card)
                "hidden" "relative overflow-" "" ltac:(by_decision) eq_refl) as H1.
  pose proof (proj2 (X7_hidden_filter_substrings [card; buy] buy)
                "height: 0" "line-" ".8" ltac:(by_decision)
                ltac:(vm_compute; reflexivity)) as H2.
  fold card buy.
  destruct (HiddenElementFilter.filter [card; buy]) as [|e l] eqn:Hf; [done|].
  exfalso.
  assert (e ∈ HiddenElementFilter.filter [card; buy]) as He
    by (rewrite Hf; left).
  pose proof He as Hin. apply HiddenElementFilter_elem_of in Hin as [Hin _].
  apply elem_of_cons in Hin as [->|Hin]; [done|].
  apply list_elem_of_singleton in Hin as ->. done.
Defined.

(** ** The meaningful-content stage *)

Lemma MeaningfulContentFilter_elem_of (element : AE) (elements : list AE) :
  element ∈ MeaningfulContentFilter.filter elements
  ↔ element ∈ elements ∧ MeaningfulContentFilter.keep element = true.
Proof.
  unfold MeaningfulContentFilter.filter.
  rewrite !list_elem_of_In, filter_In. tauto.
Qed.

Lemma isMeaningfulText_length (text : string) :
  MeaningfulContentFilter.isMeaningfulText text = true →
  2 ≤ String.length (Js.trim text) ≤ 80.
Proof.
  unfold MeaningfulContentFilter.isMeaningfulText.
  destruct (String.length (Js.trim text) <? 2) eqn:Hlow; [done|].
  repeat match goal with
         | |- (if ?b then false else _) = true → _ =>
             tryif unify b (80 <? String.length (Js.trim text))
             then fail
             else (destruct b; [done|])
         end.
  destruct (80 <? String.length (Js.trim text)) eqn:Hhigh; [done|].
  intros _. apply Nat.ltb_ge in Hlow, Hhigh. lia.
Qed.

(** Property X8.  What [MeaningfulContentFilter] guarantees of every element
    it keeps: one of text, aria-label, placeholder, id and name attribute is
    not empty; a non-empty text has between 2 and 80 characters once
    trimmed, and at most 50 characters unless the element is interactive; an
    element of type [text] without interactive attributes has at most 30
    characters of text; and a [div] of type [text] has at most 200. *)
Theorem X8_meaningful_filter_guarantee (elements : list AE) (element : AE) :
  element ∈ MeaningfulContentFilter.filter elements →
  let text := AccessibleElement.textContent element in
  element ∈ elements
  ∧ (Js.truthy text
     || Js.truthy (AccessibleElement.aria_label element)
     || Js.truthy (AccessibleElement.placeholder element)
     || Js.truthy (AccessibleElement.id element)
     || Js.truthy (AccessibleElement.nameAttr element) = true)
  ∧ (text ≠ "" →
       2 ≤ String.length (Js.trim text) ≤ 80
       ∧ (String.length text ≤ 50
          ∨ MeaningfulContentFilter.isInteractiveElement element = true))
  ∧ (AccessibleElement.type element = "text" →
       String.length text ≤ 30
       ∨ MeaningfulContentFilter.hasInteractiveAttributes element = true)
  ∧ (AccessibleElement.tagName element = "div" →
     AccessibleElement.type element = "text" →
       String.length text ≤ 200).
Proof.
  intros [Hin Hkeep]%MeaningfulContentFilter_elem_of text.
  split; [done|]. revert Hkeep. unfold MeaningfulContentFilter.keep.
  fold text.
  destruct (negb (Js.truthy text) && _ && _ && _ && _) eqn:H1; [done|].
  destruct (bool_decide (AccessibleElement.tagName element = "div") && _ && _)
    eqn:H2; [done|].
  destruct (Js.truthy text && negb (MeaningfulContentFilter.isMeaningfulText text))
    eqn:H3; [done|].
  destruct (Js.includes ".nth(" _ && _ && _ && _) eqn:H4; [done|].
  destruct (Js.truthy text && (50 <? String.length text) && _) eqn:H5; [done|].
  destruct (bool_decide (AccessibleElement.type element = "text") && _ && _)
    eqn:H6; [done|].
  intros _. split; [|split; [|split]].
  - destruct (Js.truthy text), (Js.truthy (AccessibleElement.aria_label element)),
      (Js.truthy (AccessibleElement.placeholder element)),
      (Js.truthy (AccessibleElement.id element)),
      (Js.truthy (AccessibleElement.nameAttr element)); done.
  - intros Htext.
    assert (Js.truthy text = true) as Ht by (by destruct text).
    rewrite Ht in H3, H5. simpl in H3, H5.
    apply negb_false_iff in H3. split; [by apply isMeaningfulText_length|].
    destruct (50 <? String.length text) eqn:Hlen.
    + right. simpl in H5. by apply negb_false_iff in H5.
    + left. apply Nat.ltb_ge in Hlen. lia.
  - intros Htype. rewrite bool_decide_eq_true_2 in H6 by done. simpl in H6.
    destruct (MeaningfulContentFilter.hasInteractiveAttributes element);
      [by right|]. simpl in H6. left. apply Nat.ltb_ge in H6. lia.
  - intros Htag Htype. rewrite !bool_decide_eq_true_2 in H2 by done.
    simpl in H2. apply Nat.ltb_ge in H2. lia.
Qed.

Lemma X8_meaningful_filter_guarantee_witness :
  String.length "Sign in" ≤ 50
  ∨ MeaningfulContentFilter.isInteractiveElement
      (extractElementInfo (λ _, None) (node_of "BUTTON" "Sign in" ∅) 0) = true.
Proof.
  pose (button := extractElementInfo (λ _, None) (node_of "BUTTON" "Sign in" ∅) 0).
  destruct (X8_meaningful_filter_guarantee [button] button) as (_ & _ & Htext & _).
  { apply MeaningfulContentFilter_elem_of.
    split; [apply list_elem_of_here|vm_compute; reflexivity]. }
  apply Htext. discriminate.
Defined.

(** ** Duplicate removal before the other stages *)

Lemma filter_first_from_sublist (keep : AE → bool) (elements : list AE)
    (seen seen' : gset string) :
  seen ⊆ seen' →
  List.filter keep (first_from seen' elements)
    `sublist_of` first_from seen (List.filter keep elements).
Proof.
  revert seen seen'.
  induction elements as [|e rest IH]; intros seen seen' Hsub; simpl; [done|].
  destruct (bool_decide (AccessibleElement.expression e ∈ seen')) eqn:Hin'.
  - apply bool_decide_eq_true in Hin'.
    destruct (keep e); simpl; [|by apply IH].
    case_bool_decide; [by apply IH|].
    apply sublist_cons, IH.
    intros k [->%elem_of_singleton|Hk]%elem_of_union; [done|by apply Hsub].
  - apply bool_decide_eq_false in Hin'.
    assert (AccessibleElement.expression e ∉ seen) as Hout
      by (intros Hin; by apply Hin', Hsub).
    simpl. destruct (keep e); simpl.
    + rewrite bool_decide_eq_false_2 by done.
      apply sublist_skip, IH.
      intros k [Hk|Hk]%elem_of_union; apply elem_of_union; [by left|].
      right. by apply Hsub.
    + apply IH. intros k Hk. apply elem_of_union. right. by apply Hsub.
Qed.

Lemma Forall_List_filter {A} (P : A → Prop) (f : A → bool) (l : list A) :
  Forall P l → Forall P (List.filter f l).
Proof.
  induction 1 as [|x l Hx Hl IH]; simpl; [constructor|].
  destruct (f x); [by constructor|done].
Qed.

(** Property X9.  The pipeline removes duplicates first.  On elements with
    ordinary selector expressions, what the hidden-element stage then keeps
    is a subsequence of what duplicate removal would keep after the
    hidden-element stage, and it can be shorter: a hidden element takes
    every later element with the same selector expression out with it.  The
    same holds of the meaningful-content stage. *)
Theorem X9_duplicates_removed_first (elements : list AE) :
  Forall (λ e, ordinary_key (AccessibleElement.expression e) = true) elements →
  ∃ first hiddenFirst meaningfulFirst,
    DuplicateElementFilter.filter elements = Ok first
    ∧ DuplicateElementFilter.filter (HiddenElementFilter.filter elements)
      = Ok hiddenFirst
    ∧ DuplicateElementFilter.filter (MeaningfulContentFilter.filter elements)
      = Ok meaningfulFirst
    ∧ HiddenElementFilter.filter first `sublist_of` hiddenFirst
    ∧ MeaningfulContentFilter.filter first `sublist_of` meaningfulFirst.
Proof.
  intros Hord.
  exists (first_per_selector elements),
    (first_per_selector (HiddenElementFilter.filter elements)),
    (first_per_selector (MeaningfulContentFilter.filter elements)).
  split; [by apply filter_spec|].
  split; [by apply filter_spec, Forall_List_filter|].
  split; [by apply filter_spec, Forall_List_filter|].
  split; by apply filter_first_from_sublist.
Qed.

Lemma X9_duplicates_removed_first_witness :
  ∃ first hiddenFirst,
    DuplicateElementFilter.filter
      [ extractElementInfo (λ _, None)
          (node_of "BUTTON" "Menu" {[ "aria-hidden" := "true" ]}) 0;
        extractElementInfo (λ _, None) (node_of "BUTTON" "Menu" ∅) 1 ]
    = Ok first
    ∧ DuplicateElementFilter.filter
        (HiddenElementFilter.filter
           [ extractElementInfo (λ _, None)
               (node_of "BUTTON" "Menu" {[ "aria-hidden" := "true" ]}) 0;
             extractElementInfo (λ _, None) (node_of "BUTTON" "Menu" ∅) 1 ])
      = Ok hiddenFirst
    ∧ HiddenElementFilter.filter first = []
    ∧ length hiddenFirst = 1.
Proof.
  destruct (X9_duplicates_removed_first
              [ extractElementInfo (λ _, None)
                  (node_of "BUTTON" "Menu" {[ "aria-hidden" := "true" ]}) 0;
                extractElementInfo (λ _, None) (node_of "BUTTON" "Menu" ∅) 1 ])
    as (first & hiddenFirst & _ & Hfirst & Hhidden & _).
  { repeat constructor; vm_compute; reflexivity. }
  exists first, hiddenFirst. split; [exact Hfirst|]. split; [exact Hhidden|].
  vm_compute in Hfirst. injection Hfirst as <-.
  vm_compute in Hhidden. injection Hhidden as <-.
  split; vm_compute; reflexivity.
Defined.

(** ** The gate of the configuration *)

Lemma validateConfig_errors {St} (config : PageObjectConfig St) :
  existsb is_error (validateConfig config)
  = negative_maxTextLength config || empty_selectorPriorities config
  ∧ vr_message <$> List.filter is_error (validateConfig config)
    = validation_messages config.
Proof.
  unfold validateConfig, validation_messages, negative_maxTextLength,
    empty_selectorPriorities.
  destruct (maxTextLength config) as [n|];
    [destruct (Z.ltb_spec n 0); destruct (Z.eqb_spec n 0);
     destruct (Z.ltb_spec n 1); try lia|];
    destruct (selectorPriorities config) as [[|p ps]|]; split; reflexivity.
Qed.







(** ** The query *)

Lemma extraction_steps {St H L} (drv : Driver St H L)
    (url_hostname : string → option string) (config : PageObjectConfig St)
    (w : World St) :
  existsb is_error (validateConfig config) = false →
  extractAccessibleElements drv url_hostname config w
  = let selector := buildSelectorString (mergeConfig drv config) in
    let s1 := (drv_waitForLoadState drv (page w)).2 in
    let queried := drv_all drv selector s1 in
    let w2 := {| page := queried.2;
                 trace := (trace w ++ [WaitForLoadState; QueryAll selector])%list |} in
    match queried.1 with
    | Err message =>
        (Err ("Element extraction failed: Element selection failed: " +:+ message),
         w2)
    | Ok elementHandles =>
        executeWithTimeout
          (elementDetails <<- batch_loop drv url_hostname
                                ((length elementHandles + (batchSize - 1)) / batchSize)
                                0 elementHandles [] ;;
           filteredElements <<- lift (apply_sync_filters
                                        (m_elementFilters (mergeConfig drv config))
                                        elementDetails) ;;
           filteredElements <<- apply_async_filters
                                  (m_elementFilters (mergeConfig drv config))
                                  filteredElements ;;
           ret (uniquifyPropertyNames filteredElements))
          60000 "Element extraction" w2
    end.
Proof.
  intros Hvalid.
  unfold extractAccessibleElements, _extractAccessibleElementsInternal.
  rewrite Hvalid. cbv zeta.
  set (selector := buildSelectorString _).
  unfold executeWithTimeout at 1 2 3. unfold try_catch at 1 2 3 4.
  unfold bind at 1 2. unfold call, throw, ret.
  destruct (drv_waitForLoadState drv (page w)) as [[[]|e] s1]; simpl;
    destruct (drv_all drv selector s1) as [[handles|message] s2]; simpl;
    rewrite <- ?app_assoc; simpl; reflexivity.
Qed.

(** Property X11.  When the query of the elements is rejected, or times out,
    the extraction is rejected with the message of the query under two
    prefixes, and the page has seen the wait for the load state and the
    query, nothing else.  Whether the wait itself succeeded makes no
    difference. *)
Theorem X11_query_failure {St H L : Type} (drv : Driver St H L)
    (url_hostname : string → option string) (config : PageObjectConfig St)
    (w : World St) (message : string) (s' : St) :
  negative_maxTextLength config || empty_selectorPriorities config = false →
  drv_all drv (buildSelectorString (mergeConfig drv config))
    (drv_waitForLoadState drv (page w)).2 = (Err message, s') →
  extractAccessibleElements drv url_hostname config w
  = (Err ("Element extraction failed: Element selection failed: " +:+ message),
     {| page := s';
        trace := (trace w
                  ++ [WaitForLoadState;
                      QueryAll (buildSelectorString (mergeConfig drv config))])%list |}).
Proof.
  intros Hvalid Hquery.
  rewrite extraction_steps
    by (by rewrite (proj1 (validateConfig_errors config))).
  cbv zeta. by rewrite Hquery.
Qed.

Lemma X11_query_failure_witness :
  extractAccessibleElements offline_driver (λ _, None) empty_config fresh_world
  = (Err "Element extraction failed: Element selection failed: Target closed",
     {| page := tt;
        trace := [WaitForLoadState;
                  QueryAll (buildSelectorString
                              (mergeConfig offline_driver empty_config))] |}).
Proof.
  apply (X11_query_failure offline_driver (λ _, None) empty_config fresh_world
           "Target closed" tt); reflexivity.
Defined.

(** ** The batches *)

Section Batches.

Context {St H L : Type}.
Variable drv : Driver St H L.
Variable url_hostname : string → option string.

Lemma process_element_Ok (element : H) (globalIndex : nat) (w : World St) :
  ∃ r, process_element drv url_hostname element globalIndex w
       = (Ok r, {| page := (drv_read drv element (page w)).2;
                   trace := (trace w ++ [ReadNode globalIndex])%list |}).
Proof.
  unfold process_element, executeWithTimeout, try_catch, bind, call, throw, ret.
  destruct (drv_read drv element (page w)) as [[node|e] s1]; simpl; eauto.
Qed.

Lemma process_batch_index (i i' batchIndex batchIndex' : nat) (batch : list H) :
  i + batchIndex = i' + batchIndex' →
  process_batch drv url_hostname i batchIndex batch
  = process_batch drv url_hostname i' batchIndex' batch.
Proof.
  revert batchIndex batchIndex'.
  induction batch as [|element rest IH]; intros b b' Heq; simpl; [done|].
  rewrite Heq. by rewrite (IH (S b) (S b')) by lia.
Qed.

Lemma process_batch_Ok (i batchIndex : nat) (batch : list H) (w : World St) :
  ∃ rs w', process_batch drv url_hostname i batchIndex batch w = (Ok rs, w')
           ∧ length rs = length batch
           ∧ trace w' = (trace w ++ (ReadNode <$> seq (i + batchIndex) (length batch)))%list.
Proof.
  revert batchIndex w.
  induction batch as [|element rest IH]; intros b w; simpl.
  - exists [], w. by rewrite app_nil_r.
  - unfold bind.
    destruct (process_element_Ok element (i + b) w) as [r ->].
    destruct (IH (S b) {| page := (drv_read drv element (page w)).2;
                          trace := (trace w ++ [ReadNode (i + b)])%list |})
      as (rs & w' & -> & Hlen & Htrace).
    exists (r :: rs), w'. split; [done|]. split; [simpl; by rewrite Hlen|].
    rewrite Htrace. simpl. rewrite <- app_assoc. simpl.
    by replace (i + S b) with (S (i + b)) by lia.
Qed.

Lemma process_batch_app (i batchIndex : nat) (batch rest : list H) (w : World St) :
  process_batch drv url_hostname i batchIndex (batch ++ rest) w
  = (rs1 <<- process_batch drv url_hostname i batchIndex batch ;;
     rs2 <<- process_batch drv url_hostname i (batchIndex + length batch) rest ;;
     ret (rs1 ++ rs2)%list) w.
Proof.
  revert batchIndex w.
  induction batch as [|element batch IH]; intros b w; simpl.
  - unfold bind, ret. replace (b + 0) with b by lia.
    by destruct (process_batch drv url_hostname i b rest w) as [[rs|e] w'].
  - unfold bind, ret.
    destruct (process_element_Ok element (i + b) w) as [r ->].
    rewrite IH. unfold bind, ret.
    destruct (process_batch drv url_hostname i (S b) batch _) as [[rs1|e] w1];
      [|done].
    replace (b + S (length batch)) with (S b + length batch) by lia.
    by destruct (process_batch drv url_hostname i (S b + length batch) rest w1)
      as [[rs2|e] w2].
Qed.

Lemma batch_loop_spec (iterations i : nat) (elementHandles : list H)
    (elementDetails : list AE) (w : World St) :
  length (drop i elementHandles) ≤ batchSize * iterations →
  batch_loop drv url_hostname iterations i elementHandles elementDetails w
  = (rs <<- process_batch drv url_hostname i 0 (drop i elementHandles) ;;
     ret (elementDetails ++ omap Datatypes.id rs)%list) w.
Proof.
  revert i elementDetails w.
  induction iterations as [|n IH]; intros i elementDetails w Hlen.
  - destruct (drop i elementHandles); [|simpl in Hlen; lia].
    simpl. unfold bind, ret. by rewrite app_nil_r.
  - cbn [batch_loop].
    set (batch := take batchSize (drop i elementHandles)).
    assert (drop i elementHandles
            = (batch ++ drop (i + batchSize) elementHandles)%list) as Hsplit.
    { unfold batch.
      rewrite <- (take_drop batchSize (drop i elementHandles)) at 1.
      f_equal. by rewrite drop_drop. }
    assert (length (drop (i + batchSize) elementHandles) ≤ batchSize * n) as Hrest.
    { rewrite length_drop in *. unfold batchSize in *. lia. }
    rewrite Hsplit. unfold bind at 2. rewrite process_batch_app. unfold bind.
    destruct (process_batch_Ok i 0 batch w) as (rs1 & w1 & -> & Hlen1 & _).
    rewrite (IH _ _ _ Hrest). unfold bind, ret.
    assert (process_batch drv url_hostname i (0 + length batch)
              (drop (i + batchSize) elementHandles) w1
            = process_batch drv url_hostname (i + batchSize) 0
                (drop (i + batchSize) elementHandles) w1) as ->.
    { destruct (decide (length (drop i elementHandles) < batchSize)) as [Hshort|Hfull].
      - rewrite (drop_ge elementHandles (i + batchSize))
          by (rewrite length_drop in Hshort; lia).
        done.
      - rewrite (process_batch_index i (i + batchSize) (0 + length batch) 0);
          [done|].
        unfold batch. rewrite length_take. lia. }
    destruct (process_batch drv url_hostname (i + batchSize) 0 _ w1)
      as [[rs2|e] w2]; [|done].
    by rewrite omap_app, app_assoc.
Qed.

Lemma batches_cover (n : nat) : n ≤ batchSize * ((n + (batchSize - 1)) / batchSize).
Proof.
  unfold batchSize.
  pose proof (Nat.div_mod_eq (n + (5 - 1)) 5) as Hdiv.
  pose proof (Nat.mod_upper_bound (n + (5 - 1)) 5 ltac:(done)) as Hmod.
  lia.
Qed.

End Batches.

(** Property X12.  The batches of five read every handle exactly once, in
    the order of the query and under its position in that order; the loop
    never fails, a handle whose read is rejected is left out, and the
    outcome is the one of a single batch that holds all the handles. *)
Theorem X12_batches_read_every_handle {St H L : Type} (drv : Driver St H L)
    (url_hostname : string → option string) (elementHandles : list H)
    (w : World St) :
  ∃ results w',
    process_batch drv url_hostname 0 0 elementHandles w = (Ok results, w')
    ∧ length results = length elementHandles
    ∧ batch_loop drv url_hostname
        ((length elementHandles + (batchSize - 1)) / batchSize)
        0 elementHandles [] w
      = (Ok (omap Datatypes.id results), w')
    ∧ trace w' = (trace w ++ (ReadNode <$> seq 0 (length elementHandles)))%list.
Proof.
  destruct (process_batch_Ok drv url_hostname 0 0 elementHandles w)
    as (results & w' & Hrun & Hlen & Htrace).
  exists results, w'. split; [done|]. split; [done|]. split; [|done].
  rewrite batch_loop_spec by (rewrite drop_0; apply batches_cover).
  rewrite drop_0. unfold bind. by rewrite Hrun.
Qed.

(** ** The pipeline of the built-in stages *)

Lemma process_batch_extracted {St H L} (drv : Driver St H L)
    (url_hostname : string → option string) (i batchIndex : nat) (batch : list H)
    (w w' : World St) (results : list (option AE)) :
  process_batch drv url_hostname i batchIndex batch w = (Ok results, w') →
  Forall (extracted url_hostname) (omap Datatypes.id results).
Proof.
  revert batchIndex w w' results.
  induction batch as [|element rest IH]; intros b w w' results; simpl.
  - intros [= <- _]. constructor.
  - intros (r & w1 & Hr & Hrest)%bind_Ok.
    apply bind_Ok in Hrest as (rs & w2 & Hrs & Hret). injection Hret as <- _.
    apply IH in Hrs. destruct r as [e|]; simpl; [|done].
    constructor; [|done].
    unfold process_element, executeWithTimeout, try_catch, bind, call, throw, ret
      in Hr.
    destruct (drv_read drv element (page w)) as [[node|msg] s1]; simpl in Hr;
      [|done].
    injection Hr as <- _. by eexists _, _.
Qed.



(** ** The fields of the configuration that the extraction reads *)



(** ** What the classifier reads *)

Lemma eqb_false_of_not_elem (x y : string) (l : list string) :
  x ∉ l → y ∈ l → (x =? y)%string = false.
Proof. intros Hx Hy. apply String.eqb_neq. by intros ->. Qed.

Lemma mem_false_of_not_elem (x : string) (l l' : list string) :
  x ∉ l → l' ⊆ l → Js.mem x l' = false.
Proof.
  intros Hx Hsub. apply bool_decide_eq_false_2. intros Hin. by apply Hx, Hsub.
Qed.

Lemma getElementType_role_ignored (tagName role type : string) :
  Js.toLowerCase role ∉ roles_consulted →
  getElementType tagName role type = getElementType tagName "" type.
Proof.
  intros Hrole. unfold getElementType.
  change (Js.toLowerCase "") with "".
  rewrite !(eqb_false_of_not_elem _ _ _ Hrole) by by_decision.
  rewrite !(mem_false_of_not_elem _ _ _ Hrole)
    by (intros x Hx; repeat (apply elem_of_cons in Hx as [->|Hx]; [by_decision|]);
        by apply elem_of_nil in Hx).
  reflexivity.
Qed.

Lemma getElementType_type_ignored (tagName role type : string) :
  Js.toLowerCase tagName ≠ "input" →
  getElementType tagName role type = getElementType tagName role "".
Proof.
  intros Htag%String.eqb_neq. unfold getElementType. by rewrite Htag.
Qed.

Lemma getElementType_label (tagName role type : string) :
  getElementType tagName role type = "label" → Js.toLowerCase tagName = "label".
Proof.
  unfold getElementType.
  set (tag := Js.toLowerCase tagName). set (r := Js.toLowerCase role).
  set (ty := Js.toLowerCase type).
  destruct (_ || _ || _); [done|].
  destruct ((tag =? "a")%string || (r =? "link")%string) eqn:Hlink; [done|].
  apply orb_false_iff in Hlink as [_ Hrole].
  destruct (tag =? "input")%string.
  { destruct (Js.mem ty _) eqn:Hty; [|done].
    apply bool_decide_eq_true in Hty. intros Heq. rewrite Heq in Hty.
    exfalso. revert Hty. by_decision. }
  destruct (_ || _); [done|]. destruct (tag =? "textarea")%string; [done|].
  destruct (_ || _); [done|]. destruct (Js.mem tag _); [done|].
  rewrite Hrole, orb_false_r.
  destruct (tag =? "label")%string eqn:Hlabel; [by apply String.eqb_eq in Hlabel|].
  repeat (destruct (_ && _); [done|]).
  destruct (Js.mem tag _); [done|].
  unfold Js.or_else. destruct (Js.truthy tag); [|done].
  intros Heq. rewrite Heq in Hlabel. done.
Qed.

(** Property X15.  [getElementType] lowers the case of its three inputs
    before anything else.  It tests the role against ten names only: a node
    with any other role is classified as the same node without a role.  It
    reads the [type] attribute of [input] tags only.  The answer [label] is
    given to [label] tags alone: the role [link], named in that test, has
    been answered [link] before. *)
Theorem X15_classifier_inputs :
  (∀ tagName role type,
     getElementType tagName role type
     = getElementType (Js.toLowerCase tagName) (Js.toLowerCase role)
         (Js.toLowerCase type))
  ∧ (∀ tagName role type,
       Js.toLowerCase role ∉ roles_consulted →
       getElementType tagName role type = getElementType tagName "" type)
  ∧ (∀ tagName role type,
       Js.toLowerCase tagName ≠ "input" →
       getElementType tagName role type = getElementType tagName role "")
  ∧ (∀ tagName role type,
       getElementType tagName role type = "label" →
       Js.toLowerCase tagName = "label").
Proof.
  split.
  { intros tagName role type. unfold getElementType.
    by rewrite !toLowerCase_idempotent. }
  split; [exact getElementType_role_ignored|].
  split; [exact getElementType_type_ignored|exact getElementType_label].
Qed.

Lemma X15_classifier_inputs_witness :
  getElementType "DIV" "Navigation" "" = getElementType "DIV" "" ""
  ∧ getElementType "Select" "" "email" = getElementType "Select" "" ""
  ∧ Js.toLowerCase "LABEL" = "label".
Proof.
  destruct X15_classifier_inputs as (_ & Hrole & Htype & Hlabel).
  split; [|split].
  - apply (Hrole "DIV" "Navigation" ""). by_decision.
  - apply (Htype "Select" "" "email"). vm_compute. discriminate.
  - apply (Hlabel "LABEL" "" ""). vm_compute. reflexivity.
Defined.

(** ** Names from link targets *)

Lemma generateHrefName_social (url_hostname : string → option string)
    (href domain name : string) :
  (domain, name) ∈ socialDomains → Js.includes domain href = true →
  generateHrefName url_hostname href ∈ socialDomains.*2.
Proof.
  intros Hentry Hincludes. unfold generateHrefName.
  destruct (List.find _ socialDomains) as [entry|] eqn:Hfind.
  - apply find_some in Hfind as [Hin _]. apply list_elem_of_In in Hin.
    by apply list_elem_of_fmap_2.
  - apply list_elem_of_In in Hentry.
    pose proof (find_none _ _ Hfind _ Hentry) as Hno. simpl in Hno. congruence.
Qed.

Lemma generateHrefName_truthy (url_hostname : string → option string)
    (href : string) :
  Js.truthy (generateHrefName url_hostname href) = true.
Proof.
  unfold generateHrefName.
  destruct (List.find _ socialDomains) as [entry|] eqn:Hfind.
  - apply find_some in Hfind as [Hin _]. apply list_elem_of_In in Hin.
    unfold socialDomains in Hin.
    repeat (apply elem_of_cons in Hin as [->|Hin]; [reflexivity|]).
    by apply elem_of_nil in Hin.
  - unfold hrefName_generic.
    repeat match goal with
           | |- Js.truthy (if ?b then _ else _) = true => destruct b eqn:?
           | |- Js.truthy (match ?o with Some _ => _ | None => _ end) = true =>
               destruct o
           | |- Js.truthy (?d +:+ "Link") = true => by destruct d
           end; reflexivity.
Qed.

(** Property X16.  [generateHrefName] looks for the social domains anywhere
    in the link target, before it looks at the scheme and before the target
    is parsed.  A target that contains one of them, in whatever position, is
    named after a social network; one that contains [x.com], as the host
    names that end in [x.com] do, is named after one of the first five
    entries of the table.  Without any of them, a [mailto:] target is named
    [emailLink].  The name is never empty, whatever the URL parser answers. *)
Theorem X16_social_names (url_hostname : string → option string) :
  (∀ href, generateHrefName url_hostname href ≠ "")
  ∧ (∀ href domain name,
       (domain, name) ∈ socialDomains → Js.includes domain href = true →
       generateHrefName url_hostname href ∈ socialDomains.*2)
  ∧ (∀ href,
       Js.includes "x.com" href = true →
       generateHrefName url_hostname href
       ∈ ["instagram"; "linkedin"; "facebook"; "twitter"])
  ∧ (∀ href,
       (∀ entry, entry ∈ socialDomains → Js.includes entry.1 href = false) →
       Js.startsWith "mailto:" href = true →
       generateHrefName url_hostname href = "emailLink").
Proof.
  split.
  { intros href Heq. pose proof (generateHrefName_truthy url_hostname href) as H.
    by rewrite Heq in H. }
  split; [intros href domain name; apply generateHrefName_social|].
  split.
  - intros href Hx. unfold generateHrefName, socialDomains.
    cbn [List.find fst snd].
    destruct (Js.includes "instagram.com" href); [by_decision|].
    destruct (Js.includes "linkedin.com" href); [by_decision|].
    destruct (Js.includes "facebook.com" href); [by_decision|].
    destruct (Js.includes "twitter.com" href); [by_decision|].
    rewrite Hx. by_decision.
  - intros href Hnone Hmailto. unfold generateHrefName.
    destruct (List.find _ socialDomains) as [entry|] eqn:Hfind.
    + apply find_some in Hfind as [Hin Hincl]. apply list_elem_of_In in Hin.
      rewrite (Hnone entry Hin) in Hincl. done.
    + unfold hrefName_generic. by rewrite Hmailto.
Qed.

Lemma X16_social_names_witness :
  generateHrefName (λ _, Some "www.netflix.com") "https://www.netflix.com/browse"
  ∈ ["instagram"; "linkedin"; "facebook"; "twitter"].
Proof.
  apply (proj1 (proj2 (proj2 (X16_social_names (λ _, Some "www.netflix.com"))))
           "https://www.netflix.com/browse").
  vm_compute. reflexivity.
Defined.

(** ** Controls without a label *)

Lemma unlabelled_button_expression (url_hostname : string → option string)
    (e : AE) :
  extracted url_hostname e → unlabelled_button e = true →
  AccessibleElement.expression e = "getByRole('button')".
Proof.
  intros (node & index & ->). unfold unlabelled_button, extractElementInfo.
  cbn [AccessibleElement.tagName AccessibleElement.textContent
       AccessibleElement.aria_label AccessibleElement.expression
       AccessibleElement.selector].
  intros [[Htag%String.eqb_eq Htext%negb_true_iff]%andb_true_iff
            Hlabel%negb_true_iff]%andb_true_iff.
  rewrite Htag. unfold generateSelector. rewrite Htext, Hlabel.
  rewrite andb_false_r. simpl. reflexivity.
Qed.

Lemma image_without_alt_expression (url_hostname : string → option string)
    (e : AE) :
  extracted url_hostname e → image_without_alt e = true →
  AccessibleElement.expression e = "getByRole('img')".
Proof.
  intros (node & index & ->). unfold image_without_alt, extractElementInfo.
  cbn [AccessibleElement.tagName AccessibleElement.textContent
       AccessibleElement.aria_label AccessibleElement.expression
       AccessibleElement.selector AccessibleElement.attributes].
  intros [[[Htag%String.eqb_eq Htext%negb_true_iff]%andb_true_iff
             Hlabel%negb_true_iff]%andb_true_iff
            Halt%negb_true_iff]%andb_true_iff.
  rewrite Htag. unfold generateSelector. rewrite Htext, Hlabel.
  rewrite andb_false_r. simpl.
  destruct (el_attributes node !! "alt") as [[|c alt]|]; done.
Qed.

Lemma at_most_one {A} (f : A → string) (p : A → bool) (k : string) (l : list A) :
  NoDup (f <$> l) → (∀ x, x ∈ l → p x = true → f x = k) →
  length (List.filter p l) ≤ 1.
Proof.
  induction l as [|x l IH]; simpl; [lia|].
  intros [Hx Hl]%NoDup_cons Hall.
  assert (length (List.filter p l) ≤ 1) as Hrest.
  { apply IH; [done|]. intros y Hy. apply Hall. by right. }
  destruct (p x) eqn:Hpx; [|done]. simpl.
  destruct (List.filter p l) as [|y ys] eqn:Hfilter; [simpl; lia|].
  exfalso. apply Hx.
  assert (y ∈ List.filter p l) as Hy by (rewrite Hfilter; left).
  apply list_elem_of_In, filter_In in Hy as [Hy%list_elem_of_In Hpy].
  apply list_elem_of_fmap. exists y. split; [|done].
  rewrite (Hall x) by (done || left). symmetry. apply Hall; [by right|done].
Qed.

(** Property X17.  Buttons without text and without an [aria-label] all get
    the selector expression [getByRole('button')], whatever their position,
    and images without text, [aria-label] and [alt] all get
    [getByRole('img')].  Duplicate removal on extracted records never
    throws, and it keeps at most one such button and at most one such image. *)
Theorem X17_unlabelled_controls_collapse (url_hostname : string → option string)
    (elementDetails : list AE) :
  Forall (extracted url_hostname) elementDetails →
  ∃ unique,
    DuplicateElementFilter.filter elementDetails = Ok unique
    ∧ unique `sublist_of` elementDetails
    ∧ length (List.filter unlabelled_button unique) ≤ 1
    ∧ length (List.filter image_without_alt unique) ≤ 1.
Proof.
  intros Hall. exists (first_per_selector elementDetails).
  assert (∀ e, e ∈ first_per_selector elementDetails → extracted url_hostname e)
    as Hsub.
  { intros e He. rewrite Forall_forall in Hall. apply Hall.
    eapply elem_of_sublist; [exact He|apply first_from_sublist]. }
  split.
  { apply filter_spec. eapply Forall_impl; [exact Hall|].
    intros e (node & index & ->). apply generateSelector_ordinary. }
  split; [apply first_from_sublist|].
  split.
  - apply (at_most_one AccessibleElement.expression _ "getByRole('button')");
      [apply first_from_fresh|].
    intros e He. apply (unlabelled_button_expression url_hostname). by apply Hsub.
  - apply (at_most_one AccessibleElement.expression _ "getByRole('img')");
      [apply first_from_fresh|].
    intros e He. apply (image_without_alt_expression url_hostname). by apply Hsub.
Qed.

Lemma X17_unlabelled_controls_collapse_witness :
  ∃ unique,
    DuplicateElementFilter.filter
      [ extractElementInfo (λ _, None) (node_of "BUTTON" "" {[ "class" := "close" ]}) 0;
        extractElementInfo (λ _, None) (node_of "BUTTON" "" {[ "class" := "menu" ]}) 1 ]
    = Ok unique
    ∧ length unique = 1.
Proof.
  destruct (X17_unlabelled_controls_collapse (λ _, None)
              [ extractElementInfo (λ _, None)
                  (node_of "BUTTON" "" {[ "class" := "close" ]}) 0;
                extractElementInfo (λ _, None)
                  (node_of "BUTTON" "" {[ "class" := "menu" ]}) 1 ])
    as (unique & Hrun & _).
  { repeat constructor; eexists _, _; reflexivity. }
  exists unique. split; [exact Hrun|].
  vm_compute in Hrun. injection Hrun as <-. reflexivity.
Defined.

(** ** The generated source *)


Lemma groupBy_Ok {T} (keyFn : T → string) (elements : list T)
    (groups : JsObject.t (list T)) :
  groupBy elements keyFn = Ok groups →
  NoDup groups.*1 ∧ ∀ k, JsObject.own groups k = expected_group keyFn k elements.
Proof.
  assert (groups_ok (T := T) []) as Hok0.
  { split; [constructor|]. intros k Hk. by apply elem_of_nil in Hk. }
  unfold groupBy.
  destruct (decide (Exists (λ e, keyFn e ∈ JsObject.prototype_keys) elements))
    as [Hex|Hall].
  - by rewrite (groupBy_from_throws keyFn elements [] Hok0 Hex).
  - apply not_Exists_Forall in Hall; [|intros e; apply _].
    destruct (groupBy_from_ok keyFn elements [] Hok0 Hall)
      as (groups' & -> & [Hnd _] & Hown).
    intros [= <-]. split; [done|]. intros k. by rewrite Hown.
Qed.

Lemma join_snoc (sep : string) (pieces : list string) (piece last : string) :
  Js.join sep ((piece :: pieces) ++ [last])
  = Js.join sep (piece :: pieces) +:+ sep +:+ last.
Proof.
  revert piece. induction pieces as [|p ps IH]; intros piece; [done|].
  change (piece +:+ sep +:+ Js.join sep ((p :: ps) ++ [last])
          = (piece +:+ sep +:+ Js.join sep (p :: ps)) +:+ sep +:+ last).
  by rewrite IH, !append_assoc.
Qed.

Lemma page_object_source_end (className properties constructorInitializers : string)
    (helpers : list string) :
  ∃ head,
    page_object_source className properties constructorInitializers helpers
    = head +:+ "    }" +:+ Js.nl +:+ Js.nl +:+ Js.join Js.nl helpers.
Proof.
  unfold page_object_source.
  match goal with
  | |- ∃ _, Js.join _ (?a1 :: ?a2 :: ?a3 :: ?a4 :: ?a5 :: ?a6 :: ?a7 :: ?a8 :: ?a9
                         :: ?a10 :: ?a11 :: ?a12 :: ?a13 :: ?a14 :: ?a15 :: ?a16
                         :: ?a17 :: ?a18 :: ?a19 :: ?a20 :: ?a21 :: [?a22]) = _ =>
      change (a1 :: a2 :: a3 :: a4 :: a5 :: a6 :: a7 :: a8 :: a9 :: a10 :: a11
                :: a12 :: a13 :: a14 :: a15 :: a16 :: a17 :: a18 :: a19 :: a20
                :: a21 :: [a22])
        with ((a1 :: [a2; a3; a4; a5; a6; a7; a8; a9; a10; a11; a12; a13; a14;
                      a15; a16; a17; a18; a19; a20; a21]) ++ [a22])%list;
      rewrite join_snoc;
      change (a1 :: [a2; a3; a4; a5; a6; a7; a8; a9; a10; a11; a12; a13; a14;
                     a15; a16; a17; a18; a19; a20; a21])
        with ((a1 :: [a2; a3; a4; a5; a6; a7; a8; a9; a10; a11; a12; a13; a14;
                      a15; a16; a17; a18; a19; a20]) ++ [a21])%list;
      rewrite join_snoc;
      change (a1 :: [a2; a3; a4; a5; a6; a7; a8; a9; a10; a11; a12; a13; a14;
                     a15; a16; a17; a18; a19; a20])
        with ((a1 :: [a2; a3; a4; a5; a6; a7; a8; a9; a10; a11; a12; a13; a14;
                      a15; a16; a17; a18; a19]) ++ [a20])%list;
      rewrite join_snoc;
      exists (Js.join Js.nl
                (a1 :: [a2; a3; a4; a5; a6; a7; a8; a9; a10; a11; a12; a13; a14;
                        a15; a16; a17; a18; a19]) +:+ Js.nl)
  end.
  rewrite !append_assoc. reflexivity.
Qed.

Lemma generateHelperMethods_end (pageUrl : string) :
  ∃ head,
    Js.join Js.nl (generateHelperMethods pageUrl)
    = head +:+ "    }" +:+ Js.nl +:+ Js.nl +:+ "}".
Proof.
  unfold generateHelperMethods.
  match goal with
  | |- ∃ _, Js.join _ (?a1 :: ?a2 :: ?a3 :: ?a4 :: ?a5 :: ?a6 :: ?a7 :: ?a8 :: ?a9
                         :: ?a10 :: [?a11]) = _ =>
      change (a1 :: a2 :: a3 :: a4 :: a5 :: a6 :: a7 :: a8 :: a9 :: a10 :: [a11])
        with ((a1 :: [a2; a3; a4; a5; a6; a7; a8; a9; a10]) ++ [a11])%list;
      rewrite join_snoc;
      change (a1 :: [a2; a3; a4; a5; a6; a7; a8; a9; a10])
        with ((a1 :: [a2; a3; a4; a5; a6; a7; a8; a9]) ++ [a10])%list;
      rewrite join_snoc;
      change (a1 :: [a2; a3; a4; a5; a6; a7; a8; a9])
        with ((a1 :: [a2; a3; a4; a5; a6; a7; a8]) ++ [a9])%list;
      rewrite join_snoc;
      exists (Js.join Js.nl (a1 :: [a2; a3; a4; a5; a6; a7; a8]) +:+ Js.nl)
  end.
  rewrite !append_assoc. reflexivity.
Qed.

Lemma generatePageObject_Ok {St H L} (drv : Driver St H L)
    (url_hostname : string → option string) (page_url : St → string)
    (className : string) (config : PageObjectConfig St) (w w' : World St)
    (code : string) :
  generatePageObject drv url_hostname page_url className config w = (Ok code, w') →
  ∃ elements grouped,
    extractAccessibleElements drv url_hostname config w = (Ok elements, w')
    ∧ groupBy elements AccessibleElement.type = Ok grouped
    ∧ code = page_object_source className
               (Js.join (Js.nl +:+ Js.nl) (type_block <$> JsObject.entries grouped))
               (Js.join Js.nl (constructor_initializer <$> elements))
               (if default true (includeHelpers config)
                then generateHelperMethods (page_url (page w')) else []).
Proof.
  unfold generatePageObject, bind, lift, ret.
  destruct (extractAccessibleElements drv url_hostname config w)
    as [[elements|e] w1]; [|done].
  destruct (groupBy elements AccessibleElement.type) as [grouped|e] eqn:Hgroup;
    [|done].
  intros [= <- <-]. exists elements, grouped. by rewrite Hgroup.
Qed.

(** Property X18.  The text that [generatePageObject] returns closes its
    class only when the helpers are included: the closing brace is the last
    line of the helpers.  With [includeHelpers: false] the text ends with
    the brace of the constructor and two line breaks, and the class is left
    open. *)
Theorem X18_closing_brace {St H L : Type} (drv : Driver St H L)
    (url_hostname : string → option string) (page_url : St → string)
    (className : string) (config : PageObjectConfig St) (w w' : World St)
    (code : string) :
  generatePageObject drv url_hostname page_url className config w = (Ok code, w') →
  if default true (includeHelpers config)
  then ∃ head, code = head +:+ "    }" +:+ Js.nl +:+ Js.nl +:+ "}"
  else ∃ head, code = head +:+ "    }" +:+ Js.nl +:+ Js.nl.
Proof.
  intros (elements & grouped & _ & _ & ->)%generatePageObject_Ok.
  match goal with
  | |- context [page_object_source ?c ?p ?i ?h] =>
      destruct (page_object_source_end c p i h) as [head ->]
  end.
  destruct (default true (includeHelpers config)).
  - destruct (generateHelperMethods_end (page_url (page w'))) as [helpers ->].
    exists (head +:+ "    }" +:+ Js.nl +:+ Js.nl +:+ helpers).
    rewrite !append_assoc. reflexivity.
  - exists head. simpl. by rewrite append_nil_r.
Qed.

Lemma X18_closing_brace_witness :
  ∃ head,
    match (generatePageObject (static_driver [email_input]) (λ _, None)
             (λ _, "https://example.com/login") "LoginPage"
             config_of_ignored_fields fresh_world).1 with
    | Ok code => code
    | Err _ => ""
    end = head +:+ "    }" +:+ Js.nl +:+ Js.nl.
Proof.
  pose (run := generatePageObject (static_driver [email_input]) (λ _, None)
                 (λ _, "https://example.com/login") "LoginPage"
                 config_of_ignored_fields fresh_world).
  assert (run = (Ok (match run.1 with Ok code => code | Err _ => "" end), run.2))
    as Hrun by (vm_compute; reflexivity).
  exact (X18_closing_brace _ _ _ _ _ _ _ _ Hrun).
Defined.



(** ** The counts of the metadata *)

Lemma entries_Permutation {V} (o : JsObject.t V) : JsObject.entries o ≡ₚ o.
Proof.
  unfold JsObject.entries. induction o as [|[k v] o IH]; simpl; [done|].
  unfold JsObject.is_array_index, JsObject.array_index.
  destruct (_ && _ && _ && _) eqn:Hk.
  - apply andb_true_iff in Hk as [[_ Hpretty%bool_decide_eq_true]%andb_true_iff _].
    rewrite insert_by_index_Permutation. simpl. rewrite Hpretty. by constructor.
  - rewrite <- Permutation_middle. by constructor.
Qed.

Lemma own_Some_elem {V} (l : JsObject.t V) (k : string) (v : V) :
  NoDup l.*1 → JsObject.own l k = Some v ↔ (k, v) ∈ l.
Proof.
  induction l as [|[k0 v0] l IH]; simpl.
  - intros _. split; [done|]. by intros ?%elem_of_nil.
  - intros [Hk0 Hl]%NoDup_cons. case_bool_decide as Hk.
    + subst k0. split.
      * intros [= ->]. left.
      * intros [[= ->]|Hin]%elem_of_cons; [done|]. exfalso. apply Hk0.
        apply list_elem_of_fmap. by exists (k, v).
    + rewrite (IH Hl). split; [by right|].
      intros [[= -> ->]|Hin]%elem_of_cons; [done|done].
Qed.

Lemma own_Permutation {V} (l l' : JsObject.t V) (k : string) :
  l ≡ₚ l' → NoDup l.*1 → JsObject.own l k = JsObject.own l' k.
Proof.
  intros Hperm Hnd.
  assert (NoDup l'.*1) as Hnd' by (by rewrite <- Hperm).
  destruct (JsObject.own l k) as [v|] eqn:Hl.
  - symmetry. apply own_Some_elem; [done|]. rewrite <- Hperm.
    by apply own_Some_elem.
  - destruct (JsObject.own l' k) as [v'|] eqn:Hl'; [|done].
    apply own_Some_elem in Hl'; [|done]. rewrite <- Hperm in Hl'.
    apply own_Some_elem in Hl'; [|done]. congruence.
Qed.

Lemma own_fromEntries_from {V} (l acc : JsObject.t V) (k : string) :
  NoDup l.*1 →
  JsObject.own (foldl (λ o e, JsObject.set o e.1 e.2) acc l) k
  = match JsObject.own l k with
    | Some v => Some v
    | None => JsObject.own acc k
    end.
Proof.
  revert acc. induction l as [|[k0 v0] l IH]; intros acc; simpl; [done|].
  intros [Hk0 Hl]%NoDup_cons. rewrite (IH _ Hl), own_set.
  case_bool_decide as Hk; [|done]. subst k0.
  by apply own_None_iff in Hk0 as ->.
Qed.

Lemma own_fmap_values {V W} (f : V → W) (l : JsObject.t V) (k : string) :
  JsObject.own ((λ e : string * V, (e.1, f e.2)) <$> l) k = f <$> JsObject.own l k.
Proof.
  induction l as [|[k0 v0] l IH]; simpl; [done|]. by case_bool_decide.
Qed.

Lemma keys_fmap_values {V W} (f : V → W) (l : JsObject.t V) :
  ((λ e : string * V, (e.1, f e.2)) <$> l).*1 = l.*1.
Proof. induction l as [|[k0 v0] l IH]; simpl; [done|]. by f_equal. Qed.

Lemma own_counts {V} (o : JsObject.t (list V)) (k : string) :
  NoDup o.*1 →
  JsObject.own
    (JsObject.fromEntries
       ((λ entry : string * list V, (entry.1, length entry.2))
          <$> JsObject.entries o)) k
  = length <$> JsObject.own o k.
Proof.
  intros Hnd.
  assert (NoDup (JsObject.entries o).*1) as Hnd'
    by (by rewrite entries_Permutation).
  unfold JsObject.fromEntries.
  rewrite own_fromEntries_from by (by rewrite keys_fmap_values).
  rewrite own_fmap_values, (own_Permutation _ o) by (done || apply entries_Permutation).
  by destruct (JsObject.own o k).
Qed.

(** Property X20.  In the result of [generatePageObjectMetadata], the count
    under an element type is the number of returned elements of that type,
    and a type that no returned element has is absent.  The returned
    elements come from a second extraction, run on the page as the
    generation of the code left it; the code was generated from the first. *)
Theorem X20_metadata_counts {St H L : Type} (drv : Driver St H L)
    (url_hostname : string → option string) (page_url : St → string)
    (pageObjectName : string) (config : PageObjectConfig St) (w w' : World St)
    (r : GenerationResult) :
  generatePageObjectMetadata drv url_hostname page_url pageObjectName config w
  = (Ok r, w') →
  (∀ type, JsObject.own (elementTypes r) type
           = length <$> expected_group AccessibleElement.type type (gr_elements r))
  ∧ ∃ w1,
      generatePageObject drv url_hostname page_url pageObjectName config w
      = (Ok (pageObjectCode r), w1)
      ∧ extractAccessibleElements drv url_hostname config w1
        = (Ok (gr_elements r), w').
Proof.
  unfold generatePageObjectMetadata. unfold bind at 1.
  destruct (generatePageObject drv url_hostname page_url pageObjectName config w)
    as [[code|e] w1]; [|done].
  unfold bind at 1.
  destruct (extractAccessibleElements drv url_hostname config w1)
    as [[elements|e] w2] eqn:Hextract; [|done].
  unfold bind, lift, ret.
  destruct (groupBy elements AccessibleElement.type) as [groups|e] eqn:Hgroup;
    [|done].
  intros [= <- <-]. simpl.
  apply groupBy_Ok in Hgroup as [Hnd Hown]. split; [|by exists w1].
  intros type. by rewrite own_counts, Hown.
Qed.

Lemma X20_metadata_counts_witness :
  JsObject.own [("button", 2); ("email", 1)] "button"
  = length <$> expected_group AccessibleElement.type "button"
                 (uniquifyPropertyNames
                    [ extractElementInfo (λ _, None) (node_of "BUTTON" "Save" ∅) 0;
                      extractElementInfo (λ _, None) email_input 1;
                      extractElementInfo (λ _, None) (node_of "BUTTON" "Cancel" ∅) 2 ]).
Proof.
  pose (run := generatePageObjectMetadata
                 (static_driver [node_of "BUTTON" "Save" ∅; email_input;
                                 node_of "BUTTON" "Cancel" ∅])
                 (λ _, None) (λ _, "https://example.com/") "Page" empty_config
                 fresh_world).
  assert (run = (Ok {| pageObjectCode :=
                         match run.1 with Ok r => pageObjectCode r | Err _ => "" end;
                       gr_elements :=
                         uniquifyPropertyNames
                           [ extractElementInfo (λ _, None) (node_of "BUTTON" "Save" ∅) 0;
                             extractElementInfo (λ _, None) email_input 1;
                             extractElementInfo (λ _, None)
                               (node_of "BUTTON" "Cancel" ∅) 2 ];
                       elementTypes := [("button", 2); ("email", 1)] |}, run.2))
    as Hrun by (vm_compute; reflexivity).
  exact (proj1 (X20_metadata_counts _ _ _ _ _ _ _ _ Hrun) "button").
Defined.

(** ** What the extraction guarantees *)

Lemma builtin_pipeline_Ok {St H L} (drv : Driver St H L)
    (url_hostname : string → option string) (config : PageObjectConfig St)
    (w w' : World St) (out : list AE) :
  default [] (elementFilters config) = [] →
  extractAccessibleElements drv url_hostname config w = (Ok out, w') →
  ∃ elementDetails kept,
    Forall (extracted url_hostname) elementDetails
    ∧ kept `sublist_of`
        MeaningfulContentFilter.filter
          (HiddenElementFilter.filter (first_per_selector elementDetails))
    ∧ out = uniquifyPropertyNames kept.
Proof.
  intros Hcustom.
  unfold extractAccessibleElements, executeWithTimeout, try_catch.
  destruct (_extractAccessibleElementsInternal drv url_hostname config w)
    as [[out'|e] w1] eqn:Hrun; [|done].
  intros [= <- <-]. revert Hrun.
  unfold _extractAccessibleElementsInternal.
  destruct (existsb is_error (validateConfig config)); [done|].
  intros (_ & w2 & _ & Hrun)%bind_Ok.
  apply bind_Ok in Hrun as (handles & w3 & _ & Hrun).
  apply bind_Ok in Hrun as (details & w4 & Hbatch & Hrun).
  apply bind_Ok in Hrun as (filtered & w5 & Hsync & Hrun).
  apply bind_Ok in Hrun as (kept & w6 & Hasync & Hrun).
  injection Hrun as <- _.
  rewrite batch_loop_spec in Hbatch by (rewrite drop_0; apply batches_cover).
  rewrite drop_0 in Hbatch.
  apply bind_Ok in Hbatch as (results & w4' & Hresults & Hret).
  injection Hret as <- _. apply process_batch_extracted in Hresults.
  set (details := omap Datatypes.id results) in *.
  exists details, kept. split; [done|]. split; [|done].
  unfold mergeConfig in Hsync, Hasync. cbn [m_elementFilters] in Hsync, Hasync.
  rewrite Hcustom in Hsync, Hasync.
  cbn [app apply_sync_filters apply_async_filters filter_enabled filter_sync
         filterAsync DuplicateElementFilter_new HiddenElementFilter_new
         MeaningfulContentFilter_new VisibilityFilter_new] in Hsync, Hasync.
  unfold DuplicateElementFilter.enabled, HiddenElementFilter.enabled,
    MeaningfulContentFilter.enabled, lift in Hsync, Hasync.
  rewrite (filter_spec details) in Hsync.
  2: { eapply Forall_impl; [exact Hresults|].
       intros e (node & index & ->). apply generateSelector_ordinary. }
  destruct (default false (enableRuntimeVisibilityCheck config)).
  - injection Hsync as <- _.
    apply bind_Ok in Hasync as (visible & w7 & Hvisible & Hret).
    injection Hret as <- _.
    unfold VisibilityFilter_filterAsync in Hvisible. simpl in Hvisible.
    match type of Hvisible with
    | visibility_loop drv ?l ?acc ?w0 = _ =>
        destruct (visibility_loop_spec drv l acc w0) as [w8 Hloop]
    end.
    rewrite Hloop in Hvisible. injection Hvisible as <- _.
    apply survivors_sublist.
  - injection Hsync as <- _. injection Hasync as <- _. done.
Qed.

Lemma keep_frame (e e' : AE) :
  same_but_propertyName e e' →
  HiddenElementFilter.keep e' = HiddenElementFilter.keep e
  ∧ MeaningfulContentFilter.keep e' = MeaningfulContentFilter.keep e.
Proof.
  destruct e, e'. unfold same_but_propertyName. simpl.
  intros (-> & -> & -> & -> & -> & -> & -> & -> & -> & -> & -> & -> & -> & ->).
  split; reflexivity.
Qed.

Lemma expression_frame (l l' : list AE) :
  Forall2 same_but_propertyName l l' →
  AccessibleElement.expression <$> l' = AccessibleElement.expression <$> l.
Proof.
  induction 1 as [|e e' l l' He Hl IH]; [done|].
  rewrite !fmap_cons, IH. f_equal. unfold AccessibleElement.expression.
  by destruct He as (_ & _ & -> & _).
Qed.

(** Property X21.  What a caller gets from an extraction that runs the
    built-in stages only, with or without the runtime visibility check.  The
    property names of the returned elements are pairwise distinct, and so
    are their selector expressions.  Every returned element passes the tests
    of the hidden-element stage and of the meaningful-content stage.  And
    every returned element is the record of one of the nodes read from the
    page, with no field changed but the property name. *)
Theorem X21_extraction_guarantees {St H L : Type} (drv : Driver St H L)
    (url_hostname : string → option string) (config : PageObjectConfig St)
    (w w' : World St) (out : list AE) :
  default [] (elementFilters config) = [] →
  extractAccessibleElements drv url_hostname config w = (Ok out, w') →
  NoDup (AccessibleElement.propertyName <$> out)
  ∧ NoDup (AccessibleElement.expression <$> out)
  ∧ Forall (λ e, HiddenElementFilter.keep e = true
                 ∧ MeaningfulContentFilter.keep e = true) out
  ∧ Forall (λ e, ∃ node index,
                same_but_propertyName
                  (extractElementInfo url_hostname node index) e) out.
Proof.
  intros Hcustom Hrun.
  destruct (builtin_pipeline_Ok drv url_hostname config w w' out Hcustom Hrun)
    as (details & kept & Hdetails & Hkept & ->).
  pose proof (uniquify_from_frame ∅ kept) as Hframe.
  fold (uniquifyPropertyNames kept) in Hframe.
  assert (kept `sublist_of` first_per_selector details) as Hfirst.
  { etrans; [exact Hkept|]. etrans; apply List_filter_sublist. }
  split; [apply (uniquify_from_fresh AE_get_set)|].
  split.
  { assert (AccessibleElement.expression <$> uniquifyPropertyNames kept
            = AccessibleElement.expression <$> kept) as ->.
    { by apply expression_frame. }
    eapply sublist_NoDup; [apply (first_from_fresh ∅ details)|].
    by apply fmap_sublist. }
  split.
  - eapply Forall2_Forall_r; [exact Hframe|]. apply Forall_forall.
    intros e He e' [-> ->]%keep_frame.
    assert (e ∈ MeaningfulContentFilter.filter
                  (HiddenElementFilter.filter (first_per_selector details)))
      as [Hin Hmeaningful]%MeaningfulContentFilter_elem_of
      by (by eapply elem_of_sublist).
    by apply HiddenElementFilter_elem_of in Hin as [_ Hhidden].
  - eapply Forall2_Forall_r; [exact Hframe|]. apply Forall_forall.
    intros e He e' Hsame.
    assert (e ∈ details) as Hin.
    { eapply elem_of_sublist; [exact He|]. etrans; [exact Hfirst|].
      apply first_from_sublist. }
    rewrite Forall_forall in Hdetails.
    destruct (Hdetails e Hin) as (node & index & ->). by exists node, index.
Qed.

Lemma X21_extraction_guarantees_witness :
  NoDup (AccessibleElement.propertyName
           <$> match (extractAccessibleElements
                        (static_driver [email_input; node_of "BUTTON" "Email Address" ∅])
                        (λ _, None) empty_config fresh_world).1 with
               | Ok out => out
               | Err _ => []
               end).
Proof.
  pose (run := extractAccessibleElements
                 (static_driver [email_input; node_of "BUTTON" "Email Address" ∅])
                 (λ _, None) empty_config fresh_world).
  assert (run = (Ok (match run.1 with Ok out => out | Err _ => [] end), run.2))
    as Hrun by (vm_compute; reflexivity).
  exact (proj1 (X21_extraction_guarantees
                  (static_driver [email_input; node_of "BUTTON" "Email Address" ∅])
                  (λ _, None) empty_config fresh_world run.2 _ eq_refl Hrun)).
Defined.

(** ** The order of the selector strategies *)

(** Property X22.  An element with a text of fewer than a hundred characters
    is never selected by its test id, by its id or by its [name] attribute,
    whatever its attributes are: its selector expression is one of the
    [getBy...] calls other than [getByTestId], and no [locator(...)] call. *)
Theorem X22_text_before_test_id (url_hostname : string → option string)
    (tagName role textContent ariaLabel placeholder : string)
    (attributes : gmap string string) (index : nat) :
  Js.truthy textContent = true → String.length textContent < 100 →
  Js.startsWith "getBy"
    (ElementSelector.selector
       (generateSelector url_hostname tagName role textContent ariaLabel
          placeholder attributes index)) = true
  ∧ Js.startsWith "getByTestId"
      (ElementSelector.selector
         (generateSelector url_hostname tagName role textContent ariaLabel
            placeholder attributes index)) = false.
Proof.
  intros Htext Hshort.
  assert (Js.truthy textContent && (0 <? String.length textContent)
          && (String.length textContent <? 100) = true) as Htest.
  { rewrite Htext. destruct textContent as [|c s]; [done|]. simpl.
    by apply Nat.ltb_lt. }
  unfold generateSelector. rewrite Htest, Htext.
  repeat case_match; split; vm_compute; reflexivity.
Qed.

Lemma X22_text_before_test_id_witness :
  Js.startsWith "getByTestId"
    (ElementSelector.selector
       (generateSelector (λ _, None) "div" "" "Total" "" ""
          {[ "data-testid" := "cart-total" ]} 0)) = false.
Proof.
  apply (X22_text_before_test_id (λ _, None) "div" "" "Total" "" ""
           {[ "data-testid" := "cart-total" ]} 0); [reflexivity|simpl; lia].
Defined.

(** ** The selector of the query *)

Lemma join_scoped (container : string) (selector : string) (selectors : list string) :
  container +:+ " "
    +:+ Js.join (", " +:+ container +:+ " ") (selector :: selectors)
  = Js.join ", " ((λ s, container +:+ " " +:+ s) <$> selector :: selectors).
Proof.
  revert selector. induction selectors as [|s ss IH]; intros selector; [done|].
  change (container +:+ " "
            +:+ (selector +:+ (", " +:+ container +:+ " ")
                   +:+ Js.join (", " +:+ container +:+ " ") (s :: ss))
          = (container +:+ " " +:+ selector) +:+ ", "
              +:+ Js.join ", " ((λ s, container +:+ " " +:+ s) <$> s :: ss)).
  rewrite <- IH. by rewrite !append_assoc.
Qed.

(** Property X23.  [buildSelectorString] puts the container selector and a
    space before each selector of the list it has chosen and joins the
    results with a comma: the string has as many alternatives as the list
    has selectors.  The list is [includeSelectors] when that is not empty,
    whatever [interactiveOnly] says; otherwise one of the two built-in
    lists. *)
Theorem X23_selector_scoping {St : Type} (config : MergedConfig St) :
  buildSelectorString config
  = Js.join ", "
      ((λ selector, m_containerSelector config +:+ " " +:+ selector)
         <$> chosen_selectors config).
Proof.
  unfold buildSelectorString, chosen_selectors.
  destruct (m_includeSelectors config) as [|selector selectors];
    [destruct (m_interactiveOnly config)|]; cbn [length Nat.ltb Nat.leb];
    apply join_scoped.
Qed.

(** ** A filter of the caller's own among the stages *)

(** Property X24.  A filter that the caller brings runs in two places.  Its
    synchronous part is the first stage of all: it sees the records as they
    were read, duplicates and hidden elements included.  Its asynchronous
    part runs after every synchronous stage: it receives what the three
    built-in stages have kept of the output of the synchronous part.  A
    filter that is not enabled runs in neither place. *)
Theorem X24_custom_filter_order {St H L : Type} (drv : Driver St H L)
    (url_hostname : string → option string) (config : PageObjectConfig St)
    (filter : ElementFilter St) (w : World St) (elementHandles : list H) (s' : St) :
  negative_maxTextLength config || empty_selectorPriorities config = false →
  elementFilters config = Some [filter] →
  default false (enableRuntimeVisibilityCheck config) = false →
  drv_all drv (buildSelectorString (mergeConfig drv config))
    (drv_waitForLoadState drv (page w)).2 = (Ok elementHandles, s') →
  ∃ results w',
    process_batch drv url_hostname 0 0 elementHandles
      {| page := s';
         trace := (trace w
                   ++ [WaitForLoadState;
                       QueryAll (buildSelectorString (mergeConfig drv config))])%list |}
    = (Ok results, w')
    ∧ extractAccessibleElements drv url_hostname config w
      = executeWithTimeout
          (own <<- lift (if filter_enabled filter
                         then filter_sync filter (omap Datatypes.id results)
                         else Ok (omap Datatypes.id results)) ;;
           unique <<- lift (DuplicateElementFilter.filter own) ;;
           final <<- match filter_enabled filter, filterAsync filter with
                     | true, Some run =>
                         run (MeaningfulContentFilter.filter
                                (HiddenElementFilter.filter unique))
                     | _, _ =>
                         ret (MeaningfulContentFilter.filter
                                (HiddenElementFilter.filter unique))
                     end ;;
           ret (uniquifyPropertyNames final))
          60000 "Element extraction" w'.
Proof.
  intros Hvalid Hcustom Hcheck Hquery.
  rewrite extraction_steps
    by (by rewrite (proj1 (validateConfig_errors config))).
  cbv zeta. rewrite Hquery. cbn [fst snd].
  set (w2 := {| page := s'; trace := _ |}).
  destruct (process_batch_Ok drv url_hostname 0 0 elementHandles w2)
    as (results & w' & Hrun & _ & _).
  exists results, w'. split; [done|].
  unfold executeWithTimeout, try_catch. unfold bind at 1.
  rewrite batch_loop_spec by (rewrite drop_0; apply batches_cover).
  rewrite drop_0. unfold bind at 1. rewrite Hrun.
  unfold ret at 1. cbn [app].
  unfold mergeConfig. cbn [m_elementFilters]. rewrite Hcustom, Hcheck.
  change (default [] (Some [filter])) with [filter].
  cbn [app apply_sync_filters apply_async_filters filter_enabled filter_sync
         filterAsync DuplicateElementFilter_new HiddenElementFilter_new
         MeaningfulContentFilter_new VisibilityFilter_new].
  unfold DuplicateElementFilter.enabled, HiddenElementFilter.enabled,
    MeaningfulContentFilter.enabled.
  unfold bind, lift, ret, throw.
  destruct (filter_enabled filter).
  - destruct (filter_sync filter (omap Datatypes.id results)) as [own|e]; [|done].
    destruct (DuplicateElementFilter.filter own) as [unique|e]; [|done].
    destruct (filterAsync filter) as [run|]; [|done].
    by destruct (run _ w') as [[final|e] w''].
  - by destruct (DuplicateElementFilter.filter (omap Datatypes.id results)).
Qed.

Lemma X24_custom_filter_order_witness :
  (extractAccessibleElements
     (static_driver [email_input; node_of "BUTTON" "Save" ∅;
                     node_of "BUTTON" "Cancel" ∅])
     (λ _, None) (config_with_filter first_button_filter) fresh_world).1
  = Ok [extractElementInfo (λ _, None) (node_of "BUTTON" "Save" ∅) 1].
Proof.
  destruct (X24_custom_filter_order
              (static_driver [email_input; node_of "BUTTON" "Save" ∅;
                              node_of "BUTTON" "Cancel" ∅])
              (λ _, None) (config_with_filter first_button_filter)
              first_button_filter fresh_world
              [email_input; node_of "BUTTON" "Save" ∅; node_of "BUTTON" "Cancel" ∅]
              tt)
    as (results & w' & Hrun & ->); try reflexivity.
  vm_compute in Hrun. injection Hrun as <- <-. vm_compute. reflexivity.
Defined.
